(** * Agent Service: the task / step orchestration engine

    A shallow embedding of [backend/agent-service/main.py]: the data model
    ([AgentStatus], [StepStatus], [AgentType], [AgentStep], [AgentTask]),
    the engine ([BaseAgent.execute], [execute_step], [save_task],
    [broadcast_update]), the one concrete agent ([FeatureImplementerAgent]),
    the factory ([create_agent]) and the task endpoints
    ([create_agent_task], [get_agent_task], [cancel_agent_task],
    [execute_agent_task]).

    Conventions of the embedding.
    - A coroutine is a function from the state of the agent (its task object
      and the process globals) to an outcome and a new state: mutations
      made before an exception is raised are kept, as in Python.
    - An exception is represented by its text, [str(e)]; every handler of
      the source is an [except Exception].  The texts are those of
      CPython 3.11 and later.
    - What the outside world answers is read from an environment [Env]:
      whether a Redis command raises, what other requests wrote to Redis in
      the meantime, whether a WebSocket delivery raises, what the project
      and AI services answer to the planner, and what each step handler
      produces.  The theorems quantify over every environment.
    - [task.json()] followed by [AgentTask.parse_raw] is the identity:
      Redis holds task records.
    - [progress] is the exact rational [((i + 1) / len) * 100].  The float
      of the source equals [100.0] exactly when the rational equals 100,
      and is ordered as the rationals are.
    - Timestamps and durations, [user_id], [context], [config],
      [input_data] and the Prometheus counters are left out: the engine
      writes them and never reads them back, but for the [json.dumps]
      of [broadcast_update], which refuses the [created_at] of the task
      ([hub_as_written]).                                                 *)

From Stdlib Require Import ZArith QArith String List Lia.
From stdpp Require Import base option list gmap strings pretty.

Local Open Scope string_scope.
Local Open Scope list_scope.

(* ================================================================== *)
(** ** Data model                                                      *)
(* ================================================================== *)

Module AgentStatus.
Inductive t := PENDING | RUNNING | COMPLETED | FAILED | CANCELLED | PAUSED.
#[global] Instance eq_dec : EqDecision t.
Proof. solve_decision. Defined.
End AgentStatus.

Module StepStatus.
Inductive t := PENDING | RUNNING | COMPLETED | FAILED | SKIPPED.
#[global] Instance eq_dec : EqDecision t.
Proof. solve_decision. Defined.
End StepStatus.

Module AgentType.
Inductive t :=
  | CODE_GENERATOR | FEATURE_IMPLEMENTER | BUG_FIXER | REFACTORER
  | TEST_GENERATOR | DOCUMENTATION_WRITER | DEPLOYMENT_MANAGER | CODE_REVIEWER.
#[global] Instance eq_dec : EqDecision t.
Proof. solve_decision. Defined.
Definition value (a : t) : string :=
  match a with
  | CODE_GENERATOR => "code_generator"
  | FEATURE_IMPLEMENTER => "feature_implementer"
  | BUG_FIXER => "bug_fixer"
  | REFACTORER => "refactorer"
  | TEST_GENERATOR => "test_generator"
  | DOCUMENTATION_WRITER => "documentation_writer"
  | DEPLOYMENT_MANAGER => "deployment_manager"
  | CODE_REVIEWER => "code_reviewer"
  end.
Definition name (a : t) : string :=
  match a with
  | CODE_GENERATOR => "CODE_GENERATOR"
  | FEATURE_IMPLEMENTER => "FEATURE_IMPLEMENTER"
  | BUG_FIXER => "BUG_FIXER"
  | REFACTORER => "REFACTORER"
  | TEST_GENERATOR => "TEST_GENERATOR"
  | DOCUMENTATION_WRITER => "DOCUMENTATION_WRITER"
  | DEPLOYMENT_MANAGER => "DEPLOYMENT_MANAGER"
  | CODE_REVIEWER => "CODE_REVIEWER"
  end.
(** A member in an f-string.  [AgentType] is a [(str, Enum)]: since
    CPython 3.11 its [format] is that of [Enum], the name of the class
    and of the member, and no longer the value. *)
Definition format (a : t) : string := "AgentType." +:+ name a.
End AgentType.

(** The values of a [Dict[str, Any]]. *)
#[local] Unset Elimination Schemes.
Inductive pyval :=
  | PyNone
  | PyBool (b : bool)
  | PyInt (z : Z)
  | PyStr (s : string)
  | PyList (l : list pyval)
  | PyDict (d : list (string * pyval)).
#[local] Set Elimination Schemes.

Module AgentStep.
Record t := mk {
  id : string;
  name : string;
  description : string;
  type : string;
  status : StepStatus.t;
  output_data : gmap string pyval;
  error_message : option string;
  dependencies : list string;
  retry_count : Z;
  max_retries : Z
}.
Definition with_status (v : StepStatus.t) (s : t) : t :=
  mk (id s) (name s) (description s) (type s) v (output_data s)
     (error_message s) (dependencies s) (retry_count s) (max_retries s).
Definition with_output_data (v : gmap string pyval) (s : t) : t :=
  mk (id s) (name s) (description s) (type s) (status s) v
     (error_message s) (dependencies s) (retry_count s) (max_retries s).
Definition with_error_message (v : option string) (s : t) : t :=
  mk (id s) (name s) (description s) (type s) (status s) (output_data s)
     v (dependencies s) (retry_count s) (max_retries s).
Definition with_retry_count (v : Z) (s : t) : t :=
  mk (id s) (name s) (description s) (type s) (status s) (output_data s)
     (error_message s) (dependencies s) v (max_retries s).
(** [AgentStep(id=.., name=.., description=.., type=.., dependencies=..)]:
    the other fields take their declared defaults. *)
Definition new (i n d ty : string) (deps : list string) : t :=
  mk i n d ty StepStatus.PENDING ∅ None deps 0 3.
End AgentStep.

Module AgentTask.
Record t := mk {
  id : string;
  project_id : string;
  agent_type : AgentType.t;
  title : string;
  description : string;
  status : AgentStatus.t;
  progress : Q;
  steps : list AgentStep.t;
  result : gmap string pyval;
  error_message : option string
}.
Definition with_status (v : AgentStatus.t) (k : t) : t :=
  mk (id k) (project_id k) (agent_type k) (title k) (description k) v
     (progress k) (steps k) (result k) (error_message k).
Definition with_progress (v : Q) (k : t) : t :=
  mk (id k) (project_id k) (agent_type k) (title k) (description k)
     (status k) v (steps k) (result k) (error_message k).
Definition with_steps (v : list AgentStep.t) (k : t) : t :=
  mk (id k) (project_id k) (agent_type k) (title k) (description k)
     (status k) (progress k) v (result k) (error_message k).
Definition with_result (v : gmap string pyval) (k : t) : t :=
  mk (id k) (project_id k) (agent_type k) (title k) (description k)
     (status k) (progress k) (steps k) v (error_message k).
Definition with_error_message (v : option string) (k : t) : t :=
  mk (id k) (project_id k) (agent_type k) (title k) (description k)
     (status k) (progress k) (steps k) (result k) v.
End AgentTask.

Arguments AgentStep.with_status _ _ /.
Arguments AgentStep.with_output_data _ _ /.
Arguments AgentStep.with_error_message _ _ /.
Arguments AgentStep.with_retry_count _ _ /.
Arguments AgentTask.with_status _ _ /.
Arguments AgentTask.with_progress _ _ /.
Arguments AgentTask.with_steps _ _ /.
Arguments AgentTask.with_result _ _ /.
Arguments AgentTask.with_error_message _ _ /.

Record CreateAgentTaskRequest := {
  req_project_id : string;
  req_agent_type : AgentType.t;
  req_title : string;
  req_description : string
}.

Record AgentResponse := {
  resp_task : AgentTask.t;
  resp_message : string
}.

(* ================================================================== *)
(** ** The process and the agent instance                              *)
(* ================================================================== *)

(** A WebSocket is known by a number. *)
Definition WebSocket := nat.

(** The contents of Redis: key to (time to live, serialized task). *)
Abbreviation Redis := (gmap string (Z * AgentTask.t)).

(** The globals of the service ([redis_client], [active_connections],
    the logger) and a record of what has happened so far. *)
Record Process := {
  redis_client : option Redis;        (* [None]: the global is not set *)
  redis_ops : nat;                    (* commands issued by the engine *)
  writes : list AgentTask.t;          (* snapshots stored, oldest first *)
  active_connections : gmap string WebSocket;
  ws_ops : nat;                       (* deliveries attempted *)
  sent : list (WebSocket * AgentTask.t);  (* updates delivered *)
  log : list string;                  (* logger lines *)
  calls : list string;                (* [execute_step_logic] calls, by step id *)
  slept : list Q                      (* [asyncio.sleep] arguments *)
}.

Definition with_redis (v : option Redis) (ops : nat) (p : Process) : Process :=
  {| redis_client := v; redis_ops := ops; writes := writes p;
     active_connections := active_connections p; ws_ops := ws_ops p;
     sent := sent p; log := log p; calls := calls p; slept := slept p |}.
Definition with_writes (v : list AgentTask.t) (p : Process) : Process :=
  {| redis_client := redis_client p; redis_ops := redis_ops p; writes := v;
     active_connections := active_connections p; ws_ops := ws_ops p;
     sent := sent p; log := log p; calls := calls p; slept := slept p |}.
Definition with_ws (ops : nat) (v : list (WebSocket * AgentTask.t))
    (p : Process) : Process :=
  {| redis_client := redis_client p; redis_ops := redis_ops p;
     writes := writes p; active_connections := active_connections p;
     ws_ops := ops; sent := v; log := log p; calls := calls p;
     slept := slept p |}.
Definition with_connections (v : gmap string WebSocket) (p : Process) : Process :=
  {| redis_client := redis_client p; redis_ops := redis_ops p;
     writes := writes p; active_connections := v; ws_ops := ws_ops p;
     sent := sent p; log := log p; calls := calls p; slept := slept p |}.
Definition with_log (v : list string) (p : Process) : Process :=
  {| redis_client := redis_client p; redis_ops := redis_ops p;
     writes := writes p; active_connections := active_connections p;
     ws_ops := ws_ops p; sent := sent p; log := v; calls := calls p;
     slept := slept p |}.
Definition with_calls (v : list string) (p : Process) : Process :=
  {| redis_client := redis_client p; redis_ops := redis_ops p;
     writes := writes p; active_connections := active_connections p;
     ws_ops := ws_ops p; sent := sent p; log := log p; calls := v;
     slept := slept p |}.
Definition with_slept (v : list Q) (p : Process) : Process :=
  {| redis_client := redis_client p; redis_ops := redis_ops p;
     writes := writes p; active_connections := active_connections p;
     ws_ops := ws_ops p; sent := sent p; log := log p; calls := calls p;
     slept := v |}.

Arguments with_redis _ _ _ /.
Arguments with_writes _ _ /.
Arguments with_ws _ _ _ /.
Arguments with_connections _ _ /.
Arguments with_log _ _ /.
Arguments with_calls _ _ /.
Arguments with_slept _ _ /.

(** A [BaseAgent] instance ([self.task], [self.current_step_index]) in
    its process. *)
Record Agent := {
  task : AgentTask.t;
  current_step_index : nat;
  proc : Process
}.

(** [BaseAgent.__init__] *)
Definition BaseAgent_init (k : AgentTask.t) (p : Process) : Agent :=
  {| task := k; current_step_index := 0; proc := p |}.

(** What the world outside the engine does. *)
Record Env := {
  (** the [n]-th Redis command of the engine raises this, if anything *)
  redis_fault : nat -> option string;
  (** what other requests did to Redis since the engine's previous command *)
  others : nat -> Redis -> Redis;
  (** the [n]-th delivery (serialization and [send_text]) raises this;
      as the source stands the serialization raises at every delivery,
      see [hub_as_written] *)
  ws_fault : nat -> option string;
  (** [get_project_files] as the planner calls it *)
  project_files : string + list (gmap string pyval);
  (** [call_ai_service] as the planner calls it *)
  plan_response : string + string;
  (** [json.loads] of the plan and the construction of the [AgentStep]s:
      the (name, description, type, dependencies) of each step, or the
      exception raised on the way *)
  parse_plan : string -> string + list (string * string * string * list string);
  (** the handler of a step type, at the [n]-th [execute_step_logic] call:
      the [output_data] it assigns to the step, or the exception it raises *)
  step_handler : string -> nat -> string + gmap string pyval
}.

(* ================================================================== *)
(** ** Coroutines: state and exceptions                                *)
(* ================================================================== *)

Inductive outcome (A : Type) :=
  | Ok (a : A)
  | Raise (e : string).
Arguments Ok {A} a.
Arguments Raise {A} e.

Definition M (A : Type) : Type := Agent -> outcome A * Agent.

#[global] Instance M_ret : MRet M := fun A a s => (Ok a, s).
#[global] Instance M_bind : MBind M := fun A B k m s =>
  match m s with
  | (Ok a, s') => k a s'
  | (Raise e, s') => (Raise e, s')
  end.

Definition raise {A} (e : string) : M A := fun s => (Raise e, s).

(** [try: m  except Exception as e: h e] *)
Definition try_except {A} (m : M A) (h : string -> M A) : M A := fun s =>
  match m s with
  | (Ok a, s') => (Ok a, s')
  | (Raise e, s') => h e s'
  end.

Definition gets {A} (f : Agent -> A) : M A := fun s => (Ok (f s), s).

Definition modify_task (f : AgentTask.t -> AgentTask.t) : M unit := fun s =>
  (Ok tt, {| task := f (task s); current_step_index := current_step_index s;
             proc := proc s |}).

Definition modify_proc (f : Process -> Process) : M unit := fun s =>
  (Ok tt, {| task := task s; current_step_index := current_step_index s;
             proc := f (proc s) |}).

Definition set_current_step_index (i : nat) : M unit := fun s =>
  (Ok tt, {| task := task s; current_step_index := i; proc := proc s |}).

(** The step objects are shared with [self.task.steps]: a write to
    [step] is a write to the list element. *)
Definition modify_step (i : nat) (f : AgentStep.t -> AgentStep.t) : M unit :=
  modify_task (fun k => AgentTask.with_steps (alter f i (AgentTask.steps k)) k).

Definition dummy_step : AgentStep.t := AgentStep.new "" "" "" "" [].

Definition step_at (i : nat) (s : Agent) : AgentStep.t :=
  default dummy_step (AgentTask.steps (task s) !! i).

Definition logger (line : string) : M unit :=
  modify_proc (fun p => with_log (log p ++ [line]) p).

Definition sleep (d : Q) : M unit :=
  modify_proc (fun p => with_slept (slept p ++ [d]) p).

(** [2 ** n] on an int [n], the seconds that [execute_step] waits: the
    int [2^n] when [n] is not negative, and otherwise the float that
    Python computes, [0.5] at [-1], which is that power of two (the range
    of a double set aside). *)
Definition pow2 (n : Z) : Q := (2 ^ n)%Q.

(* ================================================================== *)
(** ** BaseAgent                                                       *)
(* ================================================================== *)

(** [redis_client.setex(key, ttl, value)] as the engine issues it: other
    requests have run since the previous command; the command raises or
    stores the value. *)
Definition redis_setex (env : Env) (db : Redis) (key : string) (ttl : Z)
    (value : AgentTask.t) : M unit := fun s =>
  let n := redis_ops (proc s) in
  let db' := others env n db in
  match redis_fault env n with
  | Some e =>
      (Raise e, {| task := task s; current_step_index := current_step_index s;
                   proc := with_redis (Some db') (S n) (proc s) |})
  | None =>
      (Ok tt, {| task := task s; current_step_index := current_step_index s;
                 proc := with_writes (writes (proc s) ++ [value])
                           (with_redis (Some (<[key := (ttl, value)]> db'))
                                       (S n) (proc s)) |})
  end.

Definition task_key (id : string) : string := "agent_task:" +:+ id.

(** [BaseAgent.save_task] *)
Definition save_task (env : Env) : M unit := fun s =>
  match redis_client (proc s) with
  | Some db =>
      redis_setex env db (task_key (AgentTask.id (task s))) 3600 (task s) s
  | None => (Ok tt, s)
  end.

(** [websocket.send_text(json.dumps({"type": "agent_update", "task": ..}))]:
    the envelope is built and sent inside the same [try]. *)
Definition send_text (env : Env) (ws : WebSocket) (payload : AgentTask.t)
    : M unit := fun s =>
  let n := ws_ops (proc s) in
  match ws_fault env n with
  | Some e =>
      (Raise e, {| task := task s; current_step_index := current_step_index s;
                   proc := with_ws (S n) (sent (proc s)) (proc s) |})
  | None =>
      (Ok tt, {| task := task s; current_step_index := current_step_index s;
                 proc := with_ws (S n) (sent (proc s) ++ [(ws, payload)])
                           (proc s) |})
  end.

(** [BaseAgent.broadcast_update] *)
Definition broadcast_update (env : Env) : M unit := fun s =>
  match active_connections (proc s) !! AgentTask.project_id (task s) with
  | Some ws =>
      try_except (send_text env ws (task s))
        (fun e => logger ("Failed to broadcast update: " +:+ e)) s
  | None => (Ok tt, s)
  end.

(** The methods a subclass of [BaseAgent] overrides. *)
Record AgentClass := {
  generate_plan : Env -> M unit;
  execute_step_logic : Env -> nat -> M unit;
  finalize_task : M unit
}.

(** [BaseAgent] itself: [raise NotImplementedError] twice, and [pass]. *)
Definition BaseAgent : AgentClass := {|
  generate_plan := fun _ => raise "";
  execute_step_logic := fun _ _ => raise "";
  finalize_task := mret tt
|}.

(** [BaseAgent.execute_step], on the step at index [i] of the task.  The
    recursion of the source is on the retry branch only; [fuel] counts the
    calls still allowed, and [execute_step] below passes enough
    ([execute_step_rec_fuel]). *)
Fixpoint execute_step_rec (cls : AgentClass) (env : Env) (fuel : nat)
    (i : nat) : M unit :=
  match fuel with
  | O => raise "RecursionError"
  | S fuel' =>
      try_except
        (modify_step i (AgentStep.with_status StepStatus.RUNNING);;
         save_task env;;
         broadcast_update env;;
         execute_step_logic cls env i;;
         modify_step i (AgentStep.with_status StepStatus.COMPLETED);;
         save_task env;;
         broadcast_update env)
        (fun e =>
           logger ("Step execution failed: " +:+ e);;
           modify_step i (AgentStep.with_status StepStatus.FAILED);;
           modify_step i (AgentStep.with_error_message (Some e));;
           step ← gets (step_at i);
           if (AgentStep.retry_count step <? AgentStep.max_retries step)%Z
           then
             modify_step i (AgentStep.with_retry_count
                              (AgentStep.retry_count step + 1));;
             modify_step i (AgentStep.with_status StepStatus.PENDING);;
             modify_step i (AgentStep.with_error_message None);;
             logger ("Retrying step " +:+ AgentStep.id step +:+ " (attempt "
                     +:+ pretty (AgentStep.retry_count step + 1)%Z +:+ ")");;
             sleep (pow2 (AgentStep.retry_count step + 1));;
             execute_step_rec cls env fuel' i
           else
             modify_task (AgentTask.with_status AgentStatus.FAILED);;
             modify_task (AgentTask.with_error_message
                            (Some ("Step " +:+ AgentStep.name step
                                   +:+ " failed: " +:+ e)));;
             save_task env;;
             broadcast_update env;;
             raise e)
  end.

(** The retries the step at [i] still has. *)
Definition retries_left (i : nat) (s : Agent) : nat :=
  Z.to_nat (AgentStep.max_retries (step_at i s)
            - AgentStep.retry_count (step_at i s)).

Definition execute_step (cls : AgentClass) (env : Env) (i : nat) : M unit :=
  fun s => execute_step_rec cls env (S (retries_left i s)) i s.

(** [((i + 1) / len(self.task.steps)) * 100] *)
Definition progress_after (i len : nat) : Q :=
  (inject_Z (Z.of_nat (i + 1)) / inject_Z (Z.of_nat len) * 100)%Q.

(** The [for i, step in enumerate(self.task.steps)] loop of [execute],
    over the indices still to visit; [break] ends it. *)
Fixpoint execute_loop (cls : AgentClass) (env : Env) (indices : list nat)
    : M unit :=
  match indices with
  | [] => mret tt
  | i :: rest =>
      set_current_step_index i;;
      execute_step cls env i;;
      len ← gets (fun s => length (AgentTask.steps (task s)));
      modify_task (AgentTask.with_progress (progress_after i len));;
      save_task env;;
      st ← gets (fun s => AgentTask.status (task s));
      if decide (st = AgentStatus.CANCELLED) then mret tt
      else execute_loop cls env rest
  end.

(** [BaseAgent.execute].  The task it returns is [task] of the final
    state. *)
Definition execute (cls : AgentClass) (env : Env) : M unit :=
  try_except
    (modify_task (AgentTask.with_status AgentStatus.RUNNING);;
     save_task env;;
     generate_plan cls env;;
     len ← gets (fun s => length (AgentTask.steps (task s)));
     execute_loop cls env (seq 0 len);;
     st ← gets (fun s => AgentTask.status (task s));
     (if decide (st = AgentStatus.RUNNING) then
        modify_task (AgentTask.with_status AgentStatus.COMPLETED);;
        finalize_task cls
      else mret tt);;
     save_task env)
    (fun e =>
       logger ("Agent execution failed: " +:+ e);;
       modify_task (AgentTask.with_status AgentStatus.FAILED);;
       modify_task (AgentTask.with_error_message (Some e));;
       save_task env;;
       raise e).

(* ================================================================== *)
(** ** FeatureImplementerAgent                                         *)
(* ================================================================== *)

(** [BaseAgent.get_project_files], as [generate_plan] calls it. *)
Definition get_project_files (env : Env) : M (list (gmap string pyval)) :=
  match project_files env with
  | inr files => mret files
  | inl e => logger ("Failed to get project files: " +:+ e);; raise e
  end.

(** [BaseAgent.call_ai_service], as [generate_plan] calls it. *)
Definition call_ai_service (env : Env) : M string :=
  match plan_response env with
  | inr content => mret content
  | inl e => logger ("AI service call failed: " +:+ e);; raise e
  end.

(** [[f["path"] for f in project_files]]: a file without the key raises
    [KeyError('path')]. *)
Definition file_paths (files : list (gmap string pyval)) : M (list pyval) :=
  match mapM (fun f : gmap string pyval => f !! "path") files with
  | Some paths => mret paths
  | None => raise "'path'"
  end.

(** The steps built from a parsed plan: [id=f"step_{i}"] and the
    defaults of [AgentStep]. *)
Definition plan_steps (plan : list (string * string * string * list string))
    : list AgentStep.t :=
  imap (fun i '(n, d, ty, deps) =>
          AgentStep.new ("step_" +:+ pretty i) n d ty deps) plan.

(** The fallback of [generate_plan]. *)
Definition default_plan : list AgentStep.t :=
  [ AgentStep.new "step_0" "Analyze Requirements"
      "Analyze feature requirements and existing codebase" "analysis" [];
    AgentStep.new "step_1" "Design Implementation"
      "Design the implementation approach" "design" [];
    AgentStep.new "step_2" "Implement Feature"
      "Implement the feature code" "implementation" [];
    AgentStep.new "step_3" "Generate Tests"
      "Generate unit tests for the feature" "testing" [];
    AgentStep.new "step_4" "Update Documentation"
      "Update relevant documentation" "documentation" [] ].

(** [FeatureImplementerAgent.generate_plan] *)
Definition FeatureImplementerAgent_generate_plan (env : Env) : M unit :=
  files ← get_project_files env;
  _ ← file_paths files;
  plan_response ← call_ai_service env;
  try_except
    (match parse_plan env plan_response with
     | inr plan => modify_task (AgentTask.with_steps (plan_steps plan))
     | inl e => raise e
     end)
    (fun e =>
       logger ("Failed to parse plan: " +:+ e);;
       modify_task (AgentTask.with_steps default_plan)).

(** The body of a step handler ([analyze_requirements] and the like): it
    calls the project and AI services and either raises or assigns
    [step.output_data]. *)
Definition run_handler (env : Env) (kind : string) (n : nat) (i : nat)
    : M unit :=
  match step_handler env kind n with
  | inr out => modify_step i (AgentStep.with_output_data out)
  | inl e => raise e
  end.

Definition analyze_requirements (env : Env) := run_handler env "analysis".
Definition design_implementation (env : Env) := run_handler env "design".
Definition implement_feature (env : Env) := run_handler env "implementation".
Definition generate_tests (env : Env) := run_handler env "testing".
Definition update_documentation (env : Env) := run_handler env "documentation".

(** [FeatureImplementerAgent.execute_step_logic] *)
Definition FeatureImplementerAgent_execute_step_logic (env : Env) (i : nat)
    : M unit :=
  step ← gets (step_at i);
  n ← gets (fun s => length (calls (proc s)));
  modify_proc (fun p => with_calls (calls p ++ [AgentStep.id step]) p);;
  if String.eqb (AgentStep.type step) "analysis" then
    analyze_requirements env n i
  else if String.eqb (AgentStep.type step) "design" then
    design_implementation env n i
  else if String.eqb (AgentStep.type step) "implementation" then
    implement_feature env n i
  else if String.eqb (AgentStep.type step) "testing" then
    generate_tests env n i
  else if String.eqb (AgentStep.type step) "documentation" then
    update_documentation env n i
  else
    logger ("Unknown step type: " +:+ AgentStep.type step).

(** [0 + v]: what [sum] does with one more value. *)
Definition py_add (acc : Z) (v : pyval) : string + Z :=
  match v with
  | PyInt z => inr (acc + z)%Z
  | PyBool b => inr (acc + (if b then 1 else 0))%Z
  | PyNone => inl "unsupported operand type(s) for +: 'int' and 'NoneType'"
  | PyStr _ => inl "unsupported operand type(s) for +: 'int' and 'str'"
  | PyList _ => inl "unsupported operand type(s) for +: 'int' and 'list'"
  | PyDict _ => inl "unsupported operand type(s) for +: 'int' and 'dict'"
  end.

Fixpoint py_sum_from (acc : Z) (vs : list pyval) : string + Z :=
  match vs with
  | [] => inr acc
  | v :: vs' =>
      match py_add acc v with
      | inr acc' => py_sum_from acc' vs'
      | inl e => inl e
      end
  end.

(** [sum(step.output_data.get(key, 0) for step in self.task.steps)] *)
Definition sum_outputs (key : string) (steps : list AgentStep.t) : M Z :=
  match py_sum_from 0
          (map (fun st => default (PyInt 0) (AgentStep.output_data st !! key))
               steps) with
  | inr z => mret z
  | inl e => raise e
  end.

(** [FeatureImplementerAgent.finalize_task] *)
Definition FeatureImplementerAgent_finalize_task : M unit :=
  steps ← gets (fun s => AgentTask.steps (task s));
  files_created ← sum_outputs "files_created" steps;
  files_modified ← sum_outputs "files_modified" steps;
  test_files_created ← sum_outputs "test_files_created" steps;
  doc_files_updated ← sum_outputs "doc_files_updated" steps;
  description ← gets (fun s => AgentTask.description (task s));
  modify_task (AgentTask.with_result
    (<["feature_implemented" := PyBool true]>
     (<["files_created" := PyInt files_created]>
     (<["files_modified" := PyInt files_modified]>
     (<["test_files_created" := PyInt test_files_created]>
     (<["doc_files_updated" := PyInt doc_files_updated]>
     (<["summary" := PyStr ("Successfully implemented feature: "
                            +:+ description)]>
     (<["next_steps" := PyList [PyStr "Review generated code";
                                PyStr "Run tests to verify functionality";
                                PyStr "Test the feature manually";
                                PyStr "Deploy to staging environment"]]>
      ∅)))))))).

Definition FeatureImplementerAgent : AgentClass := {|
  generate_plan := FeatureImplementerAgent_generate_plan;
  execute_step_logic := FeatureImplementerAgent_execute_step_logic;
  finalize_task := FeatureImplementerAgent_finalize_task
|}.

(* ================================================================== *)
(** ** Factory and endpoints                                           *)
(* ================================================================== *)

(** [create_agent]: the class of the agent, or the [ValueError]. *)
Definition create_agent (k : AgentTask.t) : string + AgentClass :=
  if decide (AgentTask.agent_type k = AgentType.FEATURE_IMPLEMENTER)
  then inr FeatureImplementerAgent
  else inl ("Unknown agent type: "
            +:+ AgentType.format (AgentTask.agent_type k)).

(** The answer of an endpoint: the body, or the [HTTPException]. *)
Inductive http (A : Type) :=
  | Response (body : A)
  | HTTPException (status_code : Z) (detail : string).
Arguments Response {A} body.
Arguments HTTPException {A} status_code detail.

(** A request handler runs against the store on its own. *)
Definition store (key : string) (value : AgentTask.t) (p : Process) : Process :=
  match redis_client p with
  | Some db =>
      with_writes (writes p ++ [value])
        (with_redis (Some (<[key := (3600%Z, value)]> db)) (redis_ops p) p)
  | None => p
  end.

(** [create_agent_task], up to the scheduling of the background task;
    [uuid] is [str(uuid.uuid4())]. *)
Definition create_agent_task (uuid : string) (request : CreateAgentTaskRequest)
    (p : Process) : AgentResponse * Process :=
  let k := AgentTask.mk uuid (req_project_id request) (req_agent_type request)
             (req_title request) (req_description request)
             AgentStatus.PENDING 0%Q [] ∅ None in
  ({| resp_task := k;
      resp_message := "Agent task created and started successfully" |},
   store (task_key uuid) k p).

(** [get_agent_task] *)
Definition get_agent_task (task_id : string) (p : Process)
    : http AgentTask.t :=
  match redis_client p with
  | None => HTTPException 500 "Redis not available"
  | Some db =>
      match db !! task_key task_id with
      | None => HTTPException 404 "Task not found"
      | Some (_, k) => Response k
      end
  end.

Definition terminal (st : AgentStatus.t) : bool :=
  bool_decide (st ∈ [AgentStatus.COMPLETED; AgentStatus.FAILED;
                     AgentStatus.CANCELLED]).

(** [cancel_agent_task] *)
Definition cancel_agent_task (task_id : string) (p : Process)
    : http (string * AgentTask.t) * Process :=
  match redis_client p with
  | None => (HTTPException 500 "Redis not available", p)
  | Some db =>
      match db !! task_key task_id with
      | None => (HTTPException 404 "Task not found", p)
      | Some (_, k) =>
          if terminal (AgentTask.status k)
          then (HTTPException 400 "Task cannot be cancelled", p)
          else
            let k' := AgentTask.with_status AgentStatus.CANCELLED k in
            (Response ("Task cancelled successfully", k'),
             store (task_key task_id) k' p)
      end
  end.

(** [execute_agent_task]: the background task. *)
Definition execute_agent_task (env : Env) (k : AgentTask.t) (p : Process)
    : Agent :=
  match create_agent k with
  | inr cls =>
      match execute cls env (BaseAgent_init k p) with
      | (Ok _, s) => s
      | (Raise e, s) =>
          snd (logger ("Agent task execution failed: " +:+ e) s)
      end
  | inl e =>
      snd (logger ("Agent task execution failed: " +:+ e) (BaseAgent_init k p))
  end.

(** A submission: the request handler answers, then the background task
    runs. *)
Definition submit (env : Env) (uuid : string)
    (request : CreateAgentTaskRequest) (p : Process) : AgentResponse * Agent :=
  let '(response, p') := create_agent_task uuid request p in
  (response, execute_agent_task env (resp_task response) p').

(* ================================================================== *)
(** ** Vocabulary of the statements                                    *)
(* ================================================================== *)

(** [Q] holds of what [m] returns and leaves behind when started in [s]. *)
Definition wp {A} (m : M A) (Q : outcome A -> Agent -> Prop) (s : Agent)
    : Prop :=
  Q (fst (m s)) (snd (m s)).

(** Whatever [m] does, it moves the state along [R]. *)
Definition preserves (R : Agent -> Agent -> Prop) {A} (m : M A) : Prop :=
  forall s, R s (snd (m s)).

(** Two coroutines started in related states return the same outcome and
    end in related states. *)
Definition related (R : Agent -> Agent -> Prop) {A} (m1 m2 : M A) : Prop :=
  forall s1 s2, R s1 s2 ->
    fst (m1 s1) = fst (m2 s2) /\ R (snd (m1 s1)) (snd (m2 s2)).

(** No Redis command of the engine raises. *)
Definition store_ok (env : Env) : Prop :=
  forall n, redis_fault env n = None.

(** The type tags [execute_step_logic] has a branch for. *)
Definition known_step_types : list string :=
  ["analysis"; "design"; "implementation"; "testing"; "documentation"].

Definition completed (st : AgentStep.t) : Prop :=
  AgentStep.status st = StepStatus.COMPLETED.

(** The statuses the engine itself assigns. *)
Definition engine_status (st : AgentStatus.t) : Prop :=
  st = AgentStatus.RUNNING \/ st = AgentStatus.COMPLETED
  \/ st = AgentStatus.FAILED.

(** What a query of the task shows: status, error message and the number
    of entries of the result. *)
Definition shown (r : http AgentTask.t)
    : option (AgentStatus.t * option string * nat) :=
  match r with
  | Response k =>
      Some (AgentTask.status k, AgentTask.error_message k,
            size (AgentTask.result k))
  | HTTPException _ _ => None
  end.

(** The effect on Redis of a cancel request that another coroutine
    serves. *)
Definition cancel_in_store (task_id : string) (db : Redis) : Redis :=
  let p := {| redis_client := Some db; redis_ops := 0; writes := [];
              active_connections := ∅; ws_ops := 0; sent := []; log := [];
              calls := []; slept := [] |} in
  default db (redis_client (snd (cancel_agent_task task_id p))).

(* ------------------------------------------------------------------ *)
(** *** Frames and invariants                                          *)

(** [(k / len) * 100]: the progress once [k] steps are done. *)
Definition progress_upto (k len : nat) : Q :=
  (inject_Z (Z.of_nat k) / inject_Z (Z.of_nat len) * 100)%Q.

Definition in_range (q : Q) : Prop := (0 <= q)%Q /\ (q <= 100)%Q.

Definition nondecreasing (qs : list Q) : Prop :=
  forall i j x y, i <= j -> qs !! i = Some x -> qs !! j = Some y -> (x <= y)%Q.

(** The fields of a task nothing in the engine assigns. *)
Definition same_identity (t t' : AgentTask.t) : Prop :=
  AgentTask.id t' = AgentTask.id t
  /\ AgentTask.project_id t' = AgentTask.project_id t
  /\ AgentTask.agent_type t' = AgentTask.agent_type t
  /\ AgentTask.title t' = AgentTask.title t
  /\ AgentTask.description t' = AgentTask.description t.

(** What running step [i] may do to a task: write to step [i], and mark
    the task FAILED. *)
Definition step_frame (i : nat) (t t' : AgentTask.t) : Prop :=
  same_identity t t'
  /\ AgentTask.progress t' = AgentTask.progress t
  /\ AgentTask.result t' = AgentTask.result t
  /\ length (AgentTask.steps t') = length (AgentTask.steps t)
  /\ (forall j, j <> i -> AgentTask.steps t' !! j = AgentTask.steps t !! j)
  /\ (AgentTask.status t' = AgentTask.status t
      \/ AgentTask.status t' = AgentStatus.FAILED).

(** What the engine may do to a task outside the steps: assign its
    status, error message and result. *)
Definition bookkeeping (t t' : AgentTask.t) : Prop :=
  same_identity t t'
  /\ AgentTask.progress t' = AgentTask.progress t
  /\ AgentTask.steps t' = AgentTask.steps t
  /\ (AgentTask.status t' = AgentTask.status t
      \/ engine_status (AgentTask.status t')).

(** A change of the task within [F], with snapshots stored on the way
    that are within [F] as well. *)
Definition with_snapshots (F : AgentTask.t -> AgentTask.t -> Prop)
    (s s' : Agent) : Prop :=
  F (task s) (task s')
  /\ (is_Some (redis_client (proc s')) <-> is_Some (redis_client (proc s)))
  /\ exists new, writes (proc s') = writes (proc s) ++ new
       /\ Forall (F (task s)) new.

Definition during_step (i : nat) : Agent -> Agent -> Prop :=
  with_snapshots (step_frame i).

Definition outside_steps : Agent -> Agent -> Prop :=
  with_snapshots bookkeeping.

(** The task is the same object with the same contents. *)
Definition same_task (s s' : Agent) : Prop := task s' = task s.

(** The status and error message of the task are the same. *)
Definition quiet (s s' : Agent) : Prop :=
  AgentTask.status (task s') = AgentTask.status (task s)
  /\ AgentTask.error_message (task s') = AgentTask.error_message (task s).

(** The id and the result of the task are the same, and a Redis client
    that was set still is. *)
Definition carried (s s' : Agent) : Prop :=
  AgentTask.id (task s') = AgentTask.id (task s)
  /\ AgentTask.result (task s') = AgentTask.result (task s)
  /\ (is_Some (redis_client (proc s)) -> is_Some (redis_client (proc s'))).

(** A query of the task of the agent returns the task as the agent has
    it. *)
Definition stored (s : Agent) : Prop :=
  get_agent_task (AgentTask.id (task s)) (proc s) = Response (task s).

(** A coroutine that always ends in an exception. *)
Definition fails {A} (m : M A) : Prop :=
  forall s, exists e, fst (m s) = Raise e.

(** What leaves the task alone and stores no snapshot. *)
Definition task_kept (s s' : Agent) : Prop :=
  task s' = task s
  /\ redis_client (proc s') = redis_client (proc s)
  /\ writes (proc s') = writes (proc s).

(** What planning may do: assign the steps. *)
Definition plan_frame (s s' : Agent) : Prop :=
  same_identity (task s) (task s')
  /\ AgentTask.status (task s') = AgentTask.status (task s)
  /\ AgentTask.progress (task s') = AgentTask.progress (task s)
  /\ AgentTask.result (task s') = AgentTask.result (task s)
  /\ AgentTask.error_message (task s') = AgentTask.error_message (task s)
  /\ redis_client (proc s') = redis_client (proc s)
  /\ writes (proc s') = writes (proc s).

(** What finalization may do: assign the result. *)
Definition finalize_frame (s s' : Agent) : Prop :=
  same_identity (task s) (task s')
  /\ AgentTask.status (task s') = AgentTask.status (task s)
  /\ AgentTask.progress (task s') = AgentTask.progress (task s)
  /\ AgentTask.steps (task s') = AgentTask.steps (task s)
  /\ AgentTask.error_message (task s') = AgentTask.error_message (task s)
  /\ redis_client (proc s') = redis_client (proc s)
  /\ writes (proc s') = writes (proc s).

(** An agent class whose methods stay within these frames. *)
Record well_behaved (cls : AgentClass) (env : Env) : Prop := {
  plan_in_frame : preserves plan_frame (generate_plan cls env);
  logic_in_frame :
    forall i, preserves (during_step i) (execute_step_logic cls env i);
  logic_keeps_status :
    forall i, preserves quiet (execute_step_logic cls env i);
  finalize_in_frame : preserves finalize_frame (finalize_task cls)
}.

(** Full progress only with every step completed. *)
Definition full_progress_ok (w : AgentTask.t) : Prop :=
  (AgentTask.progress w == 100)%Q ->
  AgentTask.steps w <> [] /\ Forall completed (AgentTask.steps w).

(** A snapshot the engine may store while the task is at progress [p]. *)
Definition snapshot_ok (p : Q) (w : AgentTask.t) : Prop :=
  full_progress_ok w
  /\ engine_status (AgentTask.status w)
  /\ (0 <= AgentTask.progress w)%Q
  /\ (AgentTask.progress w <= p)%Q.

(** The snapshots stored since [base] was the record of writes. *)
Definition trace_inv (base : list AgentTask.t) (s : Agent) : Prop :=
  exists new, writes (proc s) = base ++ new
    /\ Forall (snapshot_ok (AgentTask.progress (task s))) new
    /\ nondecreasing (AgentTask.progress <$> new).

(** The invariant of [execute] ... *)
Definition engine_inv (base : list AgentTask.t) (s : Agent) : Prop :=
  in_range (AgentTask.progress (task s))
  /\ full_progress_ok (task s)
  /\ engine_status (AgentTask.status (task s))
  /\ trace_inv base s.

(** ... and of its loop, before the step at index [k] of [n]. *)
Definition loop_inv (base : list AgentTask.t) (n k : nat) (s : Agent) : Prop :=
  engine_inv base s
  /\ length (AgentTask.steps (task s)) = n
  /\ k <= n
  /\ (forall j, j < k -> exists st,
        AgentTask.steps (task s) !! j = Some st /\ completed st)
  /\ (AgentTask.progress (task s) <= progress_upto k n)%Q.

(** Two agents that differ at most in the notification hub: in the
    registered connections, the deliveries counted and made, and the
    log. *)
Definition hub_blind (s1 s2 : Agent) : Prop :=
  task s1 = task s2
  /\ current_step_index s1 = current_step_index s2
  /\ redis_client (proc s1) = redis_client (proc s2)
  /\ redis_ops (proc s1) = redis_ops (proc s2)
  /\ writes (proc s1) = writes (proc s2)
  /\ calls (proc s1) = calls (proc s2)
  /\ slept (proc s1) = slept (proc s2).

(** Two agents that differ at most in what Redis holds. *)
Definition store_blind (s1 s2 : Agent) : Prop :=
  task s1 = task s2
  /\ current_step_index s1 = current_step_index s2
  /\ (is_Some (redis_client (proc s1)) <-> is_Some (redis_client (proc s2)))
  /\ redis_ops (proc s1) = redis_ops (proc s2)
  /\ writes (proc s1) = writes (proc s2)
  /\ active_connections (proc s1) = active_connections (proc s2)
  /\ ws_ops (proc s1) = ws_ops (proc s2)
  /\ sent (proc s1) = sent (proc s2)
  /\ log (proc s1) = log (proc s2)
  /\ calls (proc s1) = calls (proc s2)
  /\ slept (proc s1) = slept (proc s2).

(** The same environment with another notification hub, or with other
    concurrent writers. *)
Definition with_ws_fault (f : nat -> option string) (env : Env) : Env :=
  {| redis_fault := redis_fault env; others := others env; ws_fault := f;
     project_files := project_files env; plan_response := plan_response env;
     parse_plan := parse_plan env; step_handler := step_handler env |}.

Definition with_others (o : nat -> Redis -> Redis) (env : Env) : Env :=
  {| redis_fault := redis_fault env; others := o; ws_fault := ws_fault env;
     project_files := project_files env; plan_response := plan_response env;
     parse_plan := parse_plan env; step_handler := step_handler env |}.

Definition with_proc (p : Process) (s : Agent) : Agent :=
  {| task := task s; current_step_index := current_step_index s; proc := p |}.

(** What makes two runs of an agent class stay related: the relation
    sees the task, and every primitive of the engine and every method of
    the class respects it. *)
Record simulation (R : Agent -> Agent -> Prop) (cls : AgentClass)
    (env1 env2 : Env) : Prop := {
  sim_task : forall s1 s2, R s1 s2 -> task s1 = task s2;
  sim_modify_task : forall f, related R (modify_task f) (modify_task f);
  sim_index :
    forall i, related R (set_current_step_index i) (set_current_step_index i);
  sim_logger : forall l, related R (logger l) (logger l);
  sim_sleep : forall d, related R (sleep d) (sleep d);
  sim_save : related R (save_task env1) (save_task env2);
  sim_broadcast : related R (broadcast_update env1) (broadcast_update env2);
  sim_plan : related R (generate_plan cls env1) (generate_plan cls env2);
  sim_logic :
    forall i,
      related R (execute_step_logic cls env1 i) (execute_step_logic cls env2 i);
  sim_finalize : related R (finalize_task cls) (finalize_task cls)
}.

(** The state a step whose handler always raises is left in, once its
    retries are used up. *)
Definition failed_step (st : AgentStep.t) (e : string) : AgentStep.t :=
  AgentStep.mk (AgentStep.id st) (AgentStep.name st)
    (AgentStep.description st) (AgentStep.type st) StepStatus.FAILED
    (AgentStep.output_data st) (Some e) (AgentStep.dependencies st)
    (AgentStep.max_retries st) (AgentStep.max_retries st).

Definition failed_task (i : nat) (st : AgentStep.t) (e : string)
    (t : AgentTask.t) : AgentTask.t :=
  AgentTask.mk (AgentTask.id t) (AgentTask.project_id t)
    (AgentTask.agent_type t) (AgentTask.title t) (AgentTask.description t)
    AgentStatus.FAILED (AgentTask.progress t)
    (<[i := failed_step st e]> (AgentTask.steps t)) (AgentTask.result t)
    (Some ("Step " +:+ AgentStep.name st +:+ " failed: " +:+ e)).

(** The process after [save_task] and after [broadcast_update], as
    functions of the task and the process before. *)
Definition saved (env : Env) (t : AgentTask.t) (p : Process) : Process :=
  proc (snd (save_task env
               {| task := t; current_step_index := 0; proc := p |})).

Definition broadcasted (env : Env) (t : AgentTask.t) (p : Process) : Process :=
  proc (snd (broadcast_update env
               {| task := t; current_step_index := 0; proc := p |})).

(** No step is added or removed, and the retry count and the maximum of
    step [i] are the same. *)
Definition retry_frame (i : nat) (s s' : Agent) : Prop :=
  length (AgentTask.steps (task s')) = length (AgentTask.steps (task s))
  /\ AgentStep.retry_count (step_at i s') = AgentStep.retry_count (step_at i s)
  /\ AgentStep.max_retries (step_at i s') = AgentStep.max_retries (step_at i s).

(* ------------------------------------------------------------------ *)
(** *** Scenarios                                                      *)

Module Scenario.

(** A fresh process with an empty Redis and no subscriber. *)
Definition process : Process :=
  {| redis_client := Some ∅; redis_ops := 0; writes := [];
     active_connections := ∅; ws_ops := 0; sent := []; log := [];
     calls := []; slept := [] |}.

Definition request (a : AgentType.t) : CreateAgentTaskRequest :=
  {| req_project_id := "proj"; req_agent_type := a;
     req_title := "Add login"; req_description := "Add a login page" |}.

Definition two_steps : list (string * string * string * list string) :=
  [("Analyze", "look at the code", "analysis", []);
   ("Design", "choose an approach", "design", ["step_0"])].

(** Everything works: a plan of two steps, handlers that succeed. *)
Definition healthy : Env :=
  {| redis_fault := fun _ => None;
     others := fun _ db => db;
     ws_fault := fun _ => None;
     project_files := inr [ {["path" := PyStr "main.py"]} ];
     plan_response := inr "[..]";
     parse_plan := fun _ => inr two_steps;
     step_handler := fun _ _ => inr {["analysis" := PyStr "fine"]} |}.

(** As [healthy], and a cancel request is served after the engine's
    save that follows step 0 (its command 3) and before the first save
    of step 1 (its command 4). *)
Definition cancelled_between_steps : Env :=
  {| redis_fault := fun _ => None;
     others := fun n db =>
       if (n =? 4)%nat then cancel_in_store "t1" db else db;
     ws_fault := fun _ => None;
     project_files := project_files healthy;
     plan_response := plan_response healthy;
     parse_plan := parse_plan healthy;
     step_handler := step_handler healthy |}.

(** As [healthy], but the AI service times out under the planner. *)
Definition planner_timeout : Env :=
  {| redis_fault := fun _ => None;
     others := fun _ db => db;
     ws_fault := fun _ => None;
     project_files := project_files healthy;
     plan_response := inl "timed out";
     parse_plan := parse_plan healthy;
     step_handler := step_handler healthy |}.

(** As [healthy], but the plan cannot be parsed. *)
Definition malformed_plan : Env :=
  {| redis_fault := fun _ => None;
     others := fun _ db => db;
     ws_fault := fun _ => None;
     project_files := project_files healthy;
     plan_response := inr "Sure! Here is the plan";
     parse_plan := fun _ => inl "Expecting value: line 1 column 1 (char 0)";
     step_handler := step_handler healthy |}.

(** As [healthy], but the first Redis command of the engine raises. *)
Definition redis_down_once : Env :=
  {| redis_fault := fun n => if (n =? 0)%nat then Some "Connection refused"
                             else None;
     others := fun _ db => db;
     ws_fault := fun _ => None;
     project_files := project_files healthy;
     plan_response := plan_response healthy;
     parse_plan := parse_plan healthy;
     step_handler := step_handler healthy |}.

(** As [healthy], but every handler raises. *)
Definition handlers_fail : Env :=
  {| redis_fault := fun _ => None;
     others := fun _ db => db;
     ws_fault := fun _ => None;
     project_files := project_files healthy;
     plan_response := plan_response healthy;
     parse_plan := parse_plan healthy;
     step_handler := fun _ n => inl ("boom " +:+ pretty n) |}.

(** A plan of one step of a type no branch knows. *)
Definition unknown_type : Env :=
  {| redis_fault := fun _ => None;
     others := fun _ db => db;
     ws_fault := fun _ => None;
     project_files := project_files healthy;
     plan_response := plan_response healthy;
     parse_plan := fun _ => inr [("Deploy", "ship it", "deployment", [])];
     step_handler := step_handler healthy |}.

(** The engine of task [t1] up to the point between step 0 and step 1:
    the start of [execute] and the first turn of its loop. *)
Definition until_between_steps (env : Env) : M unit :=
  modify_task (AgentTask.with_status AgentStatus.RUNNING);;
  save_task env;;
  generate_plan FeatureImplementerAgent env;;
  execute_loop FeatureImplementerAgent env [0%nat].

End Scenario.

(** The step [st] after [k] failed attempts that were retried: PENDING
    again, its error message cleared, [k] more retries counted. *)
Definition retried (st : AgentStep.t) (k : nat) : AgentStep.t :=
  match k with
  | O => st
  | S _ =>
      AgentStep.mk (AgentStep.id st) (AgentStep.name st)
        (AgentStep.description st) (AgentStep.type st) StepStatus.PENDING
        (AgentStep.output_data st) None (AgentStep.dependencies st)
        (AgentStep.retry_count st + Z.of_nat k) (AgentStep.max_retries st)
  end.

(** The waits before the [k] retries of a step whose retry count was
    [rc]: [2 ** (rc + 1)], [2 ** (rc + 2)], ... *)
Definition backoff (rc : Z) (k : nat) : list Q :=
  (fun j => pow2 (rc + 1 + Z.of_nat j)) <$> seq 0 k.


(** The exception that the collaborators of the planner raise, if any:
    the project service, a project file without a path, the AI
    service. *)
Definition planner_error (env : Env) : option string :=
  match project_files env with
  | inl e => Some e
  | inr files =>
      match mapM (fun f : gmap string pyval => f !! "path") files with
      | None => Some "'path'"
      | Some _ =>
          match plan_response env with
          | inl e => Some e
          | inr _ => None
          end
      end
  end.

(** A step as [generate_plan] makes it: PENDING, nothing produced, no
    error, no retry counted and three allowed. *)
Definition fresh_step (st : AgentStep.t) : Prop :=
  AgentStep.status st = StepStatus.PENDING
  /\ AgentStep.output_data st = ∅
  /\ AgentStep.error_message st = None
  /\ AgentStep.retry_count st = 0%Z
  /\ AgentStep.max_retries st = 3%Z.

(** The same environment with a store that never fails. *)
Definition with_healthy_store (env : Env) : Env :=
  {| redis_fault := fun _ => None; others := others env;
     ws_fault := ws_fault env; project_files := project_files env;
     plan_response := plan_response env; parse_plan := parse_plan env;
     step_handler := step_handler env |}.

(** Two agents, the first with no Redis client and the second with one,
    that are otherwise alike; the first has stored nothing since
    [base]. *)
Definition store_less (base : list AgentTask.t) (s1 s2 : Agent) : Prop :=
  task s1 = task s2
  /\ current_step_index s1 = current_step_index s2
  /\ redis_client (proc s1) = None
  /\ writes (proc s1) = base
  /\ is_Some (redis_client (proc s2))
  /\ active_connections (proc s1) = active_connections (proc s2)
  /\ ws_ops (proc s1) = ws_ops (proc s2)
  /\ sent (proc s1) = sent (proc s2)
  /\ log (proc s1) = log (proc s2)
  /\ calls (proc s1) = calls (proc s2)
  /\ slept (proc s1) = slept (proc s2).

(** How the receive loop of [websocket_endpoint] ends: with
    [WebSocketDisconnect], or with another exception. *)
Inductive ws_exit :=
  | WebSocketDisconnect
  | OtherException (e : string).

(** [websocket_endpoint], from [accept] to the first [receive_text]: the
    socket is registered for the project, in place of the one that
    was. *)
Definition websocket_endpoint_open (websocket : WebSocket)
    (project_id : string) (p : Process) : Process :=
  with_connections (<[project_id := websocket]> (active_connections p)) p.

(** [websocket_endpoint], when [receive_text] raises: on
    [WebSocketDisconnect] the entry of the project is deleted if there
    is one; another exception leaves the handler as it is. *)
Definition websocket_endpoint_close (project_id : string) (exit : ws_exit)
    (p : Process) : outcome unit * Process :=
  match exit with
  | WebSocketDisconnect =>
      (Ok tt,
       if decide (is_Some (active_connections p !! project_id))
       then with_connections (delete project_id (active_connections p)) p
       else p)
  | OtherException e => (Raise e, p)
  end.

(** Nothing was delivered between [s] and [s']. *)
Definition unsent (s s' : Agent) : Prop :=
  sent (proc s') = sent (proc s).

(** The updates delivered between [s] and [s'] were of tasks that
    satisfy [P]. *)
Definition delivered (P : AgentTask.t -> Prop) (s s' : Agent) : Prop :=
  exists new,
    sent (proc s') = sent (proc s) ++ new
    /\ Forall (fun d => P (snd d)) new.

(** A task at work: RUNNING or FAILED, with [r] for its result. *)
Definition unfinished (r : gmap string pyval) (k : AgentTask.t) : Prop :=
  (AgentTask.status k = AgentStatus.RUNNING
   \/ AgentTask.status k = AgentStatus.FAILED)
  /\ AgentTask.result k = r.

(** From a task at work to a task at work, delivering tasks at work. *)
Definition working (r : gmap string pyval) (s s' : Agent) : Prop :=
  unfinished r (task s) ->
  unfinished r (task s') /\ delivered (unfinished r) s s'.

(** What [json.dumps] raises on the envelope that [broadcast_update]
    builds: [self.task.dict()] holds [created_at], a [datetime], which
    [json.dumps] refuses.  As the source stands, every delivery raises
    this [TypeError] inside the [try], before [send_text] is called. *)
Definition not_serializable : string :=
  "Object of type datetime is not JSON serializable".

(** The environment [env] with the notification hub as it is written. *)
Definition hub_as_written (env : Env) : Env :=
  with_ws_fault (fun _ => Some not_serializable) env.

(* ================================================================== *)
(** ** The step handlers, with the services they call                  *)
(* ================================================================== *)

(** The handlers of [FeatureImplementerAgent] as the source has them:
    what they read from the task, what they ask of the project service
    and of the AI service, and what they assign to [step.output_data].
    [step_handler] above stands for one run of such a handler. *)
Module Handlers.

(** *** Python values

    The texts of the exceptions are those of CPython 3.11 to 3.13. *)

Definition type_name (v : pyval) : string :=
  match v with
  | PyNone => "NoneType"
  | PyBool _ => "bool"
  | PyInt _ => "int"
  | PyStr _ => "str"
  | PyList _ => "list"
  | PyDict _ => "dict"
  end.

(** [bool(v)] *)
Definition truthy (v : pyval) : bool :=
  match v with
  | PyNone => false
  | PyBool b => b
  | PyInt z => negb (z =? 0)%Z
  | PyStr s => negb (String.eqb s "")
  | PyList l => negb (bool_decide (l = []))
  | PyDict d => negb (bool_decide (d = []))
  end.

(** The value under [key] in a dict, which lists each key once. *)
Fixpoint assoc (key : string) (d : list (string * pyval)) : option pyval :=
  match d with
  | [] => None
  | (k, v) :: d' => if String.eqb k key then Some v else assoc key d'
  end.

(** [v.get(key, default)]: an [AttributeError] unless [v] is a dict. *)
Definition py_get (v : pyval) (key : string) (default : pyval)
    : string + pyval :=
  match v with
  | PyDict d => inr (from_option id default (assoc key d))
  | _ => inl ("'" +:+ type_name v +:+ "' object has no attribute 'get'")
  end.

(** [v[key]] for a string literal [key]: a [KeyError] (whose text is the
    quoted key), or the [TypeError] of the type of [v]. *)
Definition py_item (v : pyval) (key : string) : string + pyval :=
  match v with
  | PyDict d =>
      match assoc key d with
      | Some x => inr x
      | None => inl ("'" +:+ key +:+ "'")
      end
  | PyList _ => inl "list indices must be integers or slices, not str"
  | PyStr _ => inl "string indices must be integers, not 'str'"
  | _ => inl ("'" +:+ type_name v +:+ "' object is not subscriptable")
  end.

(** The characters of a string, each a string. *)
Fixpoint chars (s : string) : list pyval :=
  match s with
  | EmptyString => []
  | String c s' => PyStr (String c EmptyString) :: chars s'
  end.

(** What [for x in v] goes through: the items of a list, the keys of a
    dict, the characters of a string; a [TypeError] otherwise. *)
Definition py_iter (v : pyval) : string + list pyval :=
  match v with
  | PyList l => inr l
  | PyDict d => inr ((fun kv => PyStr (fst kv)) <$> d)
  | PyStr s => inr (chars s)
  | _ => inl ("'" +:+ type_name v +:+ "' object is not iterable")
  end.

(** [len(v)] (of a string: for ASCII text) *)
Definition py_len (v : pyval) : string + Z :=
  match v with
  | PyList l => inr (Z.of_nat (length l))
  | PyDict d => inr (Z.of_nat (length d))
  | PyStr s => inr (Z.of_nat (String.length s))
  | _ => inl ("object of type '" +:+ type_name v +:+ "' has no len()")
  end.

(** Whether [v] can be a dict key. *)
Definition hashable (v : pyval) : string + unit :=
  match v with
  | PyList _ => inl "unhashable type: 'list'"
  | PyDict _ => inl "unhashable type: 'dict'"
  | _ => inr tt
  end.

(** Equality of dict keys: [True == 1] and [False == 0]. *)
Definition key_eqb (a b : pyval) : bool :=
  match a, b with
  | PyNone, PyNone => true
  | PyStr x, PyStr y => String.eqb x y
  | PyInt x, PyInt y => (x =? y)%Z
  | PyBool x, PyBool y => Bool.eqb x y
  | PyInt x, PyBool y | PyBool y, PyInt x => (x =? (if y then 1 else 0))%Z
  | _, _ => false
  end.

(** [d[k] = v] on a dict with any hashable keys, in insertion order. *)
Fixpoint dict_set (k v : pyval) (d : list (pyval * pyval))
    : list (pyval * pyval) :=
  match d with
  | [] => [(k, v)]
  | (k', v') :: d' =>
      if key_eqb k' k then (k', v) :: d' else (k', v') :: dict_set k v d'
  end.

(** *** Requests and services *)

(** What a prompt is made of: the values its f-string interpolates. *)
Inductive Prompt :=
  | AnalysisPrompt (description : string) (paths : list pyval)
  | DesignPrompt (analysis : pyval) (description : string)
  | ImplementationPrompt (description : string) (design : pyval)
      (file_contents : list (pyval * pyval))
  | TestPrompt (description : string) (implementation : pyval)
  | DocPrompt (description : string) (implementation : pyval).

(** A request to a collaborating service. *)
Inductive Request :=
  | PostChat (prompt : Prompt) (model : string)   (* POST /ai/chat *)
  | GetProject (project_id : string)              (* GET /projects/{id} *)
  | PostFile (project_id : string) (path content : pyval)  (* POST /files *)
  | PutFile (project_id : string) (path content : pyval).  (* PUT /files *)

(** What the services answer.  The [n]-th request of the agent (counting
    all of them) obtains, through [raise_for_status], [json()] and the
    subscripts of the wrapper, a value, or raises on the way. *)
Record Services := {
  (** [data["content"]] of [call_ai_service] *)
  chat : nat -> string + string;
  (** [data["project"]["files"]] of [get_project_files] *)
  project : nat -> string + list (gmap string pyval);
  (** [response.json()] of [create_file] and [update_file] *)
  files : nat -> string + pyval;
  (** [json.loads] *)
  loads : string -> string + pyval
}.

(** The agent, and the requests it has made. *)
Record World := {
  agent : Agent;
  requests : list Request
}.

(** *** Coroutines over the world *)

Definition W (A : Type) : Type := World -> outcome A * World.

#[global] Instance W_ret : MRet W := fun A a w => (Ok a, w).
#[global] Instance W_bind : MBind W := fun A B k m w =>
  match m w with
  | (Ok a, w') => k a w'
  | (Raise e, w') => (Raise e, w')
  end.

Definition raise {A} (e : string) : W A := fun w => (Raise e, w).

Definition try_except {A} (m : W A) (h : string -> W A) : W A := fun w =>
  match m w with
  | (Ok a, w') => (Ok a, w')
  | (Raise e, w') => h e w'
  end.

(** A coroutine of the agent, run in the world. *)
Definition lift {A} (m : M A) : W A := fun w =>
  let (o, s') := m (agent w) in
  (o, {| agent := s'; requests := requests w |}).

(** A Python expression that evaluates or raises. *)
Definition eval {A} (r : string + A) : W A :=
  match r with
  | inr a => mret a
  | inl e => raise e
  end.

(** A request is attempted; its number is returned. *)
Definition send (r : Request) : W nat := fun w =>
  (Ok (length (requests w)),
   {| agent := agent w; requests := requests w ++ [r] |}).

(** [for x in l: body(x)] *)
Fixpoint for_each {A} (l : list A) (body : A -> W unit) : W unit :=
  match l with
  | [] => mret tt
  | x :: l' => body x;; for_each l' body
  end.

(** *** The wrappers of [BaseAgent] *)

(** [BaseAgent.call_ai_service] *)
Definition call_ai_service (svc : Services) (prompt : Prompt)
    (model : string) : W string :=
  try_except
    (n ← send (PostChat prompt model);
     eval (chat svc n))
    (fun e => lift (logger ("AI service call failed: " +:+ e));; raise e).

(** [BaseAgent.get_project_files] *)
Definition get_project_files (svc : Services) (project_id : string)
    : W (list (gmap string pyval)) :=
  try_except
    (n ← send (GetProject project_id);
     eval (project svc n))
    (fun e => lift (logger ("Failed to get project files: " +:+ e));; raise e).

(** [BaseAgent.create_file] *)
Definition create_file (svc : Services) (project_id : string)
    (file_path content : pyval) : W pyval :=
  try_except
    (n ← send (PostFile project_id file_path content);
     eval (files svc n))
    (fun e => lift (logger ("Failed to create file: " +:+ e));; raise e).

(** [BaseAgent.update_file] *)
Definition update_file (svc : Services) (project_id : string)
    (file_path content : pyval) : W pyval :=
  try_except
    (n ← send (PutFile project_id file_path content);
     eval (files svc n))
    (fun e => lift (logger ("Failed to update file: " +:+ e));; raise e).

(** *** The handlers of [FeatureImplementerAgent] *)

(** [self.task.steps[k]] *)
Definition steps_item (k : nat) : W AgentStep.t :=
  steps ← lift (gets (fun s => AgentTask.steps (task s)));
  match steps !! k with
  | Some st => mret st
  | None => raise "list index out of range"
  end.

(** [step.output_data = out], for the step at index [i] *)
Definition set_output_data (i : nat) (out : gmap string pyval) : W unit :=
  lift (modify_step i (AgentStep.with_output_data out)).

(** [FeatureImplementerAgent.analyze_requirements] *)
Definition analyze_requirements (svc : Services) (i : nat) : W unit :=
  project_id ← lift (gets (fun s => AgentTask.project_id (task s)));
  project_files ← get_project_files svc project_id;
  description ← lift (gets (fun s => AgentTask.description (task s)));
  paths ← lift (file_paths project_files);
  analysis ← call_ai_service svc (AnalysisPrompt description paths) "gpt-4";
  set_output_data i {["analysis" := PyStr analysis]}.

(** [FeatureImplementerAgent.design_implementation] *)
Definition design_implementation (svc : Services) (i : nat) : W unit :=
  step0 ← steps_item 0;
  let analysis :=
    default (PyStr "") (AgentStep.output_data step0 !! "analysis") in
  description ← lift (gets (fun s => AgentTask.description (task s)));
  design ← call_ai_service svc (DesignPrompt analysis description) "gpt-4";
  set_output_data i {["design" := PyStr design]}.

(** The loop of [implement_feature] over [project_files[:10]], from the
    [file_contents] collected so far. *)
Fixpoint collect_contents (project_files : list (gmap string pyval))
    (file_contents : list (pyval * pyval)) : string + list (pyval * pyval) :=
  match project_files with
  | [] => inr file_contents
  | file_info :: rest =>
      if truthy (default PyNone (file_info !! "content")) then
        match file_info !! "path" with
        | None => inl "'path'"
        | Some path =>
            match hashable path with
            | inl e => inl e
            | inr _ =>
                collect_contents rest
                  (dict_set path (default PyNone (file_info !! "content"))
                     file_contents)
            end
        end
      else collect_contents rest file_contents
  end.

(** [for file_data in data.get(key, []): await write(self.task.project_id,
    file_data["path"], file_data["content"])] *)
Definition write_files (write : string -> pyval -> pyval -> W pyval)
    (data : pyval) (key : string) : W unit :=
  listed ← eval (py_get data key (PyList []));
  items ← eval (py_iter listed);
  for_each items (fun file_data =>
    project_id ← lift (gets (fun s => AgentTask.project_id (task s)));
    path ← eval (py_item file_data "path");
    content ← eval (py_item file_data "content");
    write project_id path content;;
    mret tt).

(** [len(data.get(key, []))] *)
Definition count_files (data : pyval) (key : string) : W Z :=
  listed ← eval (py_get data key (PyList []));
  eval (py_len listed).

(** [FeatureImplementerAgent.implement_feature] *)
Definition implement_feature (svc : Services) (i : nat) : W unit :=
  step1 ← steps_item 1;
  let design := default (PyStr "") (AgentStep.output_data step1 !! "design") in
  project_id ← lift (gets (fun s => AgentTask.project_id (task s)));
  project_files ← get_project_files svc project_id;
  file_contents ← eval (collect_contents (take 10 project_files) []);
  description ← lift (gets (fun s => AgentTask.description (task s)));
  implementation ←
    call_ai_service svc
      (ImplementationPrompt description design file_contents) "gpt-4";
  try_except
    (impl_data ← eval (loads svc implementation);
     write_files (create_file svc) impl_data "new_files";;
     write_files (update_file svc) impl_data "modified_files";;
     files_created ← count_files impl_data "new_files";
     files_modified ← count_files impl_data "modified_files";
     set_output_data i
       (<["files_created" := PyInt files_created]>
        (<["files_modified" := PyInt files_modified]>
        (<["implementation" := impl_data]> ∅))))
    (fun e =>
       lift (logger ("Failed to parse implementation: " +:+ e));;
       set_output_data i
         (<["error" := PyStr e]>
          (<["raw_response" := PyStr implementation]> ∅))).

(** [FeatureImplementerAgent.generate_tests] *)
Definition generate_tests (svc : Services) (i : nat) : W unit :=
  step2 ← steps_item 2;
  let implementation :=
    default (PyDict []) (AgentStep.output_data step2 !! "implementation") in
  description ← lift (gets (fun s => AgentTask.description (task s)));
  tests ← call_ai_service svc (TestPrompt description implementation) "gpt-4";
  try_except
    (test_data ← eval (loads svc tests);
     write_files (create_file svc) test_data "test_files";;
     test_files_created ← count_files test_data "test_files";
     set_output_data i
       (<["test_files_created" := PyInt test_files_created]>
        (<["tests" := test_data]> ∅)))
    (fun e =>
       lift (logger ("Failed to parse tests: " +:+ e));;
       set_output_data i
         (<["error" := PyStr e]> (<["raw_response" := PyStr tests]> ∅))).

(** [FeatureImplementerAgent.update_documentation] *)
Definition update_documentation (svc : Services) (i : nat) : W unit :=
  step2 ← steps_item 2;
  let implementation :=
    default (PyDict []) (AgentStep.output_data step2 !! "implementation") in
  description ← lift (gets (fun s => AgentTask.description (task s)));
  docs ← call_ai_service svc (DocPrompt description implementation) "gpt-4";
  try_except
    (doc_data ← eval (loads svc docs);
     write_files (update_file svc) doc_data "doc_files";;
     doc_files_updated ← count_files doc_data "doc_files";
     set_output_data i
       (<["doc_files_updated" := PyInt doc_files_updated]>
        (<["documentation" := doc_data]> ∅)))
    (fun e =>
       lift (logger ("Failed to parse documentation: " +:+ e));;
       set_output_data i
         (<["error" := PyStr e]> (<["raw_response" := PyStr docs]> ∅))).

(** [FeatureImplementerAgent.execute_step_logic] *)
Definition execute_step_logic (svc : Services) (i : nat) : W unit :=
  step ← lift (gets (step_at i));
  if String.eqb (AgentStep.type step) "analysis" then
    analyze_requirements svc i
  else if String.eqb (AgentStep.type step) "design" then
    design_implementation svc i
  else if String.eqb (AgentStep.type step) "implementation" then
    implement_feature svc i
  else if String.eqb (AgentStep.type step) "testing" then
    generate_tests svc i
  else if String.eqb (AgentStep.type step) "documentation" then
    update_documentation svc i
  else
    lift (logger ("Unknown step type: " +:+ AgentStep.type step)).

End Handlers.

(** [Q] holds of what the handler coroutine [m] returns and leaves
    behind when started in [w]. *)
Definition wpw {A} (m : Handlers.W A)
    (Q : outcome A -> Handlers.World -> Prop) (w : Handlers.World) : Prop :=
  Q (fst (m w)) (snd (m w)).

(** Whatever [m] does, it moves the world along [R]. *)
Definition keeps (R : Handlers.World -> Handlers.World -> Prop) {A}
    (m : Handlers.W A) : Prop :=
  forall w, R w (snd (m w)).

(** The task is untouched; requests and log lines may have been
    added. *)
Definition task_untouched (w w' : Handlers.World) : Prop :=
  task (Handlers.agent w') = task (Handlers.agent w)
  /\ current_step_index (Handlers.agent w')
     = current_step_index (Handlers.agent w)
  /\ (exists lines,
        proc (Handlers.agent w')
        = with_log (log (proc (Handlers.agent w)) ++ lines)
            (proc (Handlers.agent w)))
  /\ exists new, Handlers.requests w' = Handlers.requests w ++ new.

(** The keys of [output_data] that [finalize_task] sums. *)
Definition counted_keys : list string :=
  ["files_created"; "files_modified"; "test_files_created";
   "doc_files_updated"].

(** What [finalize_task] can add up: an integer (or a bool) under each
    counted key that is present. *)
Definition countable (out : gmap string pyval) : Prop :=
  forall key, key ∈ counted_keys ->
    match out !! key with
    | None | Some (PyInt _) | Some (PyBool _) => True
    | Some _ => False
    end.

(** What a handler may have done to the world it was started in: added
    requests and log lines, and assigned a countable [output_data] to
    the step at [i]. *)
Definition handled (i : nat) (w w' : Handlers.World) : Prop :=
  current_step_index (Handlers.agent w')
  = current_step_index (Handlers.agent w)
  /\ (exists lines,
        proc (Handlers.agent w')
        = with_log (log (proc (Handlers.agent w)) ++ lines)
            (proc (Handlers.agent w)))
  /\ (exists new, Handlers.requests w' = Handlers.requests w ++ new)
  /\ exists out,
       countable out
       /\ task (Handlers.agent w')
          = AgentTask.with_steps
              (alter (AgentStep.with_output_data out) i
                 (AgentTask.steps (task (Handlers.agent w))))
              (task (Handlers.agent w)).

(** How a handler started in [w0] ends: it raises with the task
    untouched, or it returns having assigned [output_data]. *)
Definition handler_post (i : nat) (w0 : Handlers.World)
    (o : outcome unit) (w' : Handlers.World) : Prop :=
  match o with
  | Raise _ => task_untouched w0 w'
  | Ok _ => handled i w0 w'
  end.

(** What a step contributes to the sum under [key]: its integer (a bool
    counts as 0 or 1), and 0 when the key is absent. *)
Definition counted (key : string) (st : AgentStep.t) : Z :=
  match AgentStep.output_data st !! key with
  | Some (PyInt z) => z
  | Some (PyBool b) => if b then 1 else 0
  | _ => 0
  end.

(** The sum over the steps of what they contribute under [key]. *)
Definition total (key : string) (steps : list AgentStep.t) : Z :=
  foldr (fun st acc => counted key st + acc)%Z 0%Z steps.

(** A request that creates, or updates, a file of project [pid]. *)
Definition is_post (pid : string) (r : Handlers.Request) : Prop :=
  exists path content, r = Handlers.PostFile pid path content.

Definition is_put (pid : string) (r : Handlers.Request) : Prop :=
  exists path content, r = Handlers.PutFile pid path content.

(** One write: one request, whatever the answer, and the task as it
    was. *)
Definition writes_one (write : string -> pyval -> pyval -> Handlers.W pyval)
    (mk : string -> pyval -> pyval -> Handlers.Request) : Prop :=
  forall pid path content w,
    Handlers.requests (snd (write pid path content w))
    = Handlers.requests w ++ [mk pid path content]
    /\ task (Handlers.agent (snd (write pid path content w)))
       = task (Handlers.agent w).

(* ------------------------------------------------------------------ *)
(** *** More scenarios                                                 *)

Module Cases.

(** As [Scenario.healthy], but the first two calls of a handler raise. *)
Definition flaky : Env :=
  {| redis_fault := fun _ => None;
     others := fun _ db => db;
     ws_fault := fun _ => None;
     project_files := project_files Scenario.healthy;
     plan_response := plan_response Scenario.healthy;
     parse_plan := parse_plan Scenario.healthy;
     step_handler := fun _ n =>
       if (n <? 2)%nat then inl ("boom " +:+ pretty n)
       else inr {["analysis" := PyStr "fine"]} |}.

(** An agent at work on a plan of one analysis step. *)
Definition one_step : Agent :=
  BaseAgent_init
    (AgentTask.mk "t1" "proj" AgentType.FEATURE_IMPLEMENTER "Add login"
       "Add a login page" AgentStatus.RUNNING 0%Q
       [AgentStep.new "step_0" "Analyze" "look at the code" "analysis" []]
       ∅ None)
    Scenario.process.

(** An agent whose plan of two steps has been run: the first step
    reports two files created, the second three files created and one
    modified. *)
Definition two_outputs : Agent :=
  BaseAgent_init
    (AgentTask.mk "t1" "proj" AgentType.FEATURE_IMPLEMENTER "Add login"
       "Add a login page" AgentStatus.COMPLETED 100%Q
       [AgentStep.with_output_data {["files_created" := PyInt 2]}
          (AgentStep.new "step_0" "Implement" "write the code"
             "implementation" []);
        AgentStep.with_output_data
          (<["files_created" := PyInt 3]>
           (<["files_modified" := PyInt 1]>
           (<["implementation" := PyDict []]> ∅)))
          (AgentStep.new "step_1" "Implement more" "write more code"
             "implementation" [])]
       ∅ None)
    Scenario.process.

(** What the AI service proposes in [helpful]: two files to create, one
    to modify, one test file and one documentation file. *)
Definition file (path content : string) : pyval :=
  PyDict [("path", PyStr path); ("content", PyStr content)].

Definition proposal : pyval :=
  PyDict
    [("new_files", PyList [file "login.py" "def login(): ...";
                           file "auth.py" "def check(): ..."]);
     ("modified_files", PyList [file "main.py" "import login"]);
     ("test_files", PyList [file "test_login.py" "def test_login(): ..."]);
     ("doc_files", PyList [file "README.md" "# Login"])].

(** Services that answer every request. *)
Definition helpful : Handlers.Services :=
  {| Handlers.chat := fun _ => inr "{ ... }";
     Handlers.project := fun _ =>
       inr [ <["path" := PyStr "main.py"]>
             (<["content" := PyStr "print(1)"]> ∅) ];
     Handlers.files := fun _ => inr (PyDict [("ok", PyBool true)]);
     Handlers.loads := fun _ => inr proposal |}.

(** As [helpful], but the project service refuses the fourth request of
    the agent. *)
Definition refusing : Handlers.Services :=
  {| Handlers.chat := Handlers.chat helpful;
     Handlers.project := Handlers.project helpful;
     Handlers.files := fun n =>
       if (n =? 3)%nat then inl "500 Internal Server Error"
       else inr (PyDict [("ok", PyBool true)]);
     Handlers.loads := Handlers.loads helpful |}.

(** An agent at work on the built-in plan, and no request made yet. *)
Definition at_work : Handlers.World :=
  {| Handlers.agent :=
       BaseAgent_init
         (AgentTask.mk "t1" "proj" AgentType.FEATURE_IMPLEMENTER "Add login"
            "Add a login page" AgentStatus.RUNNING 0%Q default_plan ∅ None)
         Scenario.process;
     Handlers.requests := [] |}.

End Cases.

(* ================================================================== *)
(** ** Reasoning rules                                                 *)
(* ================================================================== *)

Section Rules.
Context {A B : Type}.
Implicit Types (m : M A) (k : A -> M B) (s : Agent).

Lemma bind_eq m k s :
  (m ≫= k) s = match m s with
               | (Ok a, s') => k a s'
               | (Raise e, s') => (Raise e, s')
               end.
Proof. reflexivity. Qed.

Lemma wp_bind m k (Q : outcome B -> Agent -> Prop) s :
  wp m (fun o s' => match o with
                    | Ok a => wp (k a) Q s'
                    | Raise e => Q (Raise e) s'
                    end) s ->
  wp (m ≫= k) Q s.
Proof. unfold wp. rewrite bind_eq. by destruct (m s) as [[a|e] s']. Qed.

Lemma wp_try (m : M A) (h : string -> M A) (Q : outcome A -> Agent -> Prop) s :
  wp m (fun o s' => match o with
                    | Ok a => Q (Ok a) s'
                    | Raise e => wp (h e) Q s'
                    end) s ->
  wp (try_except m h) Q s.
Proof. unfold wp, try_except. by destruct (m s) as [[a|e] s']. Qed.

Lemma wp_mono m (Q Q' : outcome A -> Agent -> Prop) s :
  wp m Q s -> (forall o s', Q o s' -> Q' o s') -> wp m Q' s.
Proof. unfold wp. auto. Qed.

Lemma wp_conj m (Q Q' : outcome A -> Agent -> Prop) s :
  wp m Q s -> wp m Q' s -> wp m (fun o s' => Q o s' /\ Q' o s') s.
Proof. unfold wp. auto. Qed.

End Rules.

Lemma wp_ret {A} (a : A) (Q : outcome A -> Agent -> Prop) s :
  Q (Ok a) s -> wp (mret a) Q s.
Proof. done. Qed.

Lemma wp_raise {A} e (Q : outcome A -> Agent -> Prop) s :
  Q (Raise e) s -> wp (raise e) Q s.
Proof. done. Qed.

Lemma wp_gets {A} (f : Agent -> A) (Q : outcome A -> Agent -> Prop) s :
  Q (Ok (f s)) s -> wp (gets f) Q s.
Proof. done. Qed.

(** Along a preorder, every composition of preserving coroutines is
    preserving. *)
Section Preserves.
Context (R : Agent -> Agent -> Prop) `{!PreOrder R}.

Lemma preserves_ret {A} (a : A) : preserves R (mret a : M A).
Proof. intros s. simpl. reflexivity. Qed.

Lemma preserves_raise {A} e : preserves R (raise e : M A).
Proof. intros s. simpl. reflexivity. Qed.

Lemma preserves_gets {A} (f : Agent -> A) : preserves R (gets f).
Proof. intros s. simpl. reflexivity. Qed.

Lemma preserves_bind {A B} (m : M A) (k : A -> M B) :
  preserves R m -> (forall a, preserves R (k a)) -> preserves R (m ≫= k).
Proof.
  intros Hm Hk s. rewrite bind_eq. specialize (Hm s).
  destruct (m s) as [[a|e] s']; simpl in *; [|done].
  etrans; [exact Hm | apply Hk].
Qed.

Lemma preserves_try {A} (m : M A) (h : string -> M A) :
  preserves R m -> (forall e, preserves R (h e)) ->
  preserves R (try_except m h).
Proof.
  intros Hm Hh s. unfold try_except. specialize (Hm s).
  destruct (m s) as [[a|e] s']; simpl in *; [done|].
  etrans; [exact Hm | apply Hh].
Qed.

Lemma preserves_if {A} (b : bool) (m1 m2 : M A) :
  preserves R m1 -> preserves R m2 -> preserves R (if b then m1 else m2).
Proof. by destruct b. Qed.

Lemma preserves_wp {A} (m : M A) s :
  preserves R m -> wp m (fun _ s' => R s s') s.
Proof. intros Hm. apply Hm. Qed.

End Preserves.

(** Related coroutines compose. *)
Section Related.
Context (R : Agent -> Agent -> Prop).

Lemma related_ret {A} (a : A) : related R (mret a : M A) (mret a).
Proof. by intros s1 s2 HR. Qed.

Lemma related_raise {A} e : related R (raise e : M A) (raise e).
Proof. by intros s1 s2 HR. Qed.

Lemma related_bind {A B} (m1 m2 : M A) (k1 k2 : A -> M B) :
  related R m1 m2 -> (forall a, related R (k1 a) (k2 a)) ->
  related R (m1 ≫= k1) (m2 ≫= k2).
Proof.
  intros Hm Hk s1 s2 HR. rewrite !bind_eq.
  destruct (Hm s1 s2 HR) as [Ho HR'].
  destruct (m1 s1) as [o1 s1'], (m2 s2) as [o2 s2']; simpl in *; subst o2.
  destruct o1; [by apply Hk | done].
Qed.

Lemma related_try {A} (m1 m2 : M A) (h1 h2 : string -> M A) :
  related R m1 m2 -> (forall e, related R (h1 e) (h2 e)) ->
  related R (try_except m1 h1) (try_except m2 h2).
Proof.
  intros Hm Hh s1 s2 HR. unfold try_except.
  destruct (Hm s1 s2 HR) as [Ho HR'].
  destruct (m1 s1) as [o1 s1'], (m2 s2) as [o2 s2']; simpl in *; subst o2.
  destruct o1; [done | by apply Hh].
Qed.

Lemma related_gets {A} (f : Agent -> A) :
  (forall s1 s2, R s1 s2 -> f s1 = f s2) -> related R (gets f) (gets f).
Proof. intros Hf s1 s2 HR. simpl. split; [f_equal; auto | done]. Qed.

Lemma related_if {A} (b : bool) (m1 m2 m1' m2' : M A) :
  related R m1 m1' -> related R m2 m2' ->
  related R (if b then m1 else m2) (if b then m1' else m2').
Proof. by destruct b. Qed.

End Related.

(* ================================================================== *)
(** ** The cancel endpoint                                             *)
(* ================================================================== *)

Lemma terminal_spec st :
  terminal st = true <->
  st = AgentStatus.COMPLETED \/ st = AgentStatus.FAILED
  \/ st = AgentStatus.CANCELLED.
Proof.
  unfold terminal. rewrite bool_decide_eq_true, !elem_of_cons, elem_of_nil.
  tauto.
Qed.

(** C9.  A cancel request for a stored task is rejected with HTTP 400 and
    leaves the process, Redis included, as it was when the stored status
    is COMPLETED, FAILED or CANCELLED; for any other status it stores the
    same snapshot with status CANCELLED (one hour to live) and answers
    with it, and a query then returns that snapshot. *)
Theorem cancel_agent_task_spec (task_id : string) (p : Process) (db : Redis)
    (ttl : Z) (k : AgentTask.t) :
  redis_client p = Some db ->
  db !! task_key task_id = Some (ttl, k) ->
  match AgentTask.status k with
  | AgentStatus.COMPLETED | AgentStatus.FAILED | AgentStatus.CANCELLED =>
      cancel_agent_task task_id p
      = (HTTPException 400 "Task cannot be cancelled", p)
  | _ =>
      let k' := AgentTask.with_status AgentStatus.CANCELLED k in
      exists p',
        cancel_agent_task task_id p
        = (Response ("Task cancelled successfully", k'), p')
        /\ AgentTask.status k' = AgentStatus.CANCELLED
        /\ redis_client p' = Some (<[task_key task_id := (3600%Z, k')]> db)
        /\ get_agent_task task_id p' = Response k'
  end.
Proof.
  intros Hc Hk. unfold cancel_agent_task. rewrite Hc, Hk.
  destruct (AgentTask.status k) eqn:Hst; simpl; try done;
    (eexists; split; [reflexivity|]; split; [done|];
     unfold store, get_agent_task; rewrite Hc; simpl;
     split; [done | by rewrite lookup_insert_eq]).
Qed.

Lemma cancel_agent_task_spec_witness :
  let db : Redis :=
    {[ task_key "t1" := (3600%Z, AgentTask.mk "t1" "proj"
         AgentType.FEATURE_IMPLEMENTER "Add login" "Add a login page"
         AgentStatus.RUNNING 0%Q [] ∅ None) ]} in
  exists p',
    fst (cancel_agent_task "t1" (with_redis (Some db) 0 Scenario.process))
    = Response ("Task cancelled successfully",
                AgentTask.mk "t1" "proj" AgentType.FEATURE_IMPLEMENTER
                  "Add login" "Add a login page" AgentStatus.CANCELLED 0%Q
                  [] ∅ None)
    /\ get_agent_task "t1" p'
       = Response (AgentTask.mk "t1" "proj" AgentType.FEATURE_IMPLEMENTER
                     "Add login" "Add a login page" AgentStatus.CANCELLED
                     0%Q [] ∅ None).
Proof.
  intros db.
  destruct (cancel_agent_task_spec "t1"
              (with_redis (Some db) 0 Scenario.process) db 3600%Z
              (AgentTask.mk "t1" "proj" AgentType.FEATURE_IMPLEMENTER
                 "Add login" "Add a login page" AgentStatus.RUNNING 0%Q
                 [] ∅ None) eq_refl (lookup_singleton_eq _ _))
    as (p' & Hc & _ & _ & Hg).
  exists p'. split; [by rewrite Hc | exact Hg].
Defined.

(* ================================================================== *)
(** ** Runs of the scenarios                                           *)
(* ================================================================== *)

(** C1.  Task [t1] has a plan of two steps.  Between step 0 and step 1 the
    stored status is RUNNING and a cancel request is accepted: the store
    then says CANCELLED.  With that request served at that point, the
    engine still calls the handler of step 1, completes both steps, ends
    COMPLETED and stores COMPLETED over the CANCELLED snapshot. *)
Theorem cancel_between_steps_is_not_observed :
  let between :=
    snd (Scenario.until_between_steps Scenario.healthy
           (BaseAgent_init
              (resp_task (fst (create_agent_task "t1"
                 (Scenario.request AgentType.FEATURE_IMPLEMENTER)
                 Scenario.process)))
              (snd (create_agent_task "t1"
                 (Scenario.request AgentType.FEATURE_IMPLEMENTER)
                 Scenario.process)))) in
  let final :=
    snd (submit Scenario.cancelled_between_steps "t1"
           (Scenario.request AgentType.FEATURE_IMPLEMENTER)
           Scenario.process) in
  (* the point between the steps, and the cancel request served there *)
  redis_ops (proc between) = 4%nat
  /\ map AgentStep.status (AgentTask.steps (task between))
     = [StepStatus.COMPLETED; StepStatus.PENDING]
  /\ shown (get_agent_task "t1" (proc between))
     = Some (AgentStatus.RUNNING, None, 0%nat)
  /\ shown (get_agent_task "t1"
              (snd (cancel_agent_task "t1" (proc between))))
     = Some (AgentStatus.CANCELLED, None, 0%nat)
  /\ redis_client (snd (cancel_agent_task "t1" (proc between)))
     = cancel_in_store "t1" <$> redis_client (proc between)
  (* what the engine does all the same *)
  /\ calls (proc final) = ["step_0"; "step_1"]
  /\ map AgentStep.status (AgentTask.steps (task final))
     = [StepStatus.COMPLETED; StepStatus.COMPLETED]
  /\ AgentTask.status (task final) = AgentStatus.COMPLETED
  /\ shown (get_agent_task "t1" (proc final))
     = Some (AgentStatus.COMPLETED, None, 7%nat).
Proof. vm_compute. repeat split; reflexivity. Qed.

(** C2, refuted.  The AI service times out under the planner: no default
    plan is substituted, no step runs, and the task ends FAILED with the
    text of the timeout. *)
Lemma planner_exception_fails_the_task :
  let final :=
    snd (submit Scenario.planner_timeout "t1"
           (Scenario.request AgentType.FEATURE_IMPLEMENTER)
           Scenario.process) in
  AgentTask.status (task final) = AgentStatus.FAILED
  /\ AgentTask.error_message (task final) = Some "timed out"
  /\ AgentTask.steps (task final) = []
  /\ calls (proc final) = []
  /\ shown (get_agent_task "t1" (proc final))
     = Some (AgentStatus.FAILED, Some "timed out", 0%nat).
Proof. vm_compute. repeat split; reflexivity. Qed.

(** C4, refuted.  Two runs that differ only in that the first Redis
    command raises in one of them: with the failure the task ends FAILED
    with the text of the Redis error and no step is run; without it the
    task completes. *)
Lemma store_failure_fails_the_task :
  let run env :=
    snd (submit env "t1" (Scenario.request AgentType.FEATURE_IMPLEMENTER)
           Scenario.process) in
  AgentTask.status (task (run Scenario.redis_down_once)) = AgentStatus.FAILED
  /\ AgentTask.error_message (task (run Scenario.redis_down_once))
     = Some "Connection refused"
  /\ calls (proc (run Scenario.redis_down_once)) = []
  /\ AgentTask.status (task (run Scenario.healthy)) = AgentStatus.COMPLETED
  /\ AgentTask.error_message (task (run Scenario.healthy)) = None
  /\ calls (proc (run Scenario.healthy)) = ["step_0"; "step_1"].
Proof. vm_compute. repeat split; reflexivity. Qed.

(** C5.  A task of variant [bug_fixer] is accepted and stored; in the
    background task the factory raises, [execute_agent_task] logs the
    exception and issues no Redis command, and the stored task stays
    PENDING with an empty result and no error message: the caller never
    observes a terminal status. *)
Lemma unsupported_variant_stays_pending :
  let final :=
    snd (submit Scenario.healthy "t1"
           (Scenario.request AgentType.BUG_FIXER) Scenario.process) in
  AgentTask.status (task final) = AgentStatus.PENDING
  /\ shown (get_agent_task "t1" (proc final))
     = Some (AgentStatus.PENDING, None, 0%nat)
  /\ redis_ops (proc final) = 0%nat
  /\ log (proc final)
     = ["Agent task execution failed: Unknown agent type: AgentType.BUG_FIXER"].
Proof. vm_compute. repeat split; reflexivity. Qed.

(** C6, refuted.  The snapshot stored right after the last step has
    progress 100 and status RUNNING. *)
Lemma running_snapshot_with_full_progress :
  let final :=
    snd (submit Scenario.healthy "t1"
           (Scenario.request AgentType.FEATURE_IMPLEMENTER)
           Scenario.process) in
  exists w, writes (proc final) !! 7%nat = Some w
    /\ AgentTask.status w = AgentStatus.RUNNING
    /\ (AgentTask.progress w == 100)%Q.
Proof. vm_compute. eexists. repeat split; reflexivity. Qed.

(* ================================================================== *)
(** ** Progress as a rational                                          *)
(* ================================================================== *)

Lemma progress_upto_unfold k n :
  (progress_upto k (S n) == (100 * Z.of_nat k) # (Pos.of_succ_nat n))%Q.
Proof.
  unfold progress_upto, Qdiv, Qmult, Qinv, Qeq, inject_Z. simpl. lia.
Qed.

Lemma progress_upto_zero_len k : (progress_upto k 0 == 0)%Q.
Proof. unfold progress_upto, Qdiv, Qmult, Qinv, Qeq, inject_Z. simpl. lia. Qed.

Lemma progress_upto_nonneg k n : (0 <= progress_upto k n)%Q.
Proof.
  destruct n; [rewrite progress_upto_zero_len; apply Qle_refl|].
  rewrite progress_upto_unfold. unfold Qle. simpl. lia.
Qed.

Lemma progress_upto_mono k k' n :
  k <= k' -> (progress_upto k n <= progress_upto k' n)%Q.
Proof.
  intros Hk. destruct n; [rewrite !progress_upto_zero_len; apply Qle_refl|].
  rewrite !progress_upto_unfold. unfold Qle. simpl. nia.
Qed.

Lemma progress_upto_le_100 k n : k <= n -> (progress_upto k n <= 100)%Q.
Proof.
  intros Hk. destruct n; [by rewrite progress_upto_zero_len|].
  rewrite progress_upto_unfold. unfold Qle. simpl. lia.
Qed.

Lemma progress_upto_lt_100 k n : k < n -> (progress_upto k n < 100)%Q.
Proof.
  intros Hk. destruct n; [lia|].
  rewrite progress_upto_unfold. unfold Qlt. simpl. lia.
Qed.

Lemma progress_after_upto i n : progress_after i n = progress_upto (i + 1) n.
Proof. reflexivity. Qed.

Lemma nondecreasing_nil : nondecreasing [].
Proof. intros i j x y _ Hx. by rewrite lookup_nil in Hx. Qed.

Lemma nondecreasing_app qs rs :
  nondecreasing qs -> nondecreasing rs ->
  (forall x y, x ∈ qs -> y ∈ rs -> (x <= y)%Q) ->
  nondecreasing (qs ++ rs).
Proof.
  intros Hq Hr Hqr i j x y Hij Hx Hy.
  apply lookup_app_Some in Hx as [Hx|[Hi Hx]];
    apply lookup_app_Some in Hy as [Hy|[Hj Hy]].
  - by apply (Hq i j).
  - apply Hqr; by eapply list_elem_of_lookup_2.
  - apply lookup_lt_Some in Hy. lia.
  - apply (Hr (i - length qs) (j - length qs)); [lia|done..].
Qed.

Lemma nondecreasing_constant (q : Q) qs :
  Forall (fun x => x = q) qs -> nondecreasing qs.
Proof.
  intros Hall i j x y _ Hx Hy.
  rewrite Forall_forall in Hall.
  rewrite (Hall x), (Hall y); [apply Qle_refl|..];
    by eapply list_elem_of_lookup_2.
Qed.

(* ================================================================== *)
(** ** Frames                                                          *)
(* ================================================================== *)

#[global] Instance same_identity_preorder : PreOrder same_identity.
Proof.
  split; [by intros t|].
  intros t1 t2 t3 (?&?&?&?&?) (?&?&?&?&?).
  repeat split; congruence.
Qed.

#[global] Instance step_frame_preorder i : PreOrder (step_frame i).
Proof.
  split.
  - intros t. repeat split; auto.
  - intros t1 t2 t3 (Hi1&Hp1&Hr1&Hl1&Hs1&Hst1) (Hi2&Hp2&Hr2&Hl2&Hs2&Hst2).
    split; [by etrans|]. repeat split; try congruence.
    + intros j Hj. rewrite Hs2, Hs1; auto.
    + destruct Hst2 as [-> | ->]; auto.
Qed.

#[global] Instance bookkeeping_preorder : PreOrder bookkeeping.
Proof.
  split.
  - intros t. repeat split; auto.
  - intros t1 t2 t3 (Hi1&Hp1&Hs1&Hst1) (Hi2&Hp2&Hs2&Hst2).
    split; [by etrans|]. repeat split; try congruence.
    destruct Hst2 as [-> | ?]; auto.
Qed.

#[global] Instance with_snapshots_preorder F `{!PreOrder F} :
  PreOrder (with_snapshots F).
Proof.
  split.
  - intros s. split; [reflexivity|]. split; [done|].
    exists []. by rewrite app_nil_r.
  - intros s1 s2 s3 (Hf1&Hr1&new1&Hw1&Hn1) (Hf2&Hr2&new2&Hw2&Hn2).
    split; [by etrans|]. split; [by rewrite Hr2|].
    exists (new1 ++ new2). split; [by rewrite Hw2, Hw1, app_assoc|].
    apply Forall_app. split; [done|].
    eapply Forall_impl; [exact Hn2|]. intros w Hw. by etrans.
Qed.

#[global] Instance during_step_preorder i : PreOrder (during_step i).
Proof. unfold during_step. apply _. Qed.

#[global] Instance outside_steps_preorder : PreOrder outside_steps.
Proof. unfold outside_steps. apply _. Qed.

#[global] Instance task_kept_preorder : PreOrder task_kept.
Proof.
  split; [by intros s|].
  intros s1 s2 s3 (?&?&?) (?&?&?). repeat split; congruence.
Qed.

#[global] Instance plan_frame_preorder : PreOrder plan_frame.
Proof.
  split.
  - intros s. repeat split; auto.
  - intros s1 s2 s3 (?&?&?&?&?&?&?) (?&?&?&?&?&?&?).
    split; [by etrans|]. repeat split; congruence.
Qed.

#[global] Instance finalize_frame_preorder : PreOrder finalize_frame.
Proof.
  split.
  - intros s. repeat split; auto.
  - intros s1 s2 s3 (?&?&?&?&?&?&?) (?&?&?&?&?&?&?).
    split; [by etrans|]. repeat split; congruence.
Qed.

#[global] Instance same_task_preorder : PreOrder same_task.
Proof.
  split; [by intros s|]. intros s1 s2 s3. unfold same_task. congruence.
Qed.

#[global] Instance quiet_preorder : PreOrder quiet.
Proof.
  split; [by intros s|].
  intros s1 s2 s3 [? ?] [? ?]. split; congruence.
Qed.

Lemma task_kept_with_snapshots F `{!PreOrder F} s s' :
  task_kept s s' -> with_snapshots F s s'.
Proof.
  intros (Ht&Hr&Hw). split; [by rewrite Ht|]. split; [by rewrite Hr|].
  exists []. by rewrite app_nil_r.
Qed.

Lemma task_kept_plan_frame s s' : task_kept s s' -> plan_frame s s'.
Proof. intros (Ht&Hr&Hw). unfold plan_frame. rewrite Ht. repeat split; auto. Qed.

Lemma task_kept_quiet s s' : task_kept s s' -> quiet s s'.
Proof. intros (Ht&_). unfold quiet. by rewrite Ht. Qed.

Lemma finalize_frame_outside_steps s s' :
  finalize_frame s s' -> outside_steps s s'.
Proof.
  intros (Hi&Hst&Hp&Hs&_&Hr&Hw). split; [|split; [by rewrite Hr|]].
  - repeat split; auto; apply Hi.
  - exists []. by rewrite app_nil_r.
Qed.

Lemma preserves_weaken (R R' : Agent -> Agent -> Prop) {A} (m : M A) :
  (forall s s', R s s' -> R' s s') -> preserves R m -> preserves R' m.
Proof. intros HR Hm s. apply HR, Hm. Qed.

Lemma kept_with_snapshots F `{!PreOrder F} {A} (m : M A) :
  preserves task_kept m -> preserves (with_snapshots F) m.
Proof. apply preserves_weaken, task_kept_with_snapshots, _. Qed.

Lemma kept_during_step i {A} (m : M A) :
  preserves task_kept m -> preserves (during_step i) m.
Proof. apply kept_with_snapshots, _. Qed.

Lemma kept_outside_steps {A} (m : M A) :
  preserves task_kept m -> preserves outside_steps m.
Proof. apply kept_with_snapshots, _. Qed.

Lemma kept_quiet {A} (m : M A) : preserves task_kept m -> preserves quiet m.
Proof. apply preserves_weaken, task_kept_quiet. Qed.

Lemma kept_same_task {A} (m : M A) :
  preserves task_kept m -> preserves same_task m.
Proof. apply preserves_weaken. by intros s s' (Ht&_). Qed.

Lemma kept_plan_frame {A} (m : M A) :
  preserves task_kept m -> preserves plan_frame m.
Proof. apply preserves_weaken, task_kept_plan_frame. Qed.

(* ================================================================== *)
(** ** What the primitives do                                          *)
(* ================================================================== *)

(** What one [save_task] does. *)
Lemma save_task_spec env s :
  let s' := snd (save_task env s) in
  task s' = task s
  /\ current_step_index s' = current_step_index s
  /\ (is_Some (redis_client (proc s')) <-> is_Some (redis_client (proc s)))
  /\ (writes (proc s') = writes (proc s) /\ fst (save_task env s) <> Ok tt
      \/ writes (proc s') = writes (proc s) ++ [task s]
         /\ fst (save_task env s) = Ok tt
         /\ get_agent_task (AgentTask.id (task s)) (proc s')
            = Response (task s)
      \/ redis_client (proc s) = None /\ s' = s
         /\ fst (save_task env s) = Ok tt)
  /\ active_connections (proc s') = active_connections (proc s)
  /\ ws_ops (proc s') = ws_ops (proc s)
  /\ sent (proc s') = sent (proc s)
  /\ log (proc s') = log (proc s)
  /\ calls (proc s') = calls (proc s)
  /\ slept (proc s') = slept (proc s).
Proof.
  unfold save_task, redis_setex.
  destruct (redis_client (proc s)) as [db|] eqn:Hdb; simpl.
  - destruct (redis_fault env (redis_ops (proc s))) as [e|]; simpl.
    + repeat split; auto; try (by intros _; eexists).
    + repeat split; auto; try (by intros _; eexists).
      right; left. repeat split; auto.
      unfold get_agent_task. simpl. by rewrite lookup_insert_eq.
  - rewrite Hdb. repeat split; auto.
Qed.

Lemma logger_kept l : preserves task_kept (logger l).
Proof. by intros s. Qed.

Lemma sleep_kept d : preserves task_kept (sleep d).
Proof. by intros s. Qed.

Lemma set_current_step_index_kept i :
  preserves task_kept (set_current_step_index i).
Proof. by intros s. Qed.

Lemma broadcast_update_kept env : preserves task_kept (broadcast_update env).
Proof.
  intros s. unfold broadcast_update.
  destruct (active_connections (proc s) !! _); [|done].
  unfold try_except, send_text. by destruct (ws_fault env _).
Qed.

Lemma broadcast_update_ok env s : fst (broadcast_update env s) = Ok tt.
Proof.
  unfold broadcast_update.
  destruct (active_connections (proc s) !! _); [|done].
  unfold try_except, send_text. by destruct (ws_fault env _).
Qed.

Lemma save_task_with_snapshots F `{!PreOrder F} env :
  preserves (with_snapshots F) (save_task env).
Proof.
  intros s. destruct (save_task_spec env s) as (Ht&_&Hr&Hw&_).
  split; [by rewrite Ht|]. split; [done|].
  destruct Hw as [[Hw _]|[(Hw&_)|(_&->&_)]].
  - exists []. by rewrite app_nil_r.
  - exists [task s]. split; [done|]. by apply Forall_singleton.
  - exists []. by rewrite app_nil_r.
Qed.

Lemma save_task_during_step env i : preserves (during_step i) (save_task env).
Proof. apply save_task_with_snapshots, _. Qed.

Lemma save_task_outside_steps env : preserves outside_steps (save_task env).
Proof. apply save_task_with_snapshots, _. Qed.

Lemma save_task_same_task env : preserves same_task (save_task env).
Proof. intros s. by destruct (save_task_spec env s) as (Ht&_). Qed.

Lemma save_task_quiet env : preserves quiet (save_task env).
Proof.
  intros s. destruct (save_task_spec env s) as (Ht&_).
  unfold quiet. by rewrite Ht.
Qed.

Lemma modify_task_with_snapshots F f :
  (forall t, F t (f t)) -> preserves (with_snapshots F) (modify_task f).
Proof.
  intros Hf s. split; [apply Hf|]. split; [done|].
  exists []. by rewrite app_nil_r.
Qed.

Lemma modify_step_during_step i f : preserves (during_step i) (modify_step i f).
Proof.
  apply modify_task_with_snapshots. intros t.
  unfold step_frame, same_identity. simpl. repeat split; auto.
  - by rewrite length_alter.
  - intros j Hj. by rewrite list_lookup_alter_ne.
Qed.

Lemma modify_step_quiet i f : preserves quiet (modify_step i f).
Proof. by intros s. Qed.

Lemma fail_task_during_step i :
  preserves (during_step i)
    (modify_task (AgentTask.with_status AgentStatus.FAILED)).
Proof.
  apply modify_task_with_snapshots. intros t.
  unfold step_frame, same_identity. simpl. repeat split; auto.
Qed.

Lemma error_message_during_step i v :
  preserves (during_step i) (modify_task (AgentTask.with_error_message v)).
Proof.
  apply modify_task_with_snapshots. intros t.
  unfold step_frame, same_identity. simpl. repeat split; auto.
Qed.

Lemma status_outside_steps st :
  engine_status st ->
  preserves outside_steps (modify_task (AgentTask.with_status st)).
Proof.
  intros Hst. apply modify_task_with_snapshots. intros t.
  unfold bookkeeping, same_identity. simpl. repeat split; auto.
Qed.

Lemma error_message_outside_steps v :
  preserves outside_steps (modify_task (AgentTask.with_error_message v)).
Proof.
  apply modify_task_with_snapshots. intros t.
  unfold bookkeeping, same_identity. simpl. repeat split; auto.
Qed.

Lemma fails_raise {A} e : fails (raise e : M A).
Proof. intros s. by exists e. Qed.

Lemma fails_bind {A B} (m : M A) (k : A -> M B) :
  (forall a, fails (k a)) -> fails (m ≫= k).
Proof.
  intros Hk s. rewrite bind_eq. destruct (m s) as [[a|e] s']; [apply Hk|].
  by exists e.
Qed.

Lemma wp_fails {A} (m : M A) (Q : outcome A -> Agent -> Prop) s :
  fails m -> (forall e s', Q (Raise e) s') -> wp m Q s.
Proof. intros Hm HQ. unfold wp. destruct (Hm s) as [e ->]. apply HQ. Qed.

Lemma wp_preserves (R : Agent -> Agent -> Prop) {A} (m : M A)
    (Q : outcome A -> Agent -> Prop) s :
  preserves R m -> (forall o s', R s s' -> Q o s') -> wp m Q s.
Proof. intros Hm HQ. apply HQ, Hm. Qed.

Lemma wp_skip {A B} (m : M A) (k : A -> M B)
    (Q : outcome B -> Agent -> Prop) s :
  (forall e s', Q (Raise e) s') -> (forall a s', wp (k a) Q s') ->
  wp (m ≫= k) Q s.
Proof.
  intros HQ Hk. apply wp_bind. unfold wp at 1.
  destruct (m s) as [[a|e] s']; simpl; auto.
Qed.

Lemma wp_modify_task f (Q : outcome unit -> Agent -> Prop) s :
  Q (Ok tt) {| task := f (task s);
               current_step_index := current_step_index s;
               proc := proc s |} ->
  wp (modify_task f) Q s.
Proof. done. Qed.

Lemma wp_modify_step i f (Q : outcome unit -> Agent -> Prop) s :
  Q (Ok tt) {| task := AgentTask.with_steps
                         (alter f i (AgentTask.steps (task s))) (task s);
               current_step_index := current_step_index s;
               proc := proc s |} ->
  wp (modify_step i f) Q s.
Proof. done. Qed.

Lemma wp_modify_proc f (Q : outcome unit -> Agent -> Prop) s :
  Q (Ok tt) {| task := task s;
               current_step_index := current_step_index s;
               proc := f (proc s) |} ->
  wp (modify_proc f) Q s.
Proof. done. Qed.

Lemma wp_logger l (Q : outcome unit -> Agent -> Prop) s :
  Q (Ok tt) {| task := task s;
               current_step_index := current_step_index s;
               proc := with_log (log (proc s) ++ [l]) (proc s) |} ->
  wp (logger l) Q s.
Proof. done. Qed.

Lemma wp_sleep d (Q : outcome unit -> Agent -> Prop) s :
  Q (Ok tt) {| task := task s;
               current_step_index := current_step_index s;
               proc := with_slept (slept (proc s) ++ [d]) (proc s) |} ->
  wp (sleep d) Q s.
Proof. done. Qed.

Lemma wp_set_current_step_index i (Q : outcome unit -> Agent -> Prop) s :
  Q (Ok tt) {| task := task s; current_step_index := i; proc := proc s |} ->
  wp (set_current_step_index i) Q s.
Proof. done. Qed.

Create HintDb engine.
#[local] Hint Resolve logger_kept sleep_kept set_current_step_index_kept
  broadcast_update_kept save_task_during_step save_task_outside_steps
  save_task_same_task save_task_quiet modify_step_during_step
  modify_step_quiet fail_task_during_step error_message_during_step
  error_message_outside_steps kept_during_step kept_outside_steps
  kept_quiet kept_same_task kept_plan_frame : engine.

Ltac preserve :=
  repeat first
    [ apply preserves_bind; [apply _ | | intros ?]
    | apply preserves_try; [apply _ | | intros ?]
    | apply preserves_ret; apply _
    | apply preserves_raise; apply _
    | apply preserves_gets; apply _
    | apply preserves_if
    | assumption
    | solve [eauto with engine]
    | match goal with
      | |- preserves _ (match ?x with _ => _ end) => destruct x
      end ].

Ltac wp_step :=
  apply wp_bind;
  lazymatch goal with
  | |- wp (modify_step _ _) _ _ => apply wp_modify_step
  | |- wp (modify_task _) _ _ => apply wp_modify_task
  | |- wp (modify_proc _) _ _ => apply wp_modify_proc
  | |- wp (logger _) _ _ => apply wp_logger
  | |- wp (sleep _) _ _ => apply wp_sleep
  | |- wp (set_current_step_index _) _ _ => apply wp_set_current_step_index
  | |- wp (gets _) _ _ => apply wp_gets
  end;
  cbn [task current_step_index proc].

(* ================================================================== *)
(** ** One step                                                        *)
(* ================================================================== *)

Section Engine.
Context (cls : AgentClass) (env : Env) (Hwb : well_behaved cls env).

Lemma execute_step_rec_during_step fuel i :
  preserves (during_step i) (execute_step_rec cls env fuel i).
Proof using Hwb.
  induction fuel as [|fuel IH]; simpl; [preserve|].
  pose proof (logic_in_frame _ _ Hwb i).
  preserve.
Qed.

Lemma execute_step_during_step i :
  preserves (during_step i) (execute_step cls env i).
Proof using Hwb. intros s. apply execute_step_rec_during_step. Qed.

Lemma execute_step_logic_quiet i :
  preserves quiet (execute_step_logic cls env i).
Proof using Hwb. apply Hwb. Qed.

(** A step that returns has been completed, and the status and error
    message of the task are as before. *)
Lemma execute_step_rec_ok fuel i s :
  wp (execute_step_rec cls env fuel i)
     (fun o s' => o = Ok tt ->
        quiet s s'
        /\ forall st, AgentTask.steps (task s') !! i = Some st -> completed st)
     s.
Proof using Hwb.
  revert s. induction fuel as [|fuel IH]; intros s; simpl; [done|].
  pose proof (execute_step_logic_quiet i) as Hlogic.
  apply wp_try.
  eapply wp_mono.
  { apply wp_conj.
    - apply (preserves_wp quiet). preserve.
    - instantiate (1 := fun o s' => o = Ok tt ->
        forall st, AgentTask.steps (task s') !! i = Some st -> completed st).
      do 4 (apply wp_skip; [done|intros _ ?]).
      apply wp_bind, wp_modify_step.
      apply (wp_preserves same_task); [preserve|].
      intros o s1 Hs1 _ st. rewrite Hs1. simpl.
      rewrite list_lookup_alter_eq. destruct (_ !! i); [|done].
      by intros [= <-]. }
  intros o s1 [Hq Hc]. destruct o as [[]|e]; [auto|].
  do 4 wp_step.
  destruct (_ <? _)%Z.
  - do 5 wp_step. eapply wp_mono; [apply IH|].
    intros o s' H Ho. destruct (H Ho) as [Hq' Hc']. split; [|done].
    unfold quiet in *. simpl in *. split; etrans; try apply Hq'; apply Hq.
  - apply wp_fails; [|done].
    repeat (apply fails_bind; intros ?). apply fails_raise.
Qed.

Lemma execute_step_ok i s :
  wp (execute_step cls env i)
     (fun o s' => o = Ok tt ->
        quiet s s'
        /\ forall st, AgentTask.steps (task s') !! i = Some st -> completed st)
     s.
Proof using Hwb. apply execute_step_rec_ok. Qed.

End Engine.

(* ================================================================== *)
(** ** The invariant of the engine                                     *)
(* ================================================================== *)

Lemma snapshot_ok_le p p' w :
  (p <= p')%Q -> snapshot_ok p w -> snapshot_ok p' w.
Proof.
  intros Hp (?&?&?&?).
  split; [done|]. split; [done|]. split; [done|]. by eapply Qle_trans.
Qed.

Lemma not_full_before_last p k n :
  (p <= progress_upto k n)%Q -> k < n -> ~ (p == 100)%Q.
Proof.
  intros Hp Hk Heq. apply (Qlt_irrefl 100).
  eapply Qle_lt_trans; [|by apply (progress_upto_lt_100 k n)].
  by rewrite <- Heq.
Qed.

(** New snapshots taken at the current progress extend the trace. *)
Lemma trace_inv_extend base s s' new :
  trace_inv base s ->
  writes (proc s') = writes (proc s) ++ new ->
  (AgentTask.progress (task s) <= AgentTask.progress (task s'))%Q ->
  (0 <= AgentTask.progress (task s'))%Q ->
  Forall (fun w => full_progress_ok w /\ engine_status (AgentTask.status w)
                   /\ AgentTask.progress w = AgentTask.progress (task s'))
         new ->
  trace_inv base s'.
Proof.
  intros (old&Hw&Hold&Hnd) Hw' Hle Hpos Hnew.
  exists (old ++ new). split; [by rewrite Hw', Hw, app_assoc|]. split.
  - apply Forall_app. split.
    + eapply Forall_impl; [exact Hold|]. intros w. by apply snapshot_ok_le.
    + eapply Forall_impl; [exact Hnew|]. intros w (?&?&Hp).
      split; [done|]. split; [done|]. rewrite Hp.
      split; [done | apply Qle_refl].
  - rewrite fmap_app. apply nondecreasing_app; [done|..].
    + apply (nondecreasing_constant (AgentTask.progress (task s'))).
      apply Forall_fmap. eapply Forall_impl; [exact Hnew|].
      by intros w (_&_&?).
    + intros x y Hx Hy.
      apply list_elem_of_fmap in Hx as (w&->&Hw1).
      apply list_elem_of_fmap in Hy as (w2&->&Hw2).
      rewrite Forall_forall in Hold, Hnew.
      destruct (Hold w Hw1) as (_&_&_&Hle1).
      destruct (Hnew w2 Hw2) as (_&_&->). by eapply Qle_trans.
Qed.

Lemma engine_inv_outside_steps base s s' :
  engine_inv base s -> outside_steps s s' -> engine_inv base s'.
Proof.
  intros (Hr&Hf&Hst&Htr) ((Hi&Hp&Hs&Hst')&_&new&Hw&Hnew).
  assert (engine_status (AgentTask.status (task s'))) as Hst2.
  { destruct Hst' as [-> | ?]; done. }
  split; [split|split; [|split]].
  - rewrite Hp. apply Hr.
  - rewrite Hp. apply Hr.
  - unfold full_progress_ok. rewrite Hp, Hs. apply Hf.
  - done.
  - eapply trace_inv_extend; [exact Htr | exact Hw | | |].
    + rewrite Hp. apply Qle_refl.
    + rewrite Hp. apply Hr.
    + eapply Forall_impl; [exact Hnew|].
      intros w (_&Hpw&Hsw&Hstw). split; [|split].
      * unfold full_progress_ok. rewrite Hpw, Hsw. apply Hf.
      * destruct Hstw as [-> | ?]; done.
      * congruence.
Qed.

Lemma loop_inv_outside_steps base n k s s' :
  loop_inv base n k s -> outside_steps s s' -> loop_inv base n k s'.
Proof.
  intros (Hinv&Hlen&Hk&Hdone&Hp) Hout.
  split; [by eapply engine_inv_outside_steps|].
  destruct Hout as ((_&Hp'&Hs&_)&_). rewrite Hs, Hp'. auto.
Qed.

Lemma loop_inv_during_step base n k s s' :
  k < n -> loop_inv base n k s -> during_step k s s' -> loop_inv base n k s'.
Proof.
  intros Hkn ((Hr&Hf&Hst&Htr)&Hlen&Hk&Hdone&Hp)
         ((Hi&Hp'&_&Hlen'&Hs&Hst')&_&new&Hw&Hnew).
  assert (~ (AgentTask.progress (task s) == 100)%Q) as Hnot
    by by eapply not_full_before_last.
  assert (engine_status (AgentTask.status (task s'))) as Hst2.
  { destruct Hst' as [-> | ->]; [done|]. right; by right. }
  split; [split; [split|split; [|split]]|split; [|split; [|split]]].
  - rewrite Hp'. apply Hr.
  - rewrite Hp'. apply Hr.
  - unfold full_progress_ok. rewrite Hp'. by intros ?.
  - done.
  - eapply trace_inv_extend; [exact Htr | exact Hw | | |].
    + rewrite Hp'. apply Qle_refl.
    + rewrite Hp'. apply Hr.
    + eapply Forall_impl; [exact Hnew|].
      intros w (_&Hpw&_&_&_&Hstw). split; [|split].
      * unfold full_progress_ok. rewrite Hpw. by intros ?.
      * destruct Hstw as [-> | ->]; [done|]. right; by right.
      * congruence.
  - congruence.
  - done.
  - intros j Hj. rewrite Hs; [auto | lia].
  - by rewrite Hp'.
Qed.

Lemma loop_inv_advance base n k s st :
  loop_inv base n k s -> k < n ->
  AgentTask.steps (task s) !! k = Some st -> completed st ->
  loop_inv base n (S k)
    {| task := AgentTask.with_progress (progress_after k n) (task s);
       current_step_index := current_step_index s;
       proc := proc s |}.
Proof.
  intros ((Hr&Hf&Hst&Htr)&Hlen&Hk&Hdone&Hp) Hkn Hlook Hst_done.
  rewrite progress_after_upto. replace (k + 1) with (S k) by lia.
  assert (forall j, j < S k -> exists st',
            AgentTask.steps (task s) !! j = Some st' /\ completed st')
    as Hdone'.
  { intros j Hj. destruct (decide (j = k)) as [-> | ?]; [by eauto|].
    apply Hdone. lia. }
  split; [split; [split|split; [|split]]|split; [|split; [|split]]];
    simpl; auto.
  - apply progress_upto_nonneg.
  - apply progress_upto_le_100. lia.
  - unfold full_progress_ok. simpl. intros Hfull.
    assert (S k = n) as <-.
    { destruct (decide (S k = n)); [done|]. exfalso.
      eapply (not_full_before_last _ (S k) n); [apply Qle_refl|lia|done]. }
    split.
    + intros Hnil. rewrite Hnil in Hlen. simpl in Hlen. lia.
    + apply Forall_lookup. intros j x Hx.
      destruct (Hdone' j) as (st'&Hst'&Hc).
      { rewrite <- Hlen. by eapply lookup_lt_Some. }
      congruence.
  - eapply trace_inv_extend with (new := []);
      [exact Htr | by rewrite app_nil_r | simpl.. | done].
    + eapply Qle_trans; [exact Hp|]. apply progress_upto_mono. lia.
    + apply progress_upto_nonneg.
  - apply Qle_refl.
Qed.

Section EngineInvariant.
Context (cls : AgentClass) (env : Env) (Hwb : well_behaved cls env).

Lemma execute_loop_inv base n m : forall k s,
  k + m = n -> loop_inv base n k s ->
  wp (execute_loop cls env (seq k m)) (fun _ s' => engine_inv base s') s.
Proof using Hwb.
  induction m as [|m IH]; intros k s Hkm Hinv; simpl.
  { apply wp_ret, Hinv. }
  wp_step.
  apply wp_bind. eapply wp_mono.
  { apply wp_conj.
    - apply (preserves_wp (during_step k)), execute_step_during_step, Hwb.
    - apply execute_step_ok, Hwb. }
  intros o s1 [Hd Hok].
  assert (loop_inv base n k s1) as Hinv1.
  { eapply loop_inv_during_step; [lia| |exact Hd].
    eapply loop_inv_outside_steps; [exact Hinv|].
    by apply task_kept_with_snapshots; [apply _|]. }
  destruct o as [[]|e]; [|apply Hinv1].
  destruct (Hok eq_refl) as [_ Hdone].
  wp_step.
  destruct Hinv1 as (Hi1&Hlen1&Hrest).
  destruct (lookup_lt_is_Some_2 (AgentTask.steps (task s1)) k) as [st Hst];
    [lia|].
  wp_step. rewrite Hlen1.
  apply wp_bind. apply (wp_preserves outside_steps); [preserve|].
  intros o s3 Hs3.
  assert (loop_inv base n (S k) s3) as Hinv3.
  { eapply loop_inv_outside_steps; [|exact Hs3].
    eapply loop_inv_advance; [by split| lia | exact Hst | by apply Hdone]. }
  destruct o as [[]|e]; [|apply Hinv3].
  wp_step. destruct (decide _); [apply wp_ret, Hinv3|].
  apply IH; [lia|done].
Qed.

Lemma engine_inv_plan base s s' :
  engine_inv base s -> (AgentTask.progress (task s) == 0)%Q ->
  plan_frame s s' ->
  engine_inv base s' /\ (AgentTask.progress (task s') == 0)%Q.
Proof.
  intros (Hr&Hf&Hst&Htr) Hzero (Hi&Hst'&Hp&_&_&_&Hw).
  split; [|by rewrite Hp]. split; [split|split; [|split]].
  - rewrite Hp. apply Hr.
  - rewrite Hp. apply Hr.
  - unfold full_progress_ok. rewrite Hp, Hzero. intros Habs. by exfalso.
  - by rewrite Hst'.
  - eapply trace_inv_extend with (new := []);
      [exact Htr | by rewrite app_nil_r, Hw | | | done].
    + rewrite Hp. apply Qle_refl.
    + rewrite Hp. apply Hr.
Qed.

(** Whatever happens, [execute] keeps the invariant. *)
Lemma execute_inv base s :
  writes (proc s) = base -> (AgentTask.progress (task s) == 0)%Q ->
  wp (execute cls env) (fun _ s' => engine_inv base s') s.
Proof using Hwb.
  intros Hbase Hzero. unfold execute.
  pose proof (finalize_in_frame _ _ Hwb) as Hfin.
  apply wp_try.
  eapply wp_mono with (Q := fun _ s' => engine_inv base s').
  2:{ intros [[]|e] s' Hinv; [done|].
      apply (wp_preserves outside_steps).
      - preserve. apply status_outside_steps. right; by right.
      - intros _ s'' Hout. by eapply engine_inv_outside_steps. }
  wp_step.
  match goal with |- wp _ _ ?s1 => set (s1' := s1) end.
  assert (engine_inv base s1') as Hinv1.
  { split; [split|split; [|split]]; simpl.
    - by rewrite Hzero.
    - by rewrite Hzero.
    - unfold full_progress_ok. simpl. rewrite Hzero. intros Habs. by exfalso.
    - by left.
    - exists []. rewrite app_nil_r. split; [done|]. split; [done|].
      apply nondecreasing_nil. }
  apply wp_bind. apply (wp_preserves outside_steps); [preserve|].
  intros o s2 Hs2.
  assert (engine_inv base s2) as Hinv2 by by eapply engine_inv_outside_steps.
  assert (AgentTask.progress (task s2) == 0)%Q as Hzero2.
  { destruct Hs2 as ((_&->&_)&_). done. }
  destruct o as [[]|e]; [|done].
  apply wp_bind. apply (wp_preserves plan_frame); [apply Hwb|].
  intros o s3 Hs3.
  destruct (engine_inv_plan base s2 s3 Hinv2 Hzero2 Hs3) as [Hinv3 Hzero3].
  destruct o as [[]|e]; [|done].
  wp_step.
  apply wp_bind. eapply wp_mono.
  { apply (execute_loop_inv base (length (AgentTask.steps (task s3)))
             (length (AgentTask.steps (task s3))) 0); [done|].
    split; [done|]. split; [done|]. split; [lia|].
    split; [intros j Hj; lia|].
    rewrite Hzero3. apply progress_upto_nonneg. }
  intros o s4 Hinv4. destruct o as [[]|e]; [|done].
  apply (wp_preserves outside_steps).
  - preserve.
    + apply status_outside_steps. right; by left.
    + eapply preserves_weaken; [apply finalize_frame_outside_steps|done].
  - intros _ s5 Hout. by eapply engine_inv_outside_steps.
Qed.

End EngineInvariant.

(* ================================================================== *)
(** ** FeatureImplementerAgent stays within the frames                 *)
(* ================================================================== *)

Lemma set_steps_plan_frame steps :
  preserves plan_frame (modify_task (AgentTask.with_steps steps)).
Proof. intros s. unfold plan_frame, same_identity. simpl. tauto. Qed.

Lemma set_result_finalize_frame r :
  preserves finalize_frame (modify_task (AgentTask.with_result r)).
Proof. intros s. unfold finalize_frame, same_identity. simpl. tauto. Qed.

Lemma record_call_kept c :
  preserves task_kept (modify_proc (fun p => with_calls (calls p ++ [c]) p)).
Proof. by intros s. Qed.

#[local] Hint Resolve set_steps_plan_frame set_result_finalize_frame
  record_call_kept : engine.

Lemma FeatureImplementerAgent_well_behaved env :
  well_behaved FeatureImplementerAgent env.
Proof.
  split; simpl.
  - unfold FeatureImplementerAgent_generate_plan, get_project_files,
      file_paths, call_ai_service. preserve.
  - intros i. unfold FeatureImplementerAgent_execute_step_logic,
      analyze_requirements, design_implementation, implement_feature,
      generate_tests, update_documentation, run_handler. preserve.
  - intros i. unfold FeatureImplementerAgent_execute_step_logic,
      analyze_requirements, design_implementation, implement_feature,
      generate_tests, update_documentation, run_handler. preserve.
  - unfold FeatureImplementerAgent_finalize_task, sum_outputs. preserve.
Qed.

(* ================================================================== *)
(** ** A submission, from the request to the end of the background task *)
(* ================================================================== *)

(** What the stored snapshots of a submission look like. *)
Lemma submit_trace env uuid request p :
  let final := snd (submit env uuid request p) in
  in_range (AgentTask.progress (task final))
  /\ exists new, writes (proc final) = writes p ++ new
     /\ Forall (fun w => in_range (AgentTask.progress w)
                         /\ full_progress_ok w
                         /\ ((AgentTask.progress w == 100)%Q ->
                             engine_status (AgentTask.status w))) new
     /\ nondecreasing (AgentTask.progress <$> new).
Proof.
  unfold submit, create_agent_task, execute_agent_task, create_agent. simpl.
  set (k0 := AgentTask.mk uuid _ _ _ _ _ _ _ _ _).
  assert (exists first, writes (store (task_key uuid) k0 p) = writes p ++ first
            /\ Forall (fun w => AgentTask.progress w = 0%Q) first)
    as (first&Hfirst&Hzero).
  { unfold store. destruct (redis_client p); simpl.
    - exists [k0]. split; [done|]. by apply Forall_singleton.
    - exists []. by rewrite app_nil_r. }
  assert (Forall (fun w => in_range (AgentTask.progress w)
                         /\ full_progress_ok w
                         /\ ((AgentTask.progress w == 100)%Q ->
                             engine_status (AgentTask.status w))) first)
    as Hfirst_ok.
  { eapply Forall_impl; [exact Hzero|]. intros w Hw.
    unfold in_range, full_progress_ok. rewrite Hw.
    split; [done|]. split; intros Habs; by exfalso. }
  assert (nondecreasing (AgentTask.progress <$> first)) as Hfirst_nd.
  { apply (nondecreasing_constant 0%Q). by apply Forall_fmap. }
  destruct (decide (req_agent_type request = AgentType.FEATURE_IMPLEMENTER))
    as [Hty|Hty]; simpl.
  2:{ split; [done|]. exists first. by rewrite Hfirst. }
  pose proof (execute_inv FeatureImplementerAgent env
                (FeatureImplementerAgent_well_behaved env)
                (writes (store (task_key uuid) k0 p))
                (BaseAgent_init k0 (store (task_key uuid) k0 p))
                eq_refl (Qeq_refl 0)) as Hinv.
  unfold wp in Hinv.
  destruct (execute FeatureImplementerAgent env _) as [o s'].
  simpl in Hinv.
  enough (forall final, task final = task s' ->
            writes (proc final) = writes (proc s') ->
            in_range (AgentTask.progress (task final))
            /\ exists new, writes (proc final) = writes p ++ new
               /\ Forall (fun w => in_range (AgentTask.progress w)
                                   /\ full_progress_ok w
                                   /\ ((AgentTask.progress w == 100)%Q ->
                                       engine_status (AgentTask.status w)))
                         new
               /\ nondecreasing (AgentTask.progress <$> new)) as Hgen
    by (destruct o; by apply Hgen).
  intros final -> ->.
  destruct Hinv as (Hr&_&_&new&Hw&Hnew&Hnd).
  split; [done|]. exists (first ++ new).
  split; [by rewrite Hw, Hfirst, app_assoc|]. split.
  - apply Forall_app. split; [done|].
    eapply Forall_impl; [exact Hnew|]. intros w (Hf&Hst&Hpos&Hle).
    split; [|by split]. split; [done|].
    eapply Qle_trans; [exact Hle | apply Hr].
  - rewrite fmap_app. apply nondecreasing_app; [done..|].
    intros x y Hx Hy.
    apply list_elem_of_fmap in Hx as (w&->&Hw1).
    apply list_elem_of_fmap in Hy as (w2&->&Hw2).
    rewrite Forall_forall in Hzero, Hnew.
    rewrite (Hzero w Hw1). apply (Hnew w2 Hw2).
Qed.

(** C7.  Through a submission and the execution that follows, for every
    environment: the progress of the task is between 0 and 100 at the
    end and in every snapshot stored, and from one stored snapshot to the
    next it never decreases. *)
Theorem progress_in_range_and_nondecreasing (env : Env) (uuid : string)
    (request : CreateAgentTaskRequest) (p : Process) :
  let final := snd (submit env uuid request p) in
  in_range (AgentTask.progress (task final))
  /\ exists new, writes (proc final) = writes p ++ new
     /\ Forall (fun w => in_range (AgentTask.progress w)) new
     /\ nondecreasing (AgentTask.progress <$> new).
Proof.
  destruct (submit_trace env uuid request p) as (Hr&new&Hw&Hnew&Hnd).
  split; [done|]. exists new. split; [done|]. split; [|done].
  eapply Forall_impl; [exact Hnew|]. by intros w (?&_).
Qed.

(** C6, as amended.  In every snapshot stored through a submission and
    the execution that follows, progress is exactly 100 only if the plan
    is not empty and every step is COMPLETED; the status of such a
    snapshot is RUNNING, COMPLETED or FAILED. *)
Theorem full_progress_only_after_last_step (env : Env) (uuid : string)
    (request : CreateAgentTaskRequest) (p : Process) :
  let final := snd (submit env uuid request p) in
  exists new, writes (proc final) = writes p ++ new
    /\ Forall (fun w =>
         (AgentTask.progress w == 100)%Q ->
         AgentTask.steps w <> []
         /\ Forall completed (AgentTask.steps w)
         /\ engine_status (AgentTask.status w)) new.
Proof.
  destruct (submit_trace env uuid request p) as (_&new&Hw&Hnew&_).
  exists new. split; [done|].
  eapply Forall_impl; [exact Hnew|]. intros w (_&Hf&Hst) Hfull.
  destruct (Hf Hfull). auto.
Qed.

(* ================================================================== *)
(** ** How an execution ends                                           *)
(* ================================================================== *)

#[global] Instance carried_preorder : PreOrder carried.
Proof.
  split; [by intros s|].
  intros s1 s2 s3 (?&?&?) (?&?&?). split; [congruence|]. split; [congruence|].
  auto.
Qed.

Lemma kept_carried {A} (m : M A) : preserves task_kept m -> preserves carried m.
Proof.
  apply preserves_weaken. intros s s' (Ht&Hr&_).
  unfold carried. by rewrite Ht, Hr.
Qed.


Lemma plan_frame_carried {A} (m : M A) :
  preserves plan_frame m -> preserves carried m.
Proof.
  apply preserves_weaken. intros s s' ((Hid&_)&_&_&Hr&_&Hc&_).
  split; [done|]. split; [done|]. by rewrite Hc.
Qed.

Lemma save_task_carried env : preserves carried (save_task env).
Proof.
  intros s. destruct (save_task_spec env s) as (Ht&_&Ha&_).
  unfold carried. rewrite Ht. split; [done|]. split; [done|]. apply Ha.
Qed.

Lemma set_status_carried st :
  preserves carried (modify_task (AgentTask.with_status st)).
Proof. by intros s. Qed.

Lemma set_progress_carried q :
  preserves carried (modify_task (AgentTask.with_progress q)).
Proof. by intros s. Qed.

Lemma set_error_message_carried v :
  preserves carried (modify_task (AgentTask.with_error_message v)).
Proof. by intros s. Qed.

Lemma set_progress_quiet q :
  preserves quiet (modify_task (AgentTask.with_progress q)).
Proof. by intros s. Qed.

#[local] Hint Resolve kept_carried save_task_carried set_status_carried
  set_progress_carried set_error_message_carried set_progress_quiet : engine.

(** With a healthy store, [save_task] returns and the store then holds
    the task of the agent. *)
Lemma save_task_stores env s :
  store_ok env -> is_Some (redis_client (proc s)) ->
  fst (save_task env s) = Ok tt /\ stored (snd (save_task env s)).
Proof.
  intros Hok [db Hdb]. unfold stored.
  destruct (save_task_spec env s) as (Ht&_&_&Hw&_). rewrite Ht.
  destruct Hw as [[_ Hno]|[(_&?&?)|(Hnone&_)]]; [|done|congruence].
  exfalso. apply Hno. unfold save_task, redis_setex.
  by rewrite Hdb, (Hok _).
Qed.

Section EngineEnd.
Context (cls : AgentClass) (env : Env) (Hwb : well_behaved cls env).




End EngineEnd.


Lemma FeatureImplementerAgent_finalize_task_spec s :
  wp FeatureImplementerAgent_finalize_task
     (fun o s' => match o with
                  | Ok _ => AgentTask.result (task s') <> ∅
                            /\ finalize_frame s s'
                  | Raise _ => s' = s
                  end) s.
Proof.
  unfold FeatureImplementerAgent_finalize_task, sum_outputs.
  wp_step.
  repeat (apply wp_bind;
          match goal with
          | |- wp (match ?x with _ => _ end) _ _ =>
              destruct x; [done|apply wp_ret]
          end).
  wp_step. apply wp_modify_task. split.
  - simpl. apply insert_non_empty.
  - unfold finalize_frame, same_identity. simpl. tauto.
Qed.




(* ================================================================== *)
(** ** Running a step on a healthy store                               *)
(* ================================================================== *)

Lemma save_task_eq env s :
  store_ok env ->
  save_task env s
  = (Ok tt, {| task := task s; current_step_index := current_step_index s;
               proc := saved env (task s) (proc s) |}).
Proof.
  intros Hok. unfold saved, save_task, redis_setex. simpl.
  destruct (redis_client (proc s)); [|by destruct s].
  by rewrite (Hok _).
Qed.

Lemma broadcast_update_eq env s :
  broadcast_update env s
  = (Ok tt, {| task := task s; current_step_index := current_step_index s;
               proc := broadcasted env (task s) (proc s) |}).
Proof.
  unfold broadcasted, broadcast_update. simpl.
  destruct (active_connections (proc s) !! _); [|by destruct s].
  unfold try_except, send_text. simpl. by destruct (ws_fault env _).
Qed.

Lemma wp_save_task_eq env (Q : outcome unit -> Agent -> Prop) s :
  store_ok env ->
  Q (Ok tt) {| task := task s; current_step_index := current_step_index s;
               proc := saved env (task s) (proc s) |} ->
  wp (save_task env) Q s.
Proof. intros Hok HQ. unfold wp. by rewrite save_task_eq. Qed.

Lemma wp_broadcast_update_eq env (Q : outcome unit -> Agent -> Prop) s :
  Q (Ok tt) {| task := task s; current_step_index := current_step_index s;
               proc := broadcasted env (task s) (proc s) |} ->
  wp (broadcast_update env) Q s.
Proof. intros HQ. unfold wp. by rewrite broadcast_update_eq. Qed.

Lemma saved_spec env t p :
  calls (saved env t p) = calls p
  /\ slept (saved env t p) = slept p
  /\ log (saved env t p) = log p
  /\ (is_Some (redis_client p) -> is_Some (redis_client (saved env t p))).
Proof.
  unfold saved.
  pose proof (save_task_spec env
                {| task := t; current_step_index := 0; proc := p |}) as H.
  simpl in H. destruct H as (_&_&Ha&_&_&_&_&Hl&Hc&Hs).
  split; [done|]. split; [done|]. split; [done|]. apply Ha.
Qed.

Lemma saved_calls env t p : calls (saved env t p) = calls p.
Proof. apply saved_spec. Qed.

Lemma saved_slept env t p : slept (saved env t p) = slept p.
Proof. apply saved_spec. Qed.

Lemma saved_log env t p : log (saved env t p) = log p.
Proof. apply saved_spec. Qed.

Lemma saved_alive env t p :
  is_Some (redis_client p) -> is_Some (redis_client (saved env t p)).
Proof. apply saved_spec. Qed.

Lemma saved_stored env t p :
  store_ok env -> is_Some (redis_client p) ->
  get_agent_task (AgentTask.id t) (saved env t p) = Response t.
Proof.
  intros Hok Ha. unfold saved.
  destruct (save_task_stores env
              {| task := t; current_step_index := 0; proc := p |} Hok Ha)
    as [_ Hst].
  pose proof (save_task_spec env
                {| task := t; current_step_index := 0; proc := p |}) as H.
  simpl in H. destruct H as (Ht&_).
  unfold stored in Hst. by rewrite Ht in Hst.
Qed.

Lemma broadcasted_calls env t p : calls (broadcasted env t p) = calls p.
Proof.
  unfold broadcasted, broadcast_update. simpl.
  destruct (active_connections p !! _); [|done].
  unfold try_except, send_text. simpl. by destruct (ws_fault env _).
Qed.

Lemma broadcasted_slept env t p : slept (broadcasted env t p) = slept p.
Proof.
  unfold broadcasted, broadcast_update. simpl.
  destruct (active_connections p !! _); [|done].
  unfold try_except, send_text. simpl. by destruct (ws_fault env _).
Qed.

Lemma broadcasted_redis env t p :
  redis_client (broadcasted env t p) = redis_client p.
Proof.
  unfold broadcasted, broadcast_update. simpl.
  destruct (active_connections p !! _); [|done].
  unfold try_except, send_text. simpl. by destruct (ws_fault env _).
Qed.

Lemma broadcasted_log env t p x :
  x ∈ log p -> x ∈ log (broadcasted env t p).
Proof.
  unfold broadcasted, broadcast_update. simpl.
  destruct (active_connections p !! _); [|done].
  unfold try_except, send_text. simpl.
  destruct (ws_fault env _); simpl; [|done].
  intros Hx. apply elem_of_app. by left.
Qed.

Lemma unknown_type_tests ty :
  ty ∉ known_step_types ->
  String.eqb ty "analysis" = false /\ String.eqb ty "design" = false
  /\ String.eqb ty "implementation" = false /\ String.eqb ty "testing" = false
  /\ String.eqb ty "documentation" = false.
Proof.
  unfold known_step_types. rewrite !not_elem_of_cons.
  intros (?&?&?&?&?&_). by rewrite !String.eqb_neq.
Qed.

Lemma known_type_handler env ty n i s :
  ty ∈ known_step_types ->
  (if String.eqb ty "analysis" then analyze_requirements env n i
   else if String.eqb ty "design" then design_implementation env n i
   else if String.eqb ty "implementation" then implement_feature env n i
   else if String.eqb ty "testing" then generate_tests env n i
   else if String.eqb ty "documentation" then update_documentation env n i
   else logger ("Unknown step type: " +:+ ty)) s
  = run_handler env ty n i s.
Proof.
  unfold known_step_types. rewrite !elem_of_cons, elem_of_nil.
  intros [->|[->|[->|[->|[->|[]]]]]]; reflexivity.
Qed.

Lemma wp_save_task_healthy env (Q : outcome unit -> Agent -> Prop) s :
  store_ok env ->
  (forall p',
     calls p' = calls (proc s) -> slept p' = slept (proc s) ->
     log p' = log (proc s) ->
     (is_Some (redis_client (proc s)) ->
      is_Some (redis_client p')
      /\ get_agent_task (AgentTask.id (task s)) p' = Response (task s)) ->
     Q (Ok tt) {| task := task s; current_step_index := current_step_index s;
                  proc := p' |}) ->
  wp (save_task env) Q s.
Proof.
  intros Hok HQ. apply wp_save_task_eq; [done|]. apply HQ.
  - apply saved_calls.
  - apply saved_slept.
  - apply saved_log.
  - intros Ha. split; [by apply saved_alive | by apply saved_stored].
Qed.

Lemma wp_broadcast_update_any env (Q : outcome unit -> Agent -> Prop) s :
  (forall p',
     calls p' = calls (proc s) -> slept p' = slept (proc s) ->
     (forall x, x ∈ log (proc s) -> x ∈ log p') ->
     redis_client p' = redis_client (proc s) ->
     Q (Ok tt) {| task := task s; current_step_index := current_step_index s;
                  proc := p' |}) ->
  wp (broadcast_update env) Q s.
Proof.
  intros HQ. apply wp_broadcast_update_eq. apply HQ.
  - apply broadcasted_calls.
  - apply broadcasted_slept.
  - apply broadcasted_log.
  - apply broadcasted_redis.
Qed.

Lemma wp_logic_unknown env i (Q : outcome unit -> Agent -> Prop) s st :
  step_at i s = st ->
  AgentStep.type st ∉ known_step_types ->
  Q (Ok tt)
    {| task := task s; current_step_index := current_step_index s;
       proc := with_log (log (proc s)
                         ++ ["Unknown step type: " +:+ AgentStep.type st])
                 (with_calls (calls (proc s) ++ [AgentStep.id st]) (proc s)) |} ->
  wp (FeatureImplementerAgent_execute_step_logic env i) Q s.
Proof.
  intros <- Hty HQ. unfold FeatureImplementerAgent_execute_step_logic.
  do 3 wp_step.
  destruct (unknown_type_tests _ Hty) as (->&->&->&->&->).
  by apply wp_logger.
Qed.

Lemma wp_logic_known env i (Q : outcome unit -> Agent -> Prop) s st :
  step_at i s = st ->
  AgentStep.type st ∈ known_step_types ->
  match step_handler env (AgentStep.type st) (length (calls (proc s))) with
  | inl e =>
      Q (Raise e)
        {| task := task s; current_step_index := current_step_index s;
           proc := with_calls (calls (proc s) ++ [AgentStep.id st]) (proc s) |}
  | inr out =>
      Q (Ok tt)
        {| task := AgentTask.with_steps
                     (alter (AgentStep.with_output_data out) i
                        (AgentTask.steps (task s))) (task s);
           current_step_index := current_step_index s;
           proc := with_calls (calls (proc s) ++ [AgentStep.id st]) (proc s) |}
  end ->
  wp (FeatureImplementerAgent_execute_step_logic env i) Q s.
Proof.
  intros <- Hty HQ. unfold FeatureImplementerAgent_execute_step_logic.
  do 3 wp_step. unfold wp. rewrite (known_type_handler _ _ _ _ _ Hty).
  unfold run_handler.
  by destruct (step_handler env _ _).
Qed.

Ltac sym_step :=
  first
    [ wp_step
    | apply wp_bind;
      lazymatch goal with
      | |- wp (save_task _) _ _ =>
          apply wp_save_task_healthy; [assumption|];
          let p := fresh "p" in
          let Hc := fresh "Hcalls" in
          let Hs := fresh "Hslept" in
          let Hl := fresh "Hlog" in
          let Hr := fresh "Hredis" in
          intros p Hc Hs Hl Hr
      | |- wp (broadcast_update _) _ _ =>
          apply wp_broadcast_update_any;
          let p := fresh "p" in
          let Hc := fresh "Hcalls" in
          let Hs := fresh "Hslept" in
          let Hl := fresh "Hlog" in
          let Hr := fresh "Hredis" in
          intros p Hc Hs Hl Hr
      end;
      cbn [task current_step_index proc] in * ].

Lemma wp_eq {A} (m : M A) (Q : outcome A -> Agent -> Prop) s :
  wp m Q s -> exists o s', m s = (o, s') /\ Q o s'.
Proof. unfold wp. destruct (m s) as [o s']. eauto. Qed.

Lemma step_at_lookup i s st :
  AgentTask.steps (task s) !! i = Some st -> step_at i s = st.
Proof. unfold step_at. by intros ->. Qed.

Lemma alter_as_insert {A} (f : A -> A) i (l : list A) x :
  l !! i = Some x -> alter f i l = <[i := f x]> l.
Proof.
  revert i. induction l as [|y l IH]; intros [|i] Hx; simplify_eq/=; [done|].
  f_equal. by apply IH.
Qed.

Lemma wp_execute_step cls env i (Q : outcome unit -> Agent -> Prop) s :
  wp (execute_step_rec cls env (S (retries_left i s)) i) Q s ->
  wp (execute_step cls env i) Q s.
Proof. done. Qed.

Lemma execute_step_unknown env i s st :
  store_ok env ->
  AgentTask.steps (task s) !! i = Some st ->
  AgentStep.type st ∉ known_step_types ->
  wp (execute_step FeatureImplementerAgent env i)
     (fun o s' =>
        o = Ok tt
        /\ task s'
           = AgentTask.with_steps
               (<[i := AgentStep.with_status StepStatus.COMPLETED st]>
                  (AgentTask.steps (task s))) (task s)
        /\ calls (proc s') = calls (proc s) ++ [AgentStep.id st]
        /\ slept (proc s') = slept (proc s)
        /\ ("Unknown step type: " +:+ AgentStep.type st) ∈ log (proc s'))
     s.
Proof.
  intros Hok Hst Hty. apply wp_execute_step. cbn [execute_step_rec].
  apply wp_try. do 3 sym_step.
  apply wp_bind.
  apply (wp_logic_unknown _ _ _ _
           (AgentStep.with_status StepStatus.RUNNING st)); [|done|].
  { unfold step_at. simpl. by rewrite list_lookup_alter_eq, Hst. }
  cbn [task current_step_index proc].
  do 2 sym_step. apply wp_broadcast_update_any.
  intros p3 Hc3 Hs3 Hl3 Hr3. cbn [task current_step_index proc] in *.
  split; [done|]. split; [|split; [|split]].
  - simpl. f_equal. rewrite list_alter_alter_eq.
    by rewrite (alter_as_insert _ _ _ _ Hst).
  - rewrite Hc3, Hcalls1. simpl. by rewrite Hcalls0, Hcalls.
  - rewrite Hs3, Hslept1. simpl. by rewrite Hslept0, Hslept.
  - apply Hl3. rewrite Hlog1. simpl. apply elem_of_app. right.
    by apply list_elem_of_singleton.
Qed.

(** C8.  On a store that does not fail, a turn of the loop of [execute]
    on a step whose type tag matches no branch of [execute_step_logic]:
    the step is marked COMPLETED and nothing else of it changes (no
    retry, no error message), no handler is run, the unknown type is
    logged, the status and error message of the task are untouched, the
    progress becomes [((i + 1) / len) * 100], and the loop goes on with
    the remaining steps. *)
Theorem unknown_step_type_is_a_no_op_success (env : Env) (i : nat)
    (rest : list nat) (s : Agent) (st : AgentStep.t) :
  store_ok env ->
  AgentTask.steps (task s) !! i = Some st ->
  AgentStep.type st ∉ known_step_types ->
  exists s1,
    execute_loop FeatureImplementerAgent env (i :: rest) s
    = (if decide (AgentTask.status (task s) = AgentStatus.CANCELLED)
       then (Ok tt, s1)
       else execute_loop FeatureImplementerAgent env rest s1)
    /\ AgentTask.steps (task s1)
       = <[i := AgentStep.with_status StepStatus.COMPLETED st]>
           (AgentTask.steps (task s))
    /\ AgentTask.status (task s1) = AgentTask.status (task s)
    /\ AgentTask.error_message (task s1) = AgentTask.error_message (task s)
    /\ AgentTask.progress (task s1)
       = progress_after i (length (AgentTask.steps (task s)))
    /\ calls (proc s1) = calls (proc s) ++ [AgentStep.id st]
    /\ slept (proc s1) = slept (proc s)
    /\ ("Unknown step type: " +:+ AgentStep.type st) ∈ log (proc s1).
Proof.
  intros Hok Hst Hty. cbn [execute_loop].
  rewrite bind_eq. cbn [set_current_step_index].
  rewrite bind_eq.
  destruct (wp_eq _ _ _ (execute_step_unknown env i
              {| task := task s; current_step_index := i; proc := proc s |}
              st Hok Hst Hty))
    as (o&s1&Heq&->&Ht1&Hc1&Hs1&Hl1).
  rewrite Heq. cbn [task proc] in *.
  rewrite bind_eq. cbn [gets]. rewrite bind_eq. cbn [modify_task].
  rewrite bind_eq, (save_task_eq _ _ Hok). cbn [task current_step_index proc].
  rewrite bind_eq. cbn [gets task]. rewrite Ht1.
  eexists. split.
  { simpl.
    destruct (decide (AgentTask.status (task s) = AgentStatus.CANCELLED));
      reflexivity. }
  simpl. rewrite length_insert, saved_calls, saved_slept, saved_log.
  repeat split; auto.
Qed.

Lemma unknown_step_type_is_a_no_op_success_witness :
  let s0 :=
    BaseAgent_init
      (AgentTask.mk "t1" "proj" AgentType.FEATURE_IMPLEMENTER "Add login"
         "Add a login page" AgentStatus.RUNNING 0%Q
         [AgentStep.new "step_0" "Deploy" "ship it" "deployment" []] ∅ None)
      Scenario.process in
  exists s1,
    execute_loop FeatureImplementerAgent Scenario.healthy [0%nat] s0
    = (Ok tt, s1)
    /\ AgentStep.status <$> AgentTask.steps (task s1)
       = [StepStatus.COMPLETED]
    /\ AgentTask.status (task s1) = AgentStatus.RUNNING
    /\ (AgentTask.progress (task s1) == 100)%Q.
Proof.
  intros s0.
  destruct (unknown_step_type_is_a_no_op_success Scenario.healthy 0 [] s0
              (AgentStep.new "step_0" "Deploy" "ship it" "deployment" []))
    as (s1&Heq&Hsteps&Hst&_&Hp&_).
  - intros n. reflexivity.
  - reflexivity.
  - unfold known_step_types. simpl. rewrite !not_elem_of_cons.
    repeat split; try discriminate. apply not_elem_of_nil.
  - exists s1. split; [exact Heq|]. split; [by rewrite Hsteps|].
    split; [exact Hst|]. rewrite Hp. reflexivity.
Defined.

Ltac norm :=
  cbn [task current_step_index proc
       AgentTask.id AgentTask.project_id AgentTask.agent_type AgentTask.title
       AgentTask.description AgentTask.status AgentTask.progress
       AgentTask.steps AgentTask.result AgentTask.error_message
       AgentTask.with_status AgentTask.with_progress AgentTask.with_steps
       AgentTask.with_result AgentTask.with_error_message
       AgentStep.id AgentStep.name AgentStep.description AgentStep.type
       AgentStep.status AgentStep.output_data AgentStep.error_message
       AgentStep.dependencies AgentStep.retry_count AgentStep.max_retries
       AgentStep.with_status AgentStep.with_output_data
       AgentStep.with_error_message AgentStep.with_retry_count
       redis_client redis_ops writes active_connections ws_ops sent log
       calls slept with_redis with_writes with_ws with_connections with_log
       with_calls with_slept] in *.

Lemma step_at_alter i f t c p st :
  AgentTask.steps t !! i = Some st ->
  step_at i {| task := AgentTask.with_steps (alter f i (AgentTask.steps t)) t;
               current_step_index := c; proc := p |} = f st.
Proof. intros Hst. unfold step_at. simpl. by rewrite list_lookup_alter_eq, Hst. Qed.

Lemma execute_step_rec_always_fails env i (err : nat -> string) :
  store_ok env ->
  forall r s st,
    AgentTask.steps (task s) !! i = Some st ->
    AgentStep.type st ∈ known_step_types ->
    (forall n, step_handler env (AgentStep.type st) n = inl (err n)) ->
    (AgentStep.max_retries st - AgentStep.retry_count st = Z.of_nat r)%Z ->
    wp (execute_step_rec FeatureImplementerAgent env (S r) i)
       (fun o s' =>
          let e := err (length (calls (proc s)) + r) in
          o = Raise e
          /\ task s' = failed_task i st e (task s)
          /\ calls (proc s') = calls (proc s) ++ replicate (S r) (AgentStep.id st)
          /\ (is_Some (redis_client (proc s)) ->
              get_agent_task (AgentTask.id (task s)) (proc s')
              = Response (task s')))
       s.
Proof.
  intros Hok. induction r as [|r IH]; intros s st Hst Hty Herr Hr;
    cbn [execute_step_rec].
  - apply wp_try. do 3 sym_step. apply wp_bind.
    apply (wp_logic_known _ _ _ _
             (AgentStep.with_status StepStatus.RUNNING st)); [|done|].
    { by apply step_at_alter. }
    norm. rewrite Herr, Hcalls0, Hcalls. norm.
    do 4 sym_step.
    erewrite !(step_at_lookup i);
      [|norm; rewrite !list_lookup_alter_eq, Hst;
        cbn [fmap option_fmap option_map]; reflexivity].
    norm.
    assert ((AgentStep.retry_count st <? AgentStep.max_retries st)%Z = false)
      as -> by lia.
    do 3 sym_step. apply wp_bind, wp_broadcast_update_any.
    intros p2 Hc2 Hs2 Hl2 Hr2. norm. apply wp_raise. norm.
    rewrite Nat.add_0_r.
    split; [done|]. split; [|split].
    + unfold failed_task, failed_step. f_equal.
      rewrite !list_alter_alter_eq, (alter_as_insert _ _ _ _ Hst). simpl.
      do 2 f_equal. lia.
    + by rewrite Hc2, Hcalls1.
    + intros Ha. destruct (Hredis Ha) as [Ha1 _].
      rewrite <- Hredis0 in Ha1. destruct (Hredis1 Ha1) as [_ Hget].
      rewrite <- Hget. unfold get_agent_task. by rewrite Hr2.
  - apply wp_try. do 3 sym_step. apply wp_bind.
    apply (wp_logic_known _ _ _ _
             (AgentStep.with_status StepStatus.RUNNING st)); [|done|].
    { by apply step_at_alter. }
    norm. rewrite Herr, Hcalls0, Hcalls. norm.
    do 4 sym_step.
    erewrite !(step_at_lookup i);
      [|norm; rewrite !list_lookup_alter_eq, Hst;
        cbn [fmap option_fmap option_map]; reflexivity].
    norm.
    assert ((AgentStep.retry_count st <? AgentStep.max_retries st)%Z = true)
      as -> by lia.
    do 5 sym_step.
    eapply wp_mono.
    { eapply (IH _ (AgentStep.mk (AgentStep.id st) (AgentStep.name st)
                      (AgentStep.description st) (AgentStep.type st)
                      StepStatus.PENDING (AgentStep.output_data st) None
                      (AgentStep.dependencies st)
                      (AgentStep.retry_count st + 1)
                      (AgentStep.max_retries st))); norm.
      - by rewrite !list_lookup_alter_eq, Hst.
      - done.
      - done.
      - lia. }
    norm. intros o s' (->&Ht&Hc&Hg).
    rewrite length_app in *. simpl length in *.
    replace (length (calls (proc s)) + 1 + r)
      with (length (calls (proc s)) + S r) in * by lia.
    split; [done|]. split; [|split].
    + rewrite Ht. unfold failed_task, failed_step. norm. f_equal.
      rewrite !list_alter_alter_eq, (alter_as_insert _ _ _ _ Hst).
      by rewrite list_insert_insert_eq.
    + rewrite Hc. by rewrite <- app_assoc.
    + intros Ha. apply Hg. destruct (Hredis Ha) as [Ha1 _].
      by rewrite Hredis0.
Qed.

(** C3.  On a store that does not fail, a fresh step (retry count 0,
    [max_retries] not negative) of a known type whose handler raises at
    every call: [execute_step] calls [execute_step_logic] for it
    [1 + max_retries] times, no more and no less, and then raises the
    last exception with the task marked FAILED, its error message being
    ["Step <name> failed: <exception>"], the step itself FAILED with its
    retry count at [max_retries]; that is the snapshot the store then
    holds. *)
Theorem failing_step_is_retried_then_fails_the_task (env : Env) (i : nat)
    (s : Agent) (st : AgentStep.t) (err : nat -> string) :
  store_ok env ->
  AgentTask.steps (task s) !! i = Some st ->
  AgentStep.retry_count st = 0%Z ->
  (0 <= AgentStep.max_retries st)%Z ->
  AgentStep.type st ∈ known_step_types ->
  (forall n, step_handler env (AgentStep.type st) n = inl (err n)) ->
  let m := Z.to_nat (AgentStep.max_retries st) in
  let e := err (length (calls (proc s)) + m) in
  exists s',
    execute_step FeatureImplementerAgent env i s = (Raise e, s')
    /\ calls (proc s') = calls (proc s) ++ replicate (1 + m) (AgentStep.id st)
    /\ task s' = failed_task i st e (task s)
    /\ AgentTask.status (task s') = AgentStatus.FAILED
    /\ AgentTask.error_message (task s')
       = Some ("Step " +:+ AgentStep.name st +:+ " failed: " +:+ e)
    /\ (is_Some (redis_client (proc s)) ->
        get_agent_task (AgentTask.id (task s)) (proc s') = Response (task s')).
Proof.
  intros Hok Hst Hrc Hmax Hty Herr m e.
  assert (retries_left i s = m) as Hleft.
  { unfold retries_left. rewrite (step_at_lookup _ _ _ Hst), Hrc.
    by rewrite Z.sub_0_r. }
  destruct (wp_eq _ _ _ (execute_step_rec_always_fails env i err Hok m s st
              Hst Hty Herr ltac:(subst m; lia)))
    as (o&s'&Heq&->&Ht&Hc&Hg).
  exists s'. unfold execute_step. rewrite Hleft.
  split; [exact Heq|]. split; [exact Hc|]. split; [exact Ht|].
  split; [by rewrite Ht|]. split; [by rewrite Ht | exact Hg].
Qed.

Lemma failing_step_is_retried_then_fails_the_task_witness :
  let s0 :=
    BaseAgent_init
      (AgentTask.mk "t1" "proj" AgentType.FEATURE_IMPLEMENTER "Add login"
         "Add a login page" AgentStatus.RUNNING 0%Q
         [AgentStep.new "step_0" "Analyze" "look at the code" "analysis" []]
         ∅ None)
      Scenario.process in
  exists s',
    execute_step FeatureImplementerAgent Scenario.handlers_fail 0 s0
    = (Raise "boom 3", s')
    /\ calls (proc s') = ["step_0"; "step_0"; "step_0"; "step_0"]
    /\ AgentTask.error_message (task s') = Some "Step Analyze failed: boom 3".
Proof.
  intros s0.
  destruct (failing_step_is_retried_then_fails_the_task
              Scenario.handlers_fail 0 s0
              (AgentStep.new "step_0" "Analyze" "look at the code"
                 "analysis" [])
              (fun n => "boom " +:+ pretty n))
    as (s'&Heq&Hc&_&_&He&_).
  - intros n. reflexivity.
  - reflexivity.
  - reflexivity.
  - simpl. lia.
  - apply list_elem_of_here.
  - intros n. reflexivity.
  - exists s'. split; [exact Heq|]. split; [exact Hc | exact He].
Defined.

(** Through [execute] the message written by [execute_step] does not
    last: the handler of [execute] assigns [str(e)] to
    [task.error_message] and saves again.  The snapshot naming the step
    is stored once, and the next and last snapshot carries the text of
    the exception alone. *)
Example execute_replaces_the_message_of_the_step :
  let final :=
    snd (submit Scenario.handlers_fail "t1"
           (Scenario.request AgentType.FEATURE_IMPLEMENTER)
           Scenario.process) in
  AgentTask.error_message <$> writes (proc final)
  = [None; None; None; None; None; None;
     Some "Step Analyze failed: boom 3"; Some "boom 3"]
  /\ AgentTask.error_message (task final) = Some "boom 3".
Proof. vm_compute. split; reflexivity. Qed.

(* ================================================================== *)
(** ** What the engine does not depend on                              *)
(* ================================================================== *)

Section Simulation.
Context (R : Agent -> Agent -> Prop) (cls : AgentClass) (env1 env2 : Env)
        (Hsim : simulation R cls env1 env2).

Lemma related_gets_task {A} (f : AgentTask.t -> A) :
  related R (gets (fun s => f (task s))) (gets (fun s => f (task s))).
Proof using Hsim.
  apply related_gets. intros s1 s2 HR. by rewrite (sim_task _ _ _ _ Hsim _ _ HR).
Qed.

Lemma related_step_at i : related R (gets (step_at i)) (gets (step_at i)).
Proof using Hsim.
  apply related_gets. intros s1 s2 HR. unfold step_at.
  by rewrite (sim_task _ _ _ _ Hsim _ _ HR).
Qed.

Ltac relate :=
  repeat first
    [ apply related_bind; [|intros ?]
    | apply related_try; [|intros ?]
    | apply related_ret
    | apply related_raise
    | apply related_if
    | apply related_step_at
    | apply (related_gets_task (fun t => length (AgentTask.steps t)))
    | apply (related_gets_task AgentTask.status)
    | apply (sim_modify_task _ _ _ _ Hsim)
    | apply (sim_index _ _ _ _ Hsim)
    | apply (sim_logger _ _ _ _ Hsim)
    | apply (sim_sleep _ _ _ _ Hsim)
    | apply (sim_save _ _ _ _ Hsim)
    | apply (sim_broadcast _ _ _ _ Hsim)
    | apply (sim_plan _ _ _ _ Hsim)
    | apply (sim_logic _ _ _ _ Hsim)
    | apply (sim_finalize _ _ _ _ Hsim)
    | assumption
    | match goal with
      | |- related _ (match ?x with _ => _ end) (match ?x with _ => _ end) =>
          destruct x
      end ].

Lemma execute_step_rec_related fuel i :
  related R (execute_step_rec cls env1 fuel i) (execute_step_rec cls env2 fuel i).
Proof using Hsim. induction fuel as [|fuel IH]; simpl; relate. Qed.

Lemma execute_step_related i :
  related R (execute_step cls env1 i) (execute_step cls env2 i).
Proof using Hsim.
  intros s1 s2 HR. unfold execute_step, retries_left, step_at.
  rewrite (sim_task _ _ _ _ Hsim _ _ HR). by apply execute_step_rec_related.
Qed.

Lemma execute_loop_related indices :
  related R (execute_loop cls env1 indices) (execute_loop cls env2 indices).
Proof using Hsim.
  induction indices as [|i rest IH]; simpl; [relate|].
  pose proof (execute_step_related i). relate.
Qed.

(** Two related agents execute alike. *)
Lemma execute_related : related R (execute cls env1) (execute cls env2).
Proof using Hsim.
  unfold execute.
  apply related_try; [|intros e; relate].
  apply related_bind; [relate|intros _].
  apply related_bind; [relate|intros _].
  apply related_bind; [relate|intros _].
  apply related_bind; [relate|intros len].
  apply related_bind; [apply execute_loop_related|intros _].
  relate.
Qed.

End Simulation.

(** A feature implementer run against two environments that answer the
    planner and the handlers alike. *)
Section FeatureImplementerSimulation.
Context (R : Agent -> Agent -> Prop) (env1 env2 : Env).
Hypothesis R_task : forall s1 s2, R s1 s2 -> task s1 = task s2.
Hypothesis R_calls : forall s1 s2, R s1 s2 -> calls (proc s1) = calls (proc s2).
Hypothesis R_modify_task : forall f, related R (modify_task f) (modify_task f).
Hypothesis R_index :
  forall i, related R (set_current_step_index i) (set_current_step_index i).
Hypothesis R_logger : forall l, related R (logger l) (logger l).
Hypothesis R_sleep : forall d, related R (sleep d) (sleep d).
Hypothesis R_record_call :
  forall c,
    related R (modify_proc (fun p => with_calls (calls p ++ [c]) p))
              (modify_proc (fun p => with_calls (calls p ++ [c]) p)).
Hypothesis R_save : related R (save_task env1) (save_task env2).
Hypothesis R_broadcast :
  related R (broadcast_update env1) (broadcast_update env2).
Hypothesis same_files : project_files env1 = project_files env2.
Hypothesis same_response : plan_response env1 = plan_response env2.
Hypothesis same_parse : parse_plan env1 = parse_plan env2.
Hypothesis same_handler : step_handler env1 = step_handler env2.

Ltac relate0 :=
  repeat first
    [ apply related_bind; [|intros ?]
    | apply related_try; [|intros ?]
    | apply related_ret
    | apply related_raise
    | apply related_if
    | apply R_modify_task
    | apply R_logger
    | apply R_record_call
    | match goal with
      | |- related _ (match ?x with _ => _ end) (match ?x with _ => _ end) =>
          destruct x
      end ].

Lemma FeatureImplementerAgent_simulation :
  simulation R FeatureImplementerAgent env1 env2.
Proof using All.
  split; try done; simpl.
  - unfold FeatureImplementerAgent_generate_plan, get_project_files,
      file_paths, call_ai_service.
    rewrite same_files, same_response, same_parse. relate0.
  - intros i. unfold FeatureImplementerAgent_execute_step_logic,
      analyze_requirements, design_implementation, implement_feature,
      generate_tests, update_documentation, run_handler.
    rewrite same_handler.
    apply related_bind.
    { apply related_gets. intros s1 s2 HR. unfold step_at.
      by rewrite (R_task _ _ HR). }
    intros step. apply related_bind.
    { apply related_gets. intros s1 s2 HR. by rewrite (R_calls _ _ HR). }
    intros n. relate0.
  - unfold FeatureImplementerAgent_finalize_task, sum_outputs.
    apply related_bind.
    { apply related_gets. intros s1 s2 HR. by rewrite (R_task _ _ HR). }
    intros steps. relate0.
    apply related_gets. intros s1 s2 HR. by rewrite (R_task _ _ HR).
Qed.

End FeatureImplementerSimulation.

Ltac blind :=
  unfold related; intros ? ? ?; split; [done|];
  unfold hub_blind, store_blind in *; simpl in *;
  intuition congruence.

Lemma broadcasted_writes env t p : writes (broadcasted env t p) = writes p.
Proof.
  unfold broadcasted, broadcast_update. simpl.
  destruct (active_connections p !! _); [|done].
  unfold try_except, send_text. simpl. by destruct (ws_fault env _).
Qed.

Lemma broadcasted_redis_ops env t p :
  redis_ops (broadcasted env t p) = redis_ops p.
Proof.
  unfold broadcasted, broadcast_update. simpl.
  destruct (active_connections p !! _); [|done].
  unfold try_except, send_text. simpl. by destruct (ws_fault env _).
Qed.

Lemma hub_blind_simulation env f :
  simulation hub_blind FeatureImplementerAgent env (with_ws_fault f env).
Proof.
  apply FeatureImplementerAgent_simulation; try done.
  - by intros s1 s2 (?&_).
  - by intros s1 s2 (_&_&_&_&_&?&_).
  - intros g. blind.
  - intros i. blind.
  - intros d. blind.
  - intros c. blind.
  - intros s1 s2 HR. pose proof HR as (Ht&?&Hr&Ho&Hw&?&?).
    unfold save_task, redis_setex. rewrite Ht, Hr, Ho. simpl.
    destruct (redis_client (proc s2)); [|by split].
    destruct (redis_fault env _); (split; [done|]);
      unfold hub_blind; simpl; by rewrite ?Ht, ?Ho, ?Hw.
  - intros s1 s2 HR.
    rewrite (broadcast_update_eq env s1),
      (broadcast_update_eq (with_ws_fault f env) s2).
    split; [done|]. destruct HR as (Ht&?&?&?&?&?&?).
    unfold hub_blind. simpl.
    rewrite !broadcasted_redis, !broadcasted_calls, !broadcasted_slept,
      !broadcasted_writes, !broadcasted_redis_ops.
    done.
Qed.

Lemma store_blind_simulation env o :
  simulation store_blind FeatureImplementerAgent env (with_others o env).
Proof.
  apply FeatureImplementerAgent_simulation; try done.
  - by intros s1 s2 (?&_).
  - by intros s1 s2 (_&_&_&_&_&_&_&_&_&?&_).
  - intros g. blind.
  - intros i. blind.
  - intros l. blind.
  - intros d. blind.
  - intros c. blind.
  - intros s1 s2 HR. pose proof HR as (Ht&?&Ha&Ho&Hw&?&?&?&?&?&?).
    unfold save_task, redis_setex. rewrite Ht, Ho. simpl.
    destruct (redis_client (proc s1)) as [db1|] eqn:Hdb1,
             (redis_client (proc s2)) as [db2|] eqn:Hdb2.
    + destruct (redis_fault env _); (split; [done|]);
        unfold store_blind; simpl; rewrite ?Hw;
        (split; [done|]); (split; [done|]);
        (split; [split; intros _; by eexists|]); done.
    + destruct Ha as [Ha _]. by destruct Ha.
    + destruct Ha as [_ Ha]. by destruct Ha.
    + by split.
  - intros s1 s2 HR. pose proof HR as (Ht&?&Ha&Ho&Hw&Hc&Hn&?&?&?&?).
    unfold broadcast_update. rewrite Ht, Hc. simpl.
    destruct (active_connections (proc s2) !! _); [|by split].
    unfold try_except, send_text. rewrite Hn. simpl.
    destruct (ws_fault env _); simpl; (split; [done|]);
      unfold store_blind; simpl; intuition congruence.
Qed.

(** C4, as amended.  Two executions of a feature implementer that differ
    only in the notification hub (which connections are registered in
    [active_connections], and which deliveries raise) return or raise
    alike and end with the same task, the same Redis contents, the same
    snapshots stored, the same calls of step handlers and the same
    sleeps.  [broadcast_update] itself always returns, leaves the task
    as it is, and logs the exception of a delivery that raises. *)
Theorem notification_failures_are_swallowed (env : Env)
    (f : nat -> option string) (conns : gmap string WebSocket) (s : Agent) :
  let s' := with_proc (with_connections conns (proc s)) s in
  let env' := with_ws_fault f env in
  fst (execute FeatureImplementerAgent env s)
  = fst (execute FeatureImplementerAgent env' s')
  /\ hub_blind (snd (execute FeatureImplementerAgent env s))
               (snd (execute FeatureImplementerAgent env' s'))
  /\ broadcast_update env s
     = (Ok tt,
        with_proc
          match active_connections (proc s)
                !! AgentTask.project_id (task s) with
          | None => proc s
          | Some ws =>
              match ws_fault env (ws_ops (proc s)) with
              | Some e =>
                  with_log (log (proc s)
                            ++ ["Failed to broadcast update: " +:+ e])
                    (with_ws (S (ws_ops (proc s))) (sent (proc s)) (proc s))
              | None =>
                  with_ws (S (ws_ops (proc s)))
                    (sent (proc s) ++ [(ws, task s)]) (proc s)
              end
          end s).
Proof.
  intros s' env'.
  destruct (execute_related hub_blind FeatureImplementerAgent env env'
              (hub_blind_simulation env f) s s') as [Ho HR].
  { by unfold hub_blind. }
  split; [done|]. split; [done|].
  unfold broadcast_update, with_proc.
  destruct (active_connections (proc s) !! _); [|by destruct s].
  unfold try_except, send_text. by destruct (ws_fault env _).
Qed.

(** C10.  Two executions of a feature implementer that differ only in
    what Redis holds at the start and in what other requests write to it
    in the meantime return or raise alike and end with the same task,
    having stored the same snapshots and logged, called, delivered and
    slept alike: nothing the engine does depends on what the store
    holds.  And whatever other requests have written, a [save_task] that
    returns with a Redis client set leaves in the store, under the key
    of the task, the task as the agent has it in memory. *)
Theorem engine_never_reads_the_store (env : Env) (o : nat -> Redis -> Redis)
    (db' : Redis) (s : Agent) :
  let s' :=
    with_proc (with_redis ((fun _ => db') <$> redis_client (proc s))
                          (redis_ops (proc s)) (proc s)) s in
  let env' := with_others o env in
  fst (execute FeatureImplementerAgent env s)
  = fst (execute FeatureImplementerAgent env' s')
  /\ store_blind (snd (execute FeatureImplementerAgent env s))
                 (snd (execute FeatureImplementerAgent env' s'))
  /\ forall a : Agent,
       fst (save_task env a) = Ok tt ->
       is_Some (redis_client (proc a)) ->
       get_agent_task (AgentTask.id (task a)) (proc (snd (save_task env a)))
       = Response (task a).
Proof.
  intros s' env'.
  destruct (execute_related store_blind FeatureImplementerAgent env env'
              (store_blind_simulation env o) s s') as [Ho HR].
  { unfold store_blind. simpl. repeat (split; [done|]).
    split; [|done]. rewrite fmap_is_Some. done. }
  split; [done|]. split; [done|].
  intros a Hok [db Hdb].
  destruct (save_task_spec env a) as (_&_&_&Hw&_).
  destruct Hw as [[_ Hno]|[(_&_&?)|(Hnone&_)]]; [done|done|congruence].
Qed.

Lemma engine_never_reads_the_store_witness :
  let t :=
    AgentTask.mk "t1" "proj" AgentType.FEATURE_IMPLEMENTER "Add login"
      "Add a login page" AgentStatus.RUNNING 50%Q [] ∅ None in
  let db : Redis := {[ task_key "t1" := (3600%Z, t) ]} in
  let a := BaseAgent_init t (with_redis (Some db) 4 Scenario.process) in
  shown (get_agent_task "t1"
           (with_redis (Some (others Scenario.cancelled_between_steps 4 db))
              4 Scenario.process))
  = Some (AgentStatus.CANCELLED, None, 0%nat)
  /\ get_agent_task "t1"
       (proc (snd (save_task Scenario.cancelled_between_steps a)))
     = Response t.
Proof.
  intros t db a. split; [vm_compute; reflexivity|].
  destruct (engine_never_reads_the_store Scenario.cancelled_between_steps
              (fun _ db0 => db0) ∅ a) as (_&_&Hsave).
  apply (Hsave a); [reflexivity | by eexists].
Defined.

(** C2, as amended.  When the project service and the AI service answer
    the planner and the answer cannot be parsed into steps,
    [generate_plan] itself logs the parse error, assigns the built-in
    plan of five steps, and returns: no exception reaches [execute], and
    the status and error message of the task are as before. *)
Theorem malformed_plan_falls_back_to_default_plan (env : Env) (s : Agent)
    (files : list (gmap string pyval)) (content e : string) :
  project_files env = inr files ->
  Forall (fun file => is_Some (file !! "path")) files ->
  plan_response env = inr content ->
  parse_plan env content = inl e ->
  generate_plan FeatureImplementerAgent env s
  = (Ok tt,
     {| task := AgentTask.with_steps default_plan (task s);
        current_step_index := current_step_index s;
        proc := with_log (log (proc s) ++ ["Failed to parse plan: " +:+ e])
                  (proc s) |}).
Proof.
  intros Hfiles Hpaths Hresp Hparse. simpl.
  unfold FeatureImplementerAgent_generate_plan, get_project_files,
    file_paths, call_ai_service.
  rewrite Hfiles, Hresp.
  assert (is_Some (mapM (fun file : gmap string pyval => file !! "path") files))
    as [paths Hp] by by apply mapM_is_Some.
  rewrite bind_eq. change ((mret files : M _) s) with (Ok files, s). cbv beta iota.
  rewrite Hp.
  cbv beta iota delta [mbind mret M_bind M_ret try_except].
  by rewrite Hparse.
Qed.

Lemma malformed_plan_falls_back_to_default_plan_witness :
  let s0 :=
    BaseAgent_init
      (AgentTask.mk "t1" "proj" AgentType.FEATURE_IMPLEMENTER "Add login"
         "Add a login page" AgentStatus.RUNNING 0%Q [] ∅ None)
      Scenario.process in
  exists s1,
    generate_plan FeatureImplementerAgent Scenario.malformed_plan s0
    = (Ok tt, s1)
    /\ AgentStep.type <$> AgentTask.steps (task s1)
       = ["analysis"; "design"; "implementation"; "testing"; "documentation"]
    /\ AgentTask.status (task s1) = AgentStatus.RUNNING.
Proof.
  intros s0. eexists. split.
  - apply (malformed_plan_falls_back_to_default_plan Scenario.malformed_plan
             s0 [ {["path" := PyStr "main.py"]} ] "Sure! Here is the plan"
             "Expecting value: line 1 column 1 (char 0)");
      [reflexivity | | reflexivity | reflexivity].
    apply Forall_singleton. rewrite lookup_singleton_eq. by eexists.
  - split; reflexivity.
Defined.

(* ================================================================== *)
(** ** The recursion of [execute_step] is bounded by the retries left  *)
(* ================================================================== *)

#[global] Instance retry_frame_preorder i : PreOrder (retry_frame i).
Proof.
  split; [by intros s|].
  intros s1 s2 s3 (?&?&?) (?&?&?). unfold retry_frame.
  split; [congruence|]. split; congruence.
Qed.

Lemma same_task_retry_frame i {A} (m : M A) :
  preserves same_task m -> preserves (retry_frame i) m.
Proof.
  apply preserves_weaken. intros s s' Ht. unfold same_task in Ht.
  unfold retry_frame, step_at. by rewrite Ht.
Qed.

Lemma kept_retry_frame i {A} (m : M A) :
  preserves task_kept m -> preserves (retry_frame i) m.
Proof. intros Hm. by apply same_task_retry_frame, kept_same_task. Qed.

Lemma save_task_retry_frame i env : preserves (retry_frame i) (save_task env).
Proof. apply same_task_retry_frame, save_task_same_task. Qed.

Lemma modify_step_retry_frame i j f :
  (forall st, AgentStep.retry_count (f st) = AgentStep.retry_count st) ->
  (forall st, AgentStep.max_retries (f st) = AgentStep.max_retries st) ->
  preserves (retry_frame i) (modify_step j f).
Proof.
  intros Hc Hm s. unfold retry_frame, step_at. simpl.
  split; [by rewrite length_alter|].
  destruct (decide (j = i)) as [->|Hne].
  - rewrite list_lookup_alter_eq.
    destruct (AgentTask.steps (task s) !! i); simpl; auto.
  - by rewrite list_lookup_alter_ne.
Qed.

Lemma set_status_retry_frame i j v :
  preserves (retry_frame i) (modify_step j (AgentStep.with_status v)).
Proof. by apply modify_step_retry_frame. Qed.

Lemma set_step_error_retry_frame i j v :
  preserves (retry_frame i) (modify_step j (AgentStep.with_error_message v)).
Proof. by apply modify_step_retry_frame. Qed.

Lemma set_output_retry_frame i j v :
  preserves (retry_frame i) (modify_step j (AgentStep.with_output_data v)).
Proof. by apply modify_step_retry_frame. Qed.

#[local] Hint Resolve kept_retry_frame save_task_retry_frame
  set_status_retry_frame set_step_error_retry_frame set_output_retry_frame
  : engine.

(** Two continuations that agree on the states [m] can lead to. *)
Lemma bind_ext (R : Agent -> Agent -> Prop) {A B} (m : M A)
    (k1 k2 : A -> M B) s :
  preserves R m ->
  (forall a s', R s s' -> k1 a s' = k2 a s') ->
  (m ≫= k1) s = (m ≫= k2) s.
Proof.
  intros Hm Hk. rewrite !bind_eq. specialize (Hm s).
  destruct (m s) as [[a|e] s']; simpl in *; auto.
Qed.

Lemma try_ext (R : Agent -> Agent -> Prop) {A} (m : M A)
    (h1 h2 : string -> M A) s :
  preserves R m ->
  (forall e s', R s s' -> h1 e s' = h2 e s') ->
  try_except m h1 s = try_except m h2 s.
Proof.
  intros Hm Hh. unfold try_except. specialize (Hm s).
  destruct (m s) as [[a|e] s']; simpl in *; auto.
Qed.

Lemma retries_left_retry_frame i s s' :
  retry_frame i s s' -> retries_left i s' = retries_left i s.
Proof. intros (_&Hc&Hm). unfold retries_left. by rewrite Hc, Hm. Qed.

(** After [step.retry_count += 1] on a step of the plan that has a retry
    left, one retry less is left. *)
Lemma retries_left_increment i s :
  i < length (AgentTask.steps (task s)) ->
  (AgentStep.retry_count (step_at i s) <? AgentStep.max_retries (step_at i s))%Z
  = true ->
  let s' :=
    snd (modify_step i (AgentStep.with_retry_count
                          (AgentStep.retry_count (step_at i s) + 1)) s) in
  length (AgentTask.steps (task s')) = length (AgentTask.steps (task s))
  /\ S (retries_left i s') = retries_left i s.
Proof.
  intros Hi Hlt. simpl. split; [by rewrite length_alter|].
  apply lookup_lt_is_Some_2 in Hi as [st Hst].
  unfold retries_left, step_at in *. simpl.
  rewrite list_lookup_alter_eq, Hst in *. simpl in *. lia.
Qed.

Section Fuel.
Context (cls : AgentClass) (env : Env).
Hypothesis Hlogic :
  forall i j, preserves (retry_frame j) (execute_step_logic cls env i).

#[local] Hint Resolve Hlogic : engine.

(** Any two amounts of fuel above the retries left give the same run:
    the bound of the model is never reached. *)
Lemma execute_step_rec_fuel :
  forall f1 f2 i s,
    i < length (AgentTask.steps (task s)) ->
    retries_left i s < f1 -> retries_left i s < f2 ->
    execute_step_rec cls env f1 i s = execute_step_rec cls env f2 i s.
Proof using Hlogic.
  induction f1 as [|f1 IH]; intros [|f2] i s Hi H1 H2; try lia.
  cbn [execute_step_rec].
  apply (try_ext (retry_frame i)); [preserve|]. intros e s1 Hs1.
  apply (bind_ext (retry_frame i)); [preserve|]. intros [] s2 Hs2.
  apply (bind_ext (retry_frame i)); [preserve|]. intros [] s3 Hs3.
  apply (bind_ext (retry_frame i)); [preserve|]. intros [] s4 Hs4.
  assert (retry_frame i s s4) as Hs by (by repeat (etrans; [eassumption|])).
  rewrite !bind_eq. cbn [gets].
  destruct (_ <? _)%Z eqn:Hlt; [|done].
  destruct (retries_left_increment i s4) as [Hlen Hleft]; [|done|].
  { destruct Hs as (->&_). done. }
  cbv zeta in Hlen, Hleft. rewrite !bind_eq.
  destruct (modify_step i _ s4) as [[[]|e5] s5] eqn:H5; [|done].
  simpl in Hlen, Hleft.
  apply (bind_ext (retry_frame i)); [preserve|]. intros [] s6 Hs6.
  apply (bind_ext (retry_frame i)); [preserve|]. intros [] s7 Hs7.
  apply (bind_ext (retry_frame i)); [preserve|]. intros [] s8 Hs8.
  apply (bind_ext (retry_frame i)); [preserve|]. intros [] s9 Hs9.
  assert (retry_frame i s5 s9) as Hs' by (by repeat (etrans; [eassumption|])).
  pose proof (retries_left_retry_frame _ _ _ Hs) as Hr.
  pose proof (retries_left_retry_frame _ _ _ Hs') as Hr'.
  destruct Hs as (Hl&_), Hs' as (Hl'&_).
  apply IH; lia.
Qed.

(** [execute_step] runs as with any greater bound. *)
Lemma execute_step_fuel k i s :
  i < length (AgentTask.steps (task s)) ->
  execute_step_rec cls env (S (retries_left i s) + k) i s
  = execute_step cls env i s.
Proof using Hlogic.
  intros Hi. unfold execute_step. apply execute_step_rec_fuel; [done|lia..].
Qed.

End Fuel.

Lemma FeatureImplementerAgent_retry_frame env i j :
  preserves (retry_frame j) (execute_step_logic FeatureImplementerAgent env i).
Proof.
  simpl. unfold FeatureImplementerAgent_execute_step_logic,
    analyze_requirements, design_implementation, implement_feature,
    generate_tests, update_documentation, run_handler. preserve.
Qed.

(** For the feature implementer the bound on the recursion of
    [execute_step] is never reached, whatever the store, the hub and the
    handlers do. *)
Lemma FeatureImplementerAgent_execute_step_fuel env k i s :
  i < length (AgentTask.steps (task s)) ->
  execute_step_rec FeatureImplementerAgent env (S (retries_left i s) + k) i s
  = execute_step FeatureImplementerAgent env i s.
Proof. apply execute_step_fuel, FeatureImplementerAgent_retry_frame. Qed.

(* ================================================================== *)
(** ** The task endpoints                                              *)
(* ================================================================== *)

Lemma task_key_inj a b : task_key a = task_key b -> a = b.
Proof. unfold task_key. apply (inj _). Qed.

Lemma get_agent_task_store_eq task_id k p :
  is_Some (redis_client p) ->
  get_agent_task task_id (store (task_key task_id) k p) = Response k.
Proof.
  intros [db Hdb]. unfold get_agent_task, store. rewrite Hdb. simpl.
  by rewrite lookup_insert_eq.
Qed.

Lemma get_agent_task_store_ne task_id other k p :
  other <> task_id ->
  get_agent_task other (store (task_key task_id) k p) = get_agent_task other p.
Proof.
  intros Hne. unfold get_agent_task, store.
  destruct (redis_client p) as [db|] eqn:Hdb; [|by rewrite Hdb]. simpl.
  rewrite lookup_insert_ne; [done|]. intros Heq.
  by apply Hne, task_key_inj.
Qed.

(** X1.  A task just created can be queried: with a Redis client set,
    [get_agent_task] with the id of the answer of [create_agent_task]
    returns the task of that answer, and the answers for every other id
    are as before.  With no Redis client the task is created all the
    same, nothing is stored, and the query answers HTTP 500. *)
Theorem created_task_can_be_queried (uuid : string)
    (request : CreateAgentTaskRequest) (p : Process) :
  let response := fst (create_agent_task uuid request p) in
  let p' := snd (create_agent_task uuid request p) in
  AgentTask.id (resp_task response) = uuid
  /\ AgentTask.status (resp_task response) = AgentStatus.PENDING
  /\ match redis_client p with
     | Some _ =>
         get_agent_task uuid p' = Response (resp_task response)
         /\ forall other, other <> uuid ->
              get_agent_task other p' = get_agent_task other p
     | None =>
         p' = p
         /\ get_agent_task uuid p' = HTTPException 500 "Redis not available"
     end.
Proof.
  simpl. split; [done|]. split; [done|].
  destruct (redis_client p) as [db|] eqn:Hdb.
  - split.
    + apply get_agent_task_store_eq. by rewrite Hdb.
    + intros other Hne. by apply get_agent_task_store_ne.
  - unfold store, get_agent_task. by rewrite !Hdb.
Qed.

(** X2.  A cancel request served right after another one for the same
    task is never accepted and changes nothing: whatever the first one
    answered, the second answers with an HTTP error and leaves the
    process, Redis included, as the first left it.  And a cancel request
    changes the answer of a query for no other task. *)
Theorem cancel_twice_is_rejected (task_id : string) (p : Process) :
  let p1 := snd (cancel_agent_task task_id p) in
  (exists code detail,
     fst (cancel_agent_task task_id p1) = HTTPException code detail)
  /\ snd (cancel_agent_task task_id p1) = p1
  /\ forall other, other <> task_id ->
       get_agent_task other p1 = get_agent_task other p.
Proof.
  destruct (redis_client p) as [db|] eqn:Hdb.
  2:{ assert (cancel_agent_task task_id p
              = (HTTPException 500 "Redis not available", p)) as Hc.
      { unfold cancel_agent_task. by rewrite Hdb. }
      rewrite Hc. simpl. rewrite Hc. simpl.
      split; [by do 2 eexists|]. done. }
  destruct (db !! task_key task_id) as [[ttl k]|] eqn:Hk.
  2:{ assert (cancel_agent_task task_id p
              = (HTTPException 404 "Task not found", p)) as Hc.
      { unfold cancel_agent_task. by rewrite Hdb, Hk. }
      rewrite Hc. simpl. rewrite Hc. simpl.
      split; [by do 2 eexists|]. done. }
  destruct (terminal (AgentTask.status k)) eqn:Hterm.
  { assert (cancel_agent_task task_id p
            = (HTTPException 400 "Task cannot be cancelled", p)) as Hc.
    { unfold cancel_agent_task. by rewrite Hdb, Hk, Hterm. }
    rewrite Hc. simpl. rewrite Hc. simpl.
    split; [by do 2 eexists|]. done. }
  set (k' := AgentTask.with_status AgentStatus.CANCELLED k).
  assert (cancel_agent_task task_id p
          = (Response ("Task cancelled successfully", k'),
             store (task_key task_id) k' p)) as Hc.
  { unfold cancel_agent_task. by rewrite Hdb, Hk, Hterm. }
  rewrite Hc. simpl.
  assert (cancel_agent_task task_id (store (task_key task_id) k' p)
          = (HTTPException 400 "Task cannot be cancelled",
             store (task_key task_id) k' p)) as Hc'.
  { unfold cancel_agent_task at 1. unfold store at 1 2. rewrite Hdb. simpl.
    rewrite lookup_insert_eq. unfold store. by rewrite Hdb. }
  rewrite Hc'. simpl. split; [by do 2 eexists|]. split; [done|].
  intros other Hne. by apply get_agent_task_store_ne.
Qed.

(** X3.  A task of any variant other than [feature_implementer] is
    accepted and never run: after the background task has ended the task
    is the one [create_agent_task] answered with, still PENDING, and the
    process is as [create_agent_task] left it but for one line of the
    log, which names the variant; no Redis command is issued, no step is
    planned or run, and a query returns the PENDING task for ever. *)
Theorem unsupported_variant_is_never_run (env : Env) (uuid : string)
    (request : CreateAgentTaskRequest) (p : Process) :
  req_agent_type request <> AgentType.FEATURE_IMPLEMENTER ->
  let created := create_agent_task uuid request p in
  let final := snd (submit env uuid request p) in
  task final = resp_task (fst created)
  /\ AgentTask.status (task final) = AgentStatus.PENDING
  /\ proc final
     = with_log (log (snd created)
                 ++ ["Agent task execution failed: Unknown agent type: "
                     +:+ AgentType.format (req_agent_type request)])
         (snd created).
Proof.
  intros Hty. unfold submit, execute_agent_task, create_agent. simpl.
  destruct (decide _) as [Heq|_]; [by destruct Hty|]. done.
Qed.

Lemma unsupported_variant_is_never_run_witness :
  let final :=
    snd (submit Scenario.healthy "t1"
           (Scenario.request AgentType.CODE_REVIEWER) Scenario.process) in
  shown (get_agent_task "t1" (proc final))
  = Some (AgentStatus.PENDING, None, 0%nat)
  /\ log (proc final)
     = ["Agent task execution failed: Unknown agent type: AgentType.CODE_REVIEWER"].
Proof.
  destruct (unsupported_variant_is_never_run Scenario.healthy "t1"
              (Scenario.request AgentType.CODE_REVIEWER) Scenario.process)
    as (_&_&Hp); [discriminate|].
  cbv zeta in Hp |- *. rewrite Hp. split; reflexivity.
Defined.

(* ================================================================== *)
(** ** How [execute] returns and how it raises                         *)
(* ================================================================== *)

Section EngineReturns.
Context (cls : AgentClass) (env : Env) (Hwb : well_behaved cls env).

(** The loop, when it returns with a task that is not CANCELLED, has
    completed every step of the plan. *)
Lemma execute_loop_returns n m : forall k s,
  k + m = n ->
  length (AgentTask.steps (task s)) = n ->
  AgentTask.status (task s) <> AgentStatus.CANCELLED ->
  (forall j, j < k -> exists st,
     AgentTask.steps (task s) !! j = Some st /\ completed st) ->
  wp (execute_loop cls env (seq k m))
     (fun o s' =>
        o = Ok tt ->
        quiet s s'
        /\ length (AgentTask.steps (task s')) = n
        /\ (forall j, j < n -> exists st,
              AgentTask.steps (task s') !! j = Some st /\ completed st)
        /\ AgentTask.progress (task s')
           = match m with
             | O => AgentTask.progress (task s)
             | S _ => progress_after (n - 1) n
             end)
     s.
Proof using Hwb.
  induction m as [|m IH]; intros k s Hkm Hlen Hst Hdone; simpl.
  { apply wp_ret. intros _. split; [done|]. split; [done|].
    split; [|done]. intros j Hj. apply Hdone. lia. }
  wp_step.
  apply wp_bind. eapply wp_mono.
  { apply wp_conj.
    - apply (preserves_wp (during_step k)), execute_step_during_step, Hwb.
    - apply execute_step_ok, Hwb. }
  intros o s1 [Hd Hok]. simpl in Hd.
  destruct o as [[]|e]; [|done].
  destruct (Hok eq_refl) as [Hq1 Hdone1].
  destruct Hd as ((_&_&_&Hlen1&Hothers&_)&_). simpl in Hlen1, Hothers.
  wp_step. wp_step.
  apply wp_bind. apply (wp_preserves same_task); [preserve|].
  intros o s3 Hs3. unfold same_task in Hs3. simpl in Hs3.
  destruct o as [[]|e]; [|done].
  wp_step. rewrite Hs3. simpl.
  destruct Hq1 as [Hq1 Hq1'].
  destruct (decide _) as [Hc|_]; [by rewrite Hq1 in Hc|].
  eapply wp_mono.
  { apply (IH (S k)); [lia| | |].
    - rewrite Hs3. simpl. lia.
    - rewrite Hs3. simpl. by rewrite Hq1.
    - intros j Hj. rewrite Hs3. simpl.
      destruct (decide (j = k)) as [->|Hne].
      + destruct (lookup_lt_is_Some_2 (AgentTask.steps (task s1)) k)
          as [st Hst1]; [lia|].
        exists st. split; [done|]. by apply Hdone1.
      + rewrite Hothers; [|done]. apply Hdone. lia. }
  simpl. intros o s4 Hpost ->.
  destruct (Hpost eq_refl) as ((Hq4&Hq4')&Hlen4&Hdone4&Hp4).
  rewrite Hs3 in *. simpl in *.
  split; [split; congruence|]. split; [done|]. split; [done|].
  rewrite Hp4. destruct m; [|done].
  rewrite Hlen1, Hlen. f_equal. lia.
Qed.

End EngineReturns.

Lemma execute_handler_raises env e s :
  wp (logger ("Agent execution failed: " +:+ e);;
      modify_task (AgentTask.with_status AgentStatus.FAILED);;
      modify_task (AgentTask.with_error_message (Some e));;
      save_task env;;
      raise e)
     (fun (o : outcome unit) s' =>
        (exists e', o = Raise e')
        /\ AgentTask.status (task s') = AgentStatus.FAILED
        /\ AgentTask.error_message (task s') = Some e)
     s.
Proof.
  do 3 wp_step. apply wp_bind.
  apply (wp_preserves same_task); [preserve|].
  intros o s' Hs'. unfold same_task in Hs'. simpl in Hs'.
  destruct o as [[]|e'].
  - apply wp_raise. rewrite Hs'. simpl. split; [by eexists|]. done.
  - rewrite Hs'. simpl. split; [by eexists|]. done.
Qed.

(** X4.  How an execution of a feature implementer ends, whatever the
    store, the hub, the planner and the handlers do.  When [execute]
    returns, the task is COMPLETED, every step of the plan is COMPLETED,
    the result is set, the error message is as it was, and the progress
    is that after the last step ([((n - 1 + 1) / n) * 100] for a plan of
    [n] steps) or, for an empty plan, as it was.  When [execute] raises,
    the task is FAILED and its error message is set. *)
Theorem execute_returns_completed_or_raises_failed (env : Env) (s : Agent) :
  let s' := snd (execute FeatureImplementerAgent env s) in
  match fst (execute FeatureImplementerAgent env s) with
  | Ok _ =>
      AgentTask.status (task s') = AgentStatus.COMPLETED
      /\ Forall completed (AgentTask.steps (task s'))
      /\ AgentTask.result (task s') <> ∅
      /\ AgentTask.error_message (task s') = AgentTask.error_message (task s)
      /\ AgentTask.progress (task s')
         = match length (AgentTask.steps (task s')) with
           | O => AgentTask.progress (task s)
           | S n => progress_after n (S n)
           end
  | Raise _ =>
      AgentTask.status (task s') = AgentStatus.FAILED
      /\ is_Some (AgentTask.error_message (task s'))
  end.
Proof.
  pose proof (FeatureImplementerAgent_well_behaved env) as Hwb.
  change (wp (execute FeatureImplementerAgent env)
            (fun o s' =>
               match o with
               | Ok _ =>
                   AgentTask.status (task s') = AgentStatus.COMPLETED
                   /\ Forall completed (AgentTask.steps (task s'))
                   /\ AgentTask.result (task s') <> ∅
                   /\ AgentTask.error_message (task s')
                      = AgentTask.error_message (task s)
                   /\ AgentTask.progress (task s')
                      = match length (AgentTask.steps (task s')) with
                        | O => AgentTask.progress (task s)
                        | S n => progress_after n (S n)
                        end
               | Raise _ =>
                   AgentTask.status (task s') = AgentStatus.FAILED
                   /\ is_Some (AgentTask.error_message (task s'))
               end) s).
  unfold execute. apply wp_try.
  eapply wp_mono
    with (Q := fun o s' =>
                 o = Ok tt ->
                 AgentTask.status (task s') = AgentStatus.COMPLETED
                 /\ Forall completed (AgentTask.steps (task s'))
                 /\ AgentTask.result (task s') <> ∅
                 /\ AgentTask.error_message (task s')
                    = AgentTask.error_message (task s)
                 /\ AgentTask.progress (task s')
                    = match length (AgentTask.steps (task s')) with
                      | O => AgentTask.progress (task s)
                      | S n => progress_after n (S n)
                      end).
  2:{ intros [[]|e] s' Hpost; [by apply Hpost|].
      eapply wp_mono; [apply execute_handler_raises|].
      simpl. intros o s'' ([e' ->]&Hst&He). split; [done|].
      rewrite He. by eexists. }
  wp_step.
  apply wp_bind. apply (wp_preserves same_task); [preserve|].
  intros o s2 Hs2. unfold same_task in Hs2. simpl in Hs2.
  destruct o as [[]|e]; [|done].
  apply wp_bind. apply (wp_preserves plan_frame); [apply Hwb|].
  intros o s3 (_&Hst3&Hp3&_&He3&_).
  rewrite Hs2 in Hst3, Hp3, He3. simpl in Hst3, Hp3, He3.
  destruct o as [[]|e]; [|done].
  wp_step. apply wp_bind. eapply wp_mono.
  { apply (execute_loop_returns _ _ Hwb
             (length (AgentTask.steps (task s3)))
             (length (AgentTask.steps (task s3))) 0); [done|done| |].
    - by rewrite Hst3.
    - intros j Hj. lia. }
  simpl. intros o s4 Hpost. destruct o as [[]|e]; [|done].
  destruct (Hpost eq_refl) as ((Hst4&He4)&Hlen4&Hdone4&Hp4).
  wp_step. rewrite Hst4, Hst3.
  destruct (decide _) as [_|Hne]; [|done].
  apply wp_bind. wp_step. eapply wp_mono.
  { apply FeatureImplementerAgent_finalize_task_spec. }
  simpl. intros o s5 Hfin. destruct o as [[]|e]; [|done].
  destruct Hfin as (Hres&_&Hst5&Hp5&Hsteps5&He5&_).
  simpl in Hst5, Hp5, Hsteps5, He5.
  apply (wp_preserves same_task); [preserve|].
  intros o s6 Hs6 _. unfold same_task in Hs6. rewrite Hs6.
  split; [done|]. split; [|split; [done|split]].
  - rewrite Hsteps5. apply Forall_lookup_2. intros j st Hj.
    destruct (Hdone4 j) as (st'&Hst'&Hc).
    { rewrite <- Hlen4. by eapply lookup_lt_Some. }
    congruence.
  - congruence.
  - rewrite Hp5, Hp4, Hsteps5, Hlen4.
    destruct (length (AgentTask.steps (task s3))) as [|n]; [done|].
    f_equal. lia.
Qed.

(* ================================================================== *)
(** ** Retries                                                         *)
(* ================================================================== *)

Lemma retried_retried st k :
  retried (retried st k) 1 = retried st (S k).
Proof.
  destruct k as [|k]; [done|]. unfold retried. simpl. f_equal. lia.
Qed.

Lemma list_alter_insert_eq {A} (f : A -> A) i x (l : list A) :
  alter f i (<[i:=x]> l) = <[i:=f x]> l.
Proof.
  revert i. induction l as [|y l IH]; intros [|i]; csimpl; f_equal; auto.
Qed.

Lemma backoff_S rc k :
  backoff rc (S k) = backoff rc k ++ [pow2 (rc + 1 + Z.of_nat k)].
Proof. unfold backoff. by rewrite seq_S, fmap_app. Qed.

Lemma backoff_cons rc k :
  backoff rc (S k) = pow2 (rc + 1) :: backoff (rc + 1) k.
Proof.
  unfold backoff. simpl. f_equal; [f_equal; lia|].
  rewrite <- fmap_S_seq, <- list_fmap_compose. apply list_fmap_ext.
  intros _ j _. simpl. f_equal. lia.
Qed.

(** An attempt whose handler raises while a retry is left: the step is
    put back to PENDING with one more retry counted, the engine sleeps,
    and [execute_step] is entered again. *)
Lemma wp_attempt_fails env i fuel s st e (Q : outcome unit -> Agent -> Prop) :
  store_ok env ->
  AgentTask.steps (task s) !! i = Some st ->
  AgentStep.type st ∈ known_step_types ->
  step_handler env (AgentStep.type st) (length (calls (proc s))) = inl e ->
  (AgentStep.retry_count st < AgentStep.max_retries st)%Z ->
  (forall p',
     calls p' = calls (proc s) ++ [AgentStep.id st] ->
     slept p' = slept (proc s) ++ [pow2 (AgentStep.retry_count st + 1)] ->
     (is_Some (redis_client (proc s)) -> is_Some (redis_client p')) ->
     wp (execute_step_rec FeatureImplementerAgent env fuel i) Q
        {| task := AgentTask.with_steps
                     (<[i := retried st 1]> (AgentTask.steps (task s)))
                     (task s);
           current_step_index := current_step_index s;
           proc := p' |}) ->
  wp (execute_step_rec FeatureImplementerAgent env (S fuel) i) Q s.
Proof.
  intros Hok Hst Hty Herr Hlt HQ. cbn [execute_step_rec].
  apply wp_try. do 3 sym_step. apply wp_bind.
  apply (wp_logic_known _ _ _ _
           (AgentStep.with_status StepStatus.RUNNING st)); [|done|].
  { by apply step_at_alter. }
  norm. rewrite Hcalls0, Hcalls, Herr. norm.
  do 4 sym_step.
  erewrite !(step_at_lookup i);
    [|norm; rewrite !list_lookup_alter_eq, Hst;
      cbn [fmap option_fmap option_map]; reflexivity].
  norm.
  assert ((AgentStep.retry_count st <? AgentStep.max_retries st)%Z = true)
    as -> by lia.
  do 5 sym_step. norm.
  rewrite !list_alter_alter_eq, (alter_as_insert _ _ _ _ Hst).
  apply HQ; norm.
  - done.
  - by rewrite Hslept0, Hslept.
  - intros Ha. destruct (Hredis Ha) as [Ha1 _]. by rewrite Hredis0.
Qed.

(** An attempt whose handler returns: the step is COMPLETED with the
    output of the handler, and [execute_step] returns. *)
Lemma wp_attempt_succeeds env i fuel s st out
    (Q : outcome unit -> Agent -> Prop) :
  store_ok env ->
  AgentTask.steps (task s) !! i = Some st ->
  AgentStep.type st ∈ known_step_types ->
  step_handler env (AgentStep.type st) (length (calls (proc s))) = inr out ->
  (forall p',
     calls p' = calls (proc s) ++ [AgentStep.id st] ->
     slept p' = slept (proc s) ->
     (is_Some (redis_client (proc s)) ->
      get_agent_task (AgentTask.id (task s)) p'
      = Response
          (AgentTask.with_steps
             (<[i := AgentStep.with_status StepStatus.COMPLETED
                       (AgentStep.with_output_data out st)]>
                (AgentTask.steps (task s)))
             (task s))) ->
     Q (Ok tt)
       {| task := AgentTask.with_steps
                    (<[i := AgentStep.with_status StepStatus.COMPLETED
                              (AgentStep.with_output_data out st)]>
                       (AgentTask.steps (task s)))
                    (task s);
          current_step_index := current_step_index s;
          proc := p' |}) ->
  wp (execute_step_rec FeatureImplementerAgent env (S fuel) i) Q s.
Proof.
  intros Hok Hst Hty Hout HQ. cbn [execute_step_rec].
  apply wp_try. do 3 sym_step. apply wp_bind.
  apply (wp_logic_known _ _ _ _
           (AgentStep.with_status StepStatus.RUNNING st)); [|done|].
  { by apply step_at_alter. }
  norm. rewrite Hcalls0, Hcalls, Hout. norm.
  do 2 sym_step. apply wp_broadcast_update_any.
  intros p2 Hc2 Hs2 Hl2 Hr2. norm.
  rewrite !list_alter_alter_eq, (alter_as_insert _ _ _ _ Hst) in *. norm.
  apply HQ.
  - by rewrite Hc2, Hcalls1.
  - by rewrite Hs2, Hslept1, Hslept0, Hslept.
  - intros Ha. destruct (Hredis Ha) as [Ha1 _].
    rewrite <- Hredis0 in Ha1. destruct (Hredis1 Ha1) as [_ Hget].
    unfold get_agent_task in *. by rewrite Hr2.
Qed.

Lemma retried_once_more st k : retried (retried st 1) k = retried st (S k).
Proof.
  destruct k as [|k]; [done|]. unfold retried. simpl. f_equal. lia.
Qed.

(** [k] attempts in a row whose handler raises, with [k] retries left. *)
Lemma wp_attempts_fail env i :
  store_ok env ->
  forall k (err : nat -> string) fuel s st (Q : outcome unit -> Agent -> Prop),
    AgentTask.steps (task s) !! i = Some st ->
    AgentStep.type st ∈ known_step_types ->
    (AgentStep.retry_count st + Z.of_nat k <= AgentStep.max_retries st)%Z ->
    (forall j, j < k ->
       step_handler env (AgentStep.type st) (length (calls (proc s)) + j)
       = inl (err j)) ->
    (forall p',
       calls p' = calls (proc s) ++ replicate k (AgentStep.id st) ->
       slept p' = slept (proc s) ++ backoff (AgentStep.retry_count st) k ->
       (is_Some (redis_client (proc s)) -> is_Some (redis_client p')) ->
       wp (execute_step_rec FeatureImplementerAgent env fuel i) Q
          {| task := AgentTask.with_steps
                       (<[i := retried st k]> (AgentTask.steps (task s)))
                       (task s);
             current_step_index := current_step_index s;
             proc := p' |}) ->
    wp (execute_step_rec FeatureImplementerAgent env (k + fuel) i) Q s.
Proof.
  intros Hok. induction k as [|k IH]; intros err fuel s st Q Hst Hty Hk Herr HQ.
  - specialize (HQ (proc s)). simpl in HQ.
    rewrite list_insert_id in HQ by done.
    destruct s as [[] ? ?]. apply HQ; [by rewrite app_nil_r..|done].
  - change (S k + fuel) with (S (k + fuel)).
    apply (wp_attempt_fails env i (k + fuel) s st (err 0)); [done..| | |].
    { rewrite <- (Herr 0) by lia. by rewrite Nat.add_0_r. }
    { lia. }
    intros p1 Hc1 Hs1 Hr1.
    apply (IH (fun j => err (S j)) fuel _ (retried st 1)); norm.
    + by rewrite list_lookup_insert_eq by by eapply lookup_lt_Some.
    + done.
    + simpl. lia.
    + intros j Hj. rewrite Hc1, length_app. simpl.
      rewrite <- (Herr (S j)) by lia. f_equal. lia.
    + intros p' Hc' Hs' Hr'.
      rewrite list_insert_insert_eq, retried_once_more.
      apply HQ.
      * rewrite Hc', Hc1, <- app_assoc. done.
      * rewrite Hs', Hs1, <- app_assoc. simpl.
        by rewrite backoff_cons.
      * auto.
Qed.

(** The attempt whose handler raises with no retry left: the step and
    the task are FAILED, and [execute_step] raises. *)
Lemma wp_attempt_exhausted env i fuel s st e
    (Q : outcome unit -> Agent -> Prop) :
  store_ok env ->
  AgentTask.steps (task s) !! i = Some st ->
  AgentStep.type st ∈ known_step_types ->
  step_handler env (AgentStep.type st) (length (calls (proc s))) = inl e ->
  (AgentStep.max_retries st <= AgentStep.retry_count st)%Z ->
  (forall p',
     calls p' = calls (proc s) ++ [AgentStep.id st] ->
     slept p' = slept (proc s) ->
     Q (Raise e)
       {| task :=
            AgentTask.with_error_message
              (Some ("Step " +:+ AgentStep.name st +:+ " failed: " +:+ e))
              (AgentTask.with_status AgentStatus.FAILED
                 (AgentTask.with_steps
                    (<[i := AgentStep.with_error_message (Some e)
                              (AgentStep.with_status StepStatus.FAILED st)]>
                       (AgentTask.steps (task s)))
                    (task s)));
          current_step_index := current_step_index s;
          proc := p' |}) ->
  wp (execute_step_rec FeatureImplementerAgent env (S fuel) i) Q s.
Proof.
  intros Hok Hst Hty Herr Hge HQ. cbn [execute_step_rec].
  apply wp_try. do 3 sym_step. apply wp_bind.
  apply (wp_logic_known _ _ _ _
           (AgentStep.with_status StepStatus.RUNNING st)); [|done|].
  { by apply step_at_alter. }
  norm. rewrite Hcalls0, Hcalls, Herr. norm.
  do 4 sym_step.
  erewrite !(step_at_lookup i);
    [|norm; rewrite !list_lookup_alter_eq, Hst;
      cbn [fmap option_fmap option_map]; reflexivity].
  norm.
  assert ((AgentStep.retry_count st <? AgentStep.max_retries st)%Z = false)
    as -> by lia.
  do 3 sym_step. apply wp_bind, wp_broadcast_update_any.
  intros p2 Hc2 Hs2 Hl2 Hr2. norm. apply wp_raise. norm.
  rewrite !list_alter_alter_eq, (alter_as_insert _ _ _ _ Hst).
  apply HQ.
  - by rewrite Hc2, Hcalls1.
  - by rewrite Hs2, Hslept1, Hslept0, Hslept.
Qed.

Lemma fuel_split i s st k :
  AgentTask.steps (task s) !! i = Some st ->
  (AgentStep.retry_count st + Z.of_nat k <= AgentStep.max_retries st)%Z ->
  exists fuel, S (retries_left i s) = k + S fuel.
Proof.
  intros Hst Hk. unfold retries_left. rewrite (step_at_lookup i s st Hst).
  exists (Z.to_nat (AgentStep.max_retries st - AgentStep.retry_count st) - k).
  lia.
Qed.

(** X5.  A step recovers from failures of its handler.  On a store that
    does not fail, when the handler of a step of a known type, whose
    retry count is not negative, raises at [k] calls in a row and
    returns at the next one, and [k] retries are left to the step, then
    [execute_step] returns: the handler has been called [k + 1] times,
    the step is COMPLETED with the output of the last call, its error
    message cleared and [k] more retries counted, the engine has slept
    [2 ** (retry_count + 1)], [2 ** (retry_count + 2)], ... seconds
    between the attempts, and nothing else of the task has changed: its
    status and its error message are as before, and that is the
    snapshot the store holds. *)
Theorem step_recovers_within_its_retries (env : Env) (i k : nat) (s : Agent)
    (st : AgentStep.t) (err : nat -> string) (out : gmap string pyval) :
  store_ok env ->
  AgentTask.steps (task s) !! i = Some st ->
  AgentStep.type st ∈ known_step_types ->
  (0 <= AgentStep.retry_count st)%Z ->
  (AgentStep.retry_count st + Z.of_nat k <= AgentStep.max_retries st)%Z ->
  (forall j, j < k ->
     step_handler env (AgentStep.type st) (length (calls (proc s)) + j)
     = inl (err j)) ->
  step_handler env (AgentStep.type st) (length (calls (proc s)) + k)
  = inr out ->
  exists s',
    execute_step FeatureImplementerAgent env i s = (Ok tt, s')
    /\ task s'
       = AgentTask.with_steps
           (<[i := AgentStep.with_status StepStatus.COMPLETED
                     (AgentStep.with_output_data out (retried st k))]>
              (AgentTask.steps (task s)))
           (task s)
    /\ calls (proc s') = calls (proc s) ++ replicate (S k) (AgentStep.id st)
    /\ slept (proc s')
       = slept (proc s) ++ backoff (AgentStep.retry_count st) k
    /\ (is_Some (redis_client (proc s)) ->
        get_agent_task (AgentTask.id (task s)) (proc s')
        = Response (task s')).
Proof.
  intros Hok Hst Hty _ Hk Herr Hout.
  destruct (fuel_split i s st k Hst Hk) as [fuel Hfuel].
  cut (wp (execute_step FeatureImplementerAgent env i)
         (fun o s' =>
            o = Ok tt
            /\ task s'
               = AgentTask.with_steps
                   (<[i := AgentStep.with_status StepStatus.COMPLETED
                             (AgentStep.with_output_data out (retried st k))]>
                      (AgentTask.steps (task s)))
                   (task s)
            /\ calls (proc s')
               = calls (proc s) ++ replicate (S k) (AgentStep.id st)
            /\ slept (proc s')
               = slept (proc s) ++ backoff (AgentStep.retry_count st) k
            /\ (is_Some (redis_client (proc s)) ->
                get_agent_task (AgentTask.id (task s)) (proc s')
                = Response (task s')))
         s).
  { intros Hwp. destruct (wp_eq _ _ _ Hwp) as (o&s'&Heq&->&Hpost).
    by exists s'. }
  apply wp_execute_step. rewrite Hfuel.
  eapply (wp_attempts_fail env i Hok k err (S fuel) s st); [done..|].
  intros p1 Hc1 Hs1 Hr1.
  eapply (wp_attempt_succeeds env i fuel _ (retried st k) out); [done|..].
  - norm. by rewrite list_lookup_insert_eq by by eapply lookup_lt_Some.
  - by destruct k.
  - norm. replace (AgentStep.type (retried st k)) with (AgentStep.type st)
      by by destruct k.
    rewrite Hc1, length_app, length_replicate. done.
  - norm. intros p' Hc' Hs' Hg'.
    rewrite list_insert_insert_eq in *.
    split; [done|]. split; [done|]. split; [|split].
    + rewrite Hc', Hc1, <- app_assoc.
      replace (AgentStep.id (retried st k)) with (AgentStep.id st)
        by by destruct k.
      f_equal. by rewrite replicate_S_end.
    + by rewrite Hs', Hs1.
    + intros Ha. apply Hg'. auto.
Qed.

Lemma step_recovers_within_its_retries_witness :
  exists s',
    execute_step FeatureImplementerAgent Cases.flaky 0 Cases.one_step
    = (Ok tt, s')
    /\ (AgentStep.status <$> AgentTask.steps (task s'))
       = [StepStatus.COMPLETED]
    /\ (AgentStep.retry_count <$> AgentTask.steps (task s')) = [2%Z]
    /\ AgentTask.status (task s') = AgentStatus.RUNNING
    /\ calls (proc s') = ["step_0"; "step_0"; "step_0"]
    /\ slept (proc s') = [2%Q; 4%Q].
Proof.
  destruct (step_recovers_within_its_retries Cases.flaky 0 2 Cases.one_step
              (AgentStep.new "step_0" "Analyze" "look at the code"
                 "analysis" [])
              (fun n => "boom " +:+ pretty n)
              {["analysis" := PyStr "fine"]})
    as (s'&Heq&Ht&Hc&Hs&_).
  - intros n. reflexivity.
  - reflexivity.
  - apply list_elem_of_here.
  - simpl. lia.
  - simpl. lia.
  - intros [|[|j]] Hj; [reflexivity..|lia].
  - reflexivity.
  - exists s'. split; [exact Heq|]. rewrite Ht, Hc, Hs.
    repeat split; reflexivity.
Defined.

(** X6.  Exponential back-off.  On a store that does not fail, when the
    handler of a step of a known type, whose retry count is not
    negative, raises at every call, the engine sleeps once before each
    retry and never otherwise: the waits of [execute_step] are
    [2 ** (retry_count + 1)], [2 ** (retry_count + 2)], ...,
    [2 ** max_retries] seconds, one for each retry that was left, and
    [execute_step] then raises. *)
Theorem retries_back_off_exponentially (env : Env) (i : nat) (s : Agent)
    (st : AgentStep.t) (err : nat -> string) :
  store_ok env ->
  AgentTask.steps (task s) !! i = Some st ->
  AgentStep.type st ∈ known_step_types ->
  (0 <= AgentStep.retry_count st <= AgentStep.max_retries st)%Z ->
  (forall n, step_handler env (AgentStep.type st) n = inl (err n)) ->
  let m := Z.to_nat (AgentStep.max_retries st - AgentStep.retry_count st) in
  let s' := snd (execute_step FeatureImplementerAgent env i s) in
  fst (execute_step FeatureImplementerAgent env i s)
  = Raise (err (length (calls (proc s)) + m))
  /\ slept (proc s')
     = slept (proc s) ++ backoff (AgentStep.retry_count st) m
  /\ length (slept (proc s')) = length (slept (proc s)) + m
  /\ AgentTask.status (task s') = AgentStatus.FAILED.
Proof.
  intros Hok Hst Hty [_ Hle] Herr m s'.
  cut (wp (execute_step FeatureImplementerAgent env i)
         (fun o s' =>
            o = Raise (err (length (calls (proc s)) + m))
            /\ slept (proc s')
               = slept (proc s) ++ backoff (AgentStep.retry_count st) m
            /\ AgentTask.status (task s') = AgentStatus.FAILED)
         s).
  { unfold wp. fold s'. intros (Ho&Hs&Hf).
    split; [done|]. split; [done|]. split; [|done].
    rewrite Hs, length_app. unfold backoff.
    by rewrite length_fmap, length_seq. }
  apply wp_execute_step.
  assert (retries_left i s = m) as ->.
  { unfold retries_left. by rewrite (step_at_lookup i s st Hst). }
  replace (S m) with (m + 1) by lia.
  eapply (wp_attempts_fail env i Hok m
            (fun j => err (length (calls (proc s)) + j)) 1 s st);
    [done|done| |by intros j _|].
  { subst m. lia. }
  intros p1 Hc1 Hs1 Hr1.
  eapply (wp_attempt_exhausted env i 0 _ (retried st m)); [done|..].
  - norm. by rewrite list_lookup_insert_eq by by eapply lookup_lt_Some.
  - by destruct m.
  - norm. replace (AgentStep.type (retried st m)) with (AgentStep.type st)
      by by destruct m.
    rewrite Hc1, length_app, length_replicate. apply Herr.
  - destruct m as [|m'] eqn:Hm; simpl; lia.
  - norm. intros p' Hc' Hs'. split; [done|]. split; [|done].
    by rewrite Hs', Hs1.
Qed.

Lemma retries_back_off_exponentially_witness :
  slept (proc (snd (execute_step FeatureImplementerAgent
                      Scenario.handlers_fail 0 Cases.one_step)))
  = [2%Q; 4%Q; 8%Q].
Proof.
  destruct (retries_back_off_exponentially Scenario.handlers_fail 0
              Cases.one_step
              (AgentStep.new "step_0" "Analyze" "look at the code"
                 "analysis" [])
              (fun n => "boom " +:+ pretty n))
    as (_&Hs&_).
  - intros n. reflexivity.
  - reflexivity.
  - apply list_elem_of_here.
  - simpl. lia.
  - intros n. reflexivity.
  - cbv zeta in Hs. rewrite Hs. reflexivity.
Defined.

(** Were a retry count negative, the waits would be fractions of a
    second, as in Python: a step whose retry count is [-2] and whose
    maximum is [0] is retried after half a second and again after one
    second. *)
Example waits_of_a_negative_retry_count :
  let st :=
    AgentStep.mk "step_0" "Analyze" "look at the code" "analysis"
      StepStatus.PENDING ∅ None [] (-2) 0 in
  let s :=
    BaseAgent_init
      (AgentTask.mk "t1" "proj" AgentType.FEATURE_IMPLEMENTER "Add login"
         "Add a login page" AgentStatus.RUNNING 0%Q [st] ∅ None)
      Scenario.process in
  slept (proc (snd (execute_step FeatureImplementerAgent
                      Scenario.handlers_fail 0 s)))
  = [(1 # 2)%Q; 1%Q].
Proof. vm_compute. reflexivity. Qed.

(* ================================================================== *)
(** ** The retry counter                                               *)
(* ================================================================== *)

Lemma step_at_modify_step i f s st :
  AgentTask.steps (task s) !! i = Some st ->
  step_at i (snd (modify_step i f s)) = f st.
Proof. intros Hst. unfold step_at. simpl. by rewrite list_lookup_alter_eq, Hst. Qed.

Section RetryCounter.
Context (cls : AgentClass) (env : Env).
Hypothesis Hlogic :
  forall i j, preserves (retry_frame j) (execute_step_logic cls env i).

#[local] Hint Resolve Hlogic : engine.

(** What [execute_step] does to the retry counter of its step, and the
    state it raises in. *)
Lemma execute_step_rec_retry_count :
  forall fuel i s,
    i < length (AgentTask.steps (task s)) ->
    retries_left i s < fuel ->
    wp (execute_step_rec cls env fuel i)
       (fun o s' =>
          length (AgentTask.steps (task s')) = length (AgentTask.steps (task s))
          /\ AgentStep.max_retries (step_at i s')
             = AgentStep.max_retries (step_at i s)
          /\ (AgentStep.retry_count (step_at i s)
              <= AgentStep.retry_count (step_at i s'))%Z
          /\ (AgentStep.retry_count (step_at i s')
              <= Z.max (AgentStep.retry_count (step_at i s))
                       (AgentStep.max_retries (step_at i s)))%Z
          /\ match o with
             | Ok _ => True
             | Raise _ =>
                 AgentStep.status (step_at i s') = StepStatus.FAILED
                 /\ is_Some (AgentStep.error_message (step_at i s'))
                 /\ AgentTask.status (task s') = AgentStatus.FAILED
                 /\ (AgentStep.max_retries (step_at i s')
                     <= AgentStep.retry_count (step_at i s'))%Z
             end)
       s.
Proof using Hlogic.
  induction fuel as [|fuel IH]; intros i s Hi Hfuel; [lia|].
  unfold retries_left in Hfuel.
  set (rc0 := AgentStep.retry_count (step_at i s)) in *.
  set (mr0 := AgentStep.max_retries (step_at i s)) in *.
  cbn [execute_step_rec]. apply wp_try.
  apply (wp_preserves (retry_frame i)); [preserve|].
  intros o s1 (Hl1&Hc1&Hm1).
  destruct o as [[]|e].
  { rewrite Hl1, Hc1, Hm1. split; [done|]. split; [done|].
    split; [lia|]. split; [lia|done]. }
  destruct (lookup_lt_is_Some_2 (AgentTask.steps (task s1)) i) as [st1 Hst1];
    [lia|].
  rewrite (step_at_lookup i s1 st1 Hst1) in Hc1, Hm1.
  do 3 wp_step. wp_step.
  erewrite !(step_at_lookup i);
    [|norm; rewrite !list_lookup_alter_eq, Hst1;
      cbn [fmap option_fmap option_map]; reflexivity].
  norm.
  destruct (_ <? _)%Z eqn:Hlt.
  - do 5 wp_step. norm.
    eapply wp_mono.
    { apply (IH i).
      - norm. rewrite !length_alter. lia.
      - unfold retries_left. erewrite (step_at_lookup i);
          [|norm; rewrite !list_lookup_alter_eq, Hst1;
            cbn [fmap option_fmap option_map]; reflexivity].
        norm. lia. }
    intros o s' (Hl'&Hm'&Hc'&Hx'&Ho'). revert Hl' Hm' Hc' Hx' Ho'.
    erewrite !(step_at_lookup i {| task := _ |});
      [|norm; rewrite !list_lookup_alter_eq, Hst1;
        cbn [fmap option_fmap option_map]; reflexivity].
    norm. rewrite !length_alter. intros Hl' Hm' Hc' Hx' Ho'.
    split; [lia|]. split; [lia|]. split; [lia|]. split; [lia|done].
  - do 2 wp_step. apply wp_bind.
    apply (wp_preserves same_task); [preserve|].
    intros o s2 Hs2. unfold same_task in Hs2. norm.
    assert (length (AgentTask.steps (task s2))
            = length (AgentTask.steps (task s))
            /\ AgentStep.max_retries (step_at i s2) = mr0
            /\ (rc0 <= AgentStep.retry_count (step_at i s2))%Z
            /\ (AgentStep.retry_count (step_at i s2) <= Z.max rc0 mr0)%Z
            /\ AgentStep.status (step_at i s2) = StepStatus.FAILED
            /\ is_Some (AgentStep.error_message (step_at i s2))
            /\ AgentTask.status (task s2) = AgentStatus.FAILED
            /\ (AgentStep.max_retries (step_at i s2)
                <= AgentStep.retry_count (step_at i s2))%Z) as Hpost.
    { unfold step_at. rewrite Hs2. norm.
      rewrite !length_alter, !list_lookup_alter_eq, Hst1. simpl.
      split; [done|]. split; [done|]. split; [lia|]. split; [lia|].
      split; [done|]. split; [by eexists|]. split; [done|lia]. }
    destruct o as [[]|e2]; [|by intuition].
    apply wp_bind. apply (wp_preserves same_task); [preserve|].
    intros o s3 Hs3. unfold same_task in Hs3.
    assert (step_at i s3 = step_at i s2) as Hat.
    { unfold step_at. by rewrite Hs3. }
    destruct o as [[]|e3]; [apply wp_raise|]; rewrite !Hat, Hs3; by intuition.
Qed.

End RetryCounter.

(** X7.  The retry counter of a step stays within its maximum, whatever
    the store, the hub and the handlers do.  [execute_step] on a step of
    the plan never changes [max_retries], never decreases [retry_count]
    and never takes it beyond [max_retries] (a counter that was already
    beyond stays where it was).  When [execute_step] raises, the retries
    are used up ([retry_count >= max_retries]), the step is FAILED with
    its error message set, and the task is FAILED; when it returns, the
    step is COMPLETED and the status of the task is as it was. *)
Theorem retry_count_stays_within_max_retries (env : Env) (i : nat)
    (s : Agent) :
  i < length (AgentTask.steps (task s)) ->
  let o := fst (execute_step FeatureImplementerAgent env i s) in
  let s' := snd (execute_step FeatureImplementerAgent env i s) in
  AgentStep.max_retries (step_at i s') = AgentStep.max_retries (step_at i s)
  /\ (AgentStep.retry_count (step_at i s)
      <= AgentStep.retry_count (step_at i s'))%Z
  /\ (AgentStep.retry_count (step_at i s')
      <= Z.max (AgentStep.retry_count (step_at i s))
               (AgentStep.max_retries (step_at i s)))%Z
  /\ match o with
     | Ok _ =>
         AgentStep.status (step_at i s') = StepStatus.COMPLETED
         /\ AgentTask.status (task s') = AgentTask.status (task s)
     | Raise _ =>
         AgentStep.status (step_at i s') = StepStatus.FAILED
         /\ is_Some (AgentStep.error_message (step_at i s'))
         /\ AgentTask.status (task s') = AgentStatus.FAILED
         /\ (AgentStep.max_retries (step_at i s')
             <= AgentStep.retry_count (step_at i s'))%Z
     end.
Proof.
  intros Hi o s'.
  pose proof (execute_step_rec_retry_count FeatureImplementerAgent env
                (FeatureImplementerAgent_retry_frame env)
                (S (retries_left i s)) i s Hi (Nat.lt_succ_diag_r _)) as Hrc.
  pose proof (execute_step_ok FeatureImplementerAgent env
                (FeatureImplementerAgent_well_behaved env) i s) as Hok.
  unfold wp in Hrc, Hok. fold (execute_step FeatureImplementerAgent env i s) in Hrc.
  fold o s' in Hrc, Hok.
  destruct Hrc as (Hl&Hm&Hc&Hx&Ho).
  split; [done|]. split; [done|]. split; [done|].
  destruct o as [[]|e]; [|done].
  destruct (Hok eq_refl) as [[Hq _] Hdone].
  destruct (lookup_lt_is_Some_2 (AgentTask.steps (task s')) i) as [st' Hst'];
    [lia|].
  rewrite (step_at_lookup i s' st' Hst'). split; [|done].
  by apply Hdone.
Qed.

Lemma retry_count_stays_within_max_retries_witness :
  let s' :=
    snd (execute_step FeatureImplementerAgent Scenario.handlers_fail 0
           Cases.one_step) in
  AgentStep.retry_count (step_at 0 s') = 3%Z
  /\ AgentStep.max_retries (step_at 0 s') = 3%Z
  /\ AgentStep.status (step_at 0 s') = StepStatus.FAILED.
Proof.
  pose proof (retry_count_stays_within_max_retries Scenario.handlers_fail 0
                Cases.one_step ltac:(simpl; lia)) as H.
  cbv zeta in H. destruct H as (Hm&_&_&_).
  split; [vm_compute; reflexivity|]. split; [exact Hm|].
  vm_compute; reflexivity.
Defined.

(* ================================================================== *)
(** ** The planner                                                     *)
(* ================================================================== *)

Lemma generate_plan_raises env e s :
  planner_error env = Some e ->
  exists lines,
    generate_plan FeatureImplementerAgent env s
    = (Raise e,
       {| task := task s; current_step_index := current_step_index s;
          proc := with_log (log (proc s) ++ lines) (proc s) |}).
Proof.
  unfold planner_error. simpl.
  unfold FeatureImplementerAgent_generate_plan, get_project_files, file_paths,
    call_ai_service.
  destruct (project_files env) as [e1|files].
  { intros [= ->]. by eexists [_]. }
  cbv beta iota delta [mbind mret M_bind M_ret].
  destruct (mapM _ files) as [paths|].
  2:{ intros [= <-]. exists []. rewrite app_nil_r.
      destruct s as [? ? []]. reflexivity. }
  destruct (plan_response env) as [e2|content]; [|done].
  intros [= ->]. by eexists [_].
Qed.

Lemma plan_steps_lookup plan i n d ty deps :
  plan !! i = Some (n, d, ty, deps) ->
  plan_steps plan !! i
  = Some (AgentStep.new ("step_" +:+ pretty i) n d ty deps).
Proof. intros Hi. unfold plan_steps. by rewrite list_lookup_imap, Hi. Qed.

Lemma plan_steps_ids plan :
  AgentStep.id <$> plan_steps plan
  = (fun i => "step_" +:+ pretty i) <$> seq 0 (length plan).
Proof.
  unfold plan_steps. apply list_eq. intros i.
  rewrite !list_lookup_fmap, list_lookup_imap.
  destruct (plan !! i) as [[[[n d] ty] deps]|] eqn:Hi; simpl.
  - rewrite lookup_seq_lt by by eapply lookup_lt_Some. done.
  - rewrite lookup_seq_ge; [done|]. by apply lookup_ge_None.
Qed.

Lemma plan_steps_NoDup plan : NoDup (AgentStep.id <$> plan_steps plan).
Proof.
  rewrite plan_steps_ids. apply NoDup_fmap_2; [|apply NoDup_seq].
  intros i j Hij. apply (inj (String.append "step_")) in Hij.
  by apply (inj pretty).
Qed.

Lemma plan_steps_fresh plan : Forall fresh_step (plan_steps plan).
Proof.
  apply Forall_lookup_2. intros i st. unfold plan_steps.
  rewrite list_lookup_imap.
  destruct (plan !! i) as [[[[n d] ty] deps]|]; [|done].
  intros [= <-]. by repeat split.
Qed.

(** X9.  What [generate_plan] of the feature implementer leaves behind.
    When it returns, the plan is either the parsed one, step by step in
    the order of the answer and with the names, descriptions, types and
    dependencies of the answer, or the built-in plan of five steps; in
    both cases the step ids are pairwise distinct and every step is as
    new (PENDING, no output, no error, no retry counted, three allowed).
    When it raises, the task is as it was, and nothing but the log has
    changed. *)
Theorem generate_plan_makes_fresh_distinct_steps (env : Env) (s : Agent) :
  let s' := snd (generate_plan FeatureImplementerAgent env s) in
  match fst (generate_plan FeatureImplementerAgent env s) with
  | Ok _ =>
      NoDup (AgentStep.id <$> AgentTask.steps (task s'))
      /\ Forall fresh_step (AgentTask.steps (task s'))
      /\ task s' = AgentTask.with_steps (AgentTask.steps (task s')) (task s)
      /\ ((exists content plan,
             plan_response env = inr content
             /\ parse_plan env content = inr plan
             /\ (fun st => (AgentStep.name st, AgentStep.description st,
                            AgentStep.type st, AgentStep.dependencies st))
                <$> AgentTask.steps (task s') = plan)
          \/ AgentTask.steps (task s') = default_plan)
  | Raise e =>
      planner_error env = Some e
      /\ task s' = task s
      /\ exists lines, proc s' = with_log (log (proc s) ++ lines) (proc s)
  end.
Proof.
  destruct (planner_error env) as [e|] eqn:Herr.
  { destruct (generate_plan_raises env e s Herr) as [lines ->]. simpl.
    split; [done|]. split; [done|]. by exists lines. }
  revert Herr. unfold planner_error. simpl.
  unfold FeatureImplementerAgent_generate_plan, get_project_files, file_paths,
    call_ai_service.
  destruct (project_files env) as [e1|files]; [done|].
  cbv beta iota delta [mbind mret M_bind M_ret try_except].
  destruct (mapM _ files) as [paths|]; [|done].
  destruct (plan_response env) as [e2|content]; [done|]. intros _.
  destruct (parse_plan env content) as [e3|plan] eqn:Hparse; simpl.
  - split; [|split; [|split; [done|by right]]].
    + unfold default_plan. simpl.
      repeat (apply NoDup_cons; split;
              [rewrite ?not_elem_of_cons; repeat split; try discriminate;
               apply not_elem_of_nil|]).
      apply NoDup_nil_2.
    + unfold default_plan. repeat (apply Forall_cons; split; [done|]).
      apply Forall_nil_2.
  - split; [apply plan_steps_NoDup|]. split; [apply plan_steps_fresh|].
    split; [done|]. left. exists content, plan. split; [done|]. split; [done|].
    apply list_eq. intros i. rewrite list_lookup_fmap. unfold plan_steps.
    rewrite list_lookup_imap.
    by destruct (plan !! i) as [[[[n d] ty] deps]|].
Qed.

Lemma wp_plan_raises env e (Q : outcome unit -> Agent -> Prop) s :
  planner_error env = Some e ->
  (forall p',
     calls p' = calls (proc s) -> slept p' = slept (proc s) ->
     redis_client p' = redis_client (proc s) ->
     Q (Raise e) {| task := task s; current_step_index := current_step_index s;
                    proc := p' |}) ->
  wp (generate_plan FeatureImplementerAgent env) Q s.
Proof.
  intros Herr HQ. unfold wp.
  destruct (generate_plan_raises env e s Herr) as [lines ->]. simpl.
  by apply HQ.
Qed.

(** X8.  A failure of a collaborator of the planner is fatal.  When the
    project service raises, or a project file has no path, or the AI
    service raises, a feature implementer task submitted to a process
    with a Redis client and a store that does not fail ends FAILED with
    the text of that exception as its error message, with no plan, no
    handler called and no wait; and that is what a query returns. *)
Theorem planner_failure_is_fatal (env : Env) (uuid e : string)
    (request : CreateAgentTaskRequest) (p : Process) :
  planner_error env = Some e ->
  store_ok env ->
  is_Some (redis_client p) ->
  req_agent_type request = AgentType.FEATURE_IMPLEMENTER ->
  let final := snd (submit env uuid request p) in
  AgentTask.status (task final) = AgentStatus.FAILED
  /\ AgentTask.error_message (task final) = Some e
  /\ AgentTask.steps (task final) = []
  /\ calls (proc final) = calls p
  /\ slept (proc final) = slept p
  /\ get_agent_task uuid (proc final) = Response (task final).
Proof.
  intros Herr Hok Halive Hty.
  unfold submit, create_agent_task, execute_agent_task, create_agent. simpl.
  rewrite Hty. simpl.
  set (k0 := AgentTask.mk uuid _ _ _ _ _ _ _ _ _).
  set (s0 := BaseAgent_init k0 (store (task_key uuid) k0 p)).
  assert (is_Some (redis_client (proc s0))) as Halive0.
  { simpl. unfold store. destruct Halive as [db ->]. simpl. by eexists. }
  assert (calls (proc s0) = calls p /\ slept (proc s0) = slept p) as [Hc0 Hs0].
  { simpl. unfold store. by destruct (redis_client p). }
  cut (wp (execute FeatureImplementerAgent env)
         (fun o s' =>
            (exists e', o = Raise e')
            /\ AgentTask.status (task s') = AgentStatus.FAILED
            /\ AgentTask.error_message (task s') = Some e
            /\ AgentTask.steps (task s') = []
            /\ calls (proc s') = calls p
            /\ slept (proc s') = slept p
            /\ get_agent_task uuid (proc s') = Response (task s')) s0).
  { unfold wp. destruct (execute FeatureImplementerAgent env s0) as [o s'].
    simpl. intros ([e' ->]&Hpost). simpl.
    unfold get_agent_task in *. simpl. done. }
  unfold execute. apply wp_try.
  sym_step. sym_step. apply wp_bind. apply (wp_plan_raises env e); [done|].
  intros p1 Hc1 Hs1 Hr1. norm.
  do 3 sym_step. sym_step. apply wp_raise. norm.
  split; [by eexists|]. split; [done|]. split; [done|]. split; [done|].
  split; [congruence|]. split; [congruence|].
  apply Hredis0. rewrite Hr1. by apply Hredis.
Qed.

Lemma planner_failure_is_fatal_witness :
  let final :=
    snd (submit Scenario.planner_timeout "t1"
           (Scenario.request AgentType.FEATURE_IMPLEMENTER)
           Scenario.process) in
  AgentTask.status (task final) = AgentStatus.FAILED
  /\ AgentTask.error_message (task final) = Some "timed out"
  /\ get_agent_task "t1" (proc final) = Response (task final).
Proof.
  destruct (planner_failure_is_fatal Scenario.planner_timeout "t1"
              "timed out" (Scenario.request AgentType.FEATURE_IMPLEMENTER)
              Scenario.process eq_refl (fun _ => eq_refl)
              (mk_is_Some _ _ eq_refl) eq_refl)
    as (Hst&He&_&_&_&Hget).
  split; [exact Hst|]. split; [exact He | exact Hget].
Defined.

(* ================================================================== *)
(** ** An engine with no Redis client                                  *)
(* ================================================================== *)

Lemma store_less_simulation env base :
  simulation (store_less base) FeatureImplementerAgent env
    (with_healthy_store env).
Proof.
  apply FeatureImplementerAgent_simulation; try done.
  - by intros s1 s2 (?&_).
  - by intros s1 s2 (_&_&_&_&_&_&_&_&_&?&_).
  - intros g. unfold related; intros ? ? ?; split; [done|];
      unfold store_less in *; simpl in *; intuition congruence.
  - intros i. unfold related; intros ? ? ?; split; [done|];
      unfold store_less in *; simpl in *; intuition congruence.
  - intros l. unfold related; intros ? ? ?; split; [done|];
      unfold store_less in *; simpl in *; intuition congruence.
  - intros d. unfold related; intros ? ? ?; split; [done|];
      unfold store_less in *; simpl in *; intuition congruence.
  - intros c. unfold related; intros ? ? ?; split; [done|];
      unfold store_less in *; simpl in *; intuition congruence.
  - intros s1 s2 HR. pose proof HR as (Ht&?&Hn&?&[db Hdb]&?).
    unfold save_task, redis_setex. rewrite Hn, Hdb. simpl.
    split; [done|]. unfold store_less in *. simpl.
    intuition (try congruence). by eexists.
  - intros s1 s2 HR. pose proof HR as (Ht&?&?&?&?&Hc&Hw&?&?&?&?).
    unfold broadcast_update. rewrite Ht, Hc. simpl.
    destruct (active_connections (proc s2) !! _); [|by split].
    unfold try_except, send_text. rewrite Hw. simpl.
    destruct (ws_fault env _); simpl; (split; [done|]);
      unfold store_less in *; simpl; intuition congruence.
Qed.

(** X10.  With no Redis client the engine runs as with a store that
    never fails, and stores nothing.  An execution of a feature
    implementer in a process whose [redis_client] is not set returns or
    raises as the execution in the same process with a Redis client and
    a store without failures, and ends with the same task, the same
    deliveries, the same log lines, the same handler calls and the same
    waits; its [redis_client] is still not set and it has stored no
    snapshot, whatever failures the environment holds for Redis
    commands. *)
Theorem engine_without_redis_runs_alike (env : Env) (db : Redis) (s : Agent) :
  redis_client (proc s) = None ->
  let with_client :=
    with_proc (with_redis (Some db) (redis_ops (proc s)) (proc s)) s in
  let r1 := execute FeatureImplementerAgent env s in
  let r2 := execute FeatureImplementerAgent (with_healthy_store env)
              with_client in
  fst r1 = fst r2 /\ store_less (writes (proc s)) (snd r1) (snd r2).
Proof.
  intros Hnone with_client r1 r2.
  apply (execute_related (store_less (writes (proc s)))
           FeatureImplementerAgent env (with_healthy_store env)
           (store_less_simulation env _) s with_client).
  unfold store_less. simpl. repeat (split; [done|]). done.
Qed.

Lemma engine_without_redis_runs_alike_witness :
  let s :=
    BaseAgent_init
      (resp_task (fst (create_agent_task "t1"
         (Scenario.request AgentType.FEATURE_IMPLEMENTER) Scenario.process)))
      (with_redis None 0 Scenario.process) in
  let final := snd (execute FeatureImplementerAgent Scenario.redis_down_once s) in
  AgentTask.status (task final) = AgentStatus.COMPLETED
  /\ redis_client (proc final) = None
  /\ writes (proc final) = [].
Proof.
  intros s final.
  destruct (engine_without_redis_runs_alike Scenario.redis_down_once ∅ s
              eq_refl) as (_&Ht&_&Hn&Hw&_).
  split; [|split; [exact Hn | exact Hw]].
  cbv zeta in Ht. unfold final. rewrite Ht. vm_compute. reflexivity.
Defined.

(* ================================================================== *)
(** ** The WebSocket endpoint and the notification hub                 *)
(* ================================================================== *)

(** X11.  Updates of a task are addressed to the socket registered last
    for the project of the task, and to no other.  After a client has
    connected on [/agents/ws/{project_id}], [broadcast_update] for a task
    of that project makes one delivery attempt, for the socket of that
    client, also when another socket was registered for the project
    before: either the delivery raises, and then the exception is logged
    and nothing is sent, or the task is sent once, to that socket.  For
    a task of a project without a registered socket nothing is attempted
    and the process is left as it is, whatever is registered for other
    projects.  [broadcast_update] returns in every case and leaves the
    task as it is. *)
Theorem updates_are_addressed_to_the_latest_socket (env : Env) (s : Agent)
    (websocket : WebSocket) (project_id : string) :
  let connected :=
    with_proc (websocket_endpoint_open websocket project_id (proc s)) s in
  let s' := snd (broadcast_update env connected) in
  let addressee :=
    if decide (AgentTask.project_id (task s) = project_id)
    then Some websocket
    else active_connections (proc s) !! AgentTask.project_id (task s) in
  fst (broadcast_update env connected) = Ok tt
  /\ task s' = task s
  /\ match addressee with
     | None => proc s' = proc connected
     | Some ws =>
         ws_ops (proc s') = S (ws_ops (proc s))
         /\ match ws_fault env (ws_ops (proc s)) with
            | Some e =>
                sent (proc s') = sent (proc s)
                /\ log (proc s')
                   = log (proc s) ++ ["Failed to broadcast update: " +:+ e]
            | None =>
                sent (proc s') = sent (proc s) ++ [(ws, task s)]
                /\ log (proc s') = log (proc s)
            end
     end.
Proof.
  intros connected s' addressee. subst s' addressee.
  unfold broadcast_update. simpl.
  destruct (decide (AgentTask.project_id (task s) = project_id)) as [->|Hne].
  - rewrite lookup_insert_eq. unfold try_except, send_text. simpl.
    by destruct (ws_fault env _).
  - rewrite lookup_insert_ne by done.
    destruct (active_connections (proc s) !! _); [|done].
    unfold try_except, send_text. simpl. by destruct (ws_fault env _).
Qed.

(** X12.  A disconnection unregisters the project, not the socket.  When
    the receive loop of a [websocket_endpoint] handler ends with
    [WebSocketDisconnect], the entry of the project is deleted even if
    it holds a socket registered later by another client: after two
    clients have connected for the same project and the first has
    disconnected, no socket is registered for the project and
    [broadcast_update] for its tasks attempts no delivery, although the
    second client is still connected.  The sockets of other projects
    stay registered.  A handler that ends with another exception leaves
    its entry in place. *)
Theorem disconnect_unregisters_the_project (env : Env) (s : Agent)
    (first second : WebSocket) (project_id : string) :
  let p2 :=
    websocket_endpoint_open second project_id
      (websocket_endpoint_open first project_id (proc s)) in
  let p3 := snd (websocket_endpoint_close project_id WebSocketDisconnect p2) in
  active_connections p2 !! project_id = Some second
  /\ active_connections p3 !! project_id = None
  /\ (forall other, other <> project_id ->
        active_connections p3 !! other = active_connections (proc s) !! other)
  /\ (forall k c,
        AgentTask.project_id k = project_id ->
        broadcast_update env {| task := k; current_step_index := c; proc := p3 |}
        = (Ok tt, {| task := k; current_step_index := c; proc := p3 |}))
  /\ forall e,
       websocket_endpoint_close project_id (OtherException e) p2
       = (Raise e, p2).
Proof.
  simpl. rewrite lookup_insert_eq.
  destruct (decide _) as [_|Hno]; [|by destruct Hno; eexists].
  simpl. split; [done|]. split; [by rewrite lookup_delete_eq|].
  split; [|split; [|done]].
  - intros other Hne. by rewrite lookup_delete_ne, !lookup_insert_ne.
  - intros k c Hk. unfold broadcast_update. simpl.
    by rewrite Hk, lookup_delete_eq.
Qed.

(* ================================================================== *)
(** ** What the hub is sent                                            *)
(* ================================================================== *)

#[global] Instance unsent_preorder : PreOrder unsent.
Proof. split; [by intros s|]. intros s1 s2 s3. unfold unsent. congruence. Qed.

#[global] Instance delivered_preorder P : PreOrder (delivered P).
Proof.
  split.
  - intros s. exists []. by rewrite app_nil_r.
  - intros s1 s2 s3 (n1&H1&Hn1) (n2&H2&Hn2). exists (n1 ++ n2).
    split; [by rewrite H2, H1, app_assoc|]. by apply Forall_app.
Qed.

#[global] Instance working_preorder r : PreOrder (working r).
Proof.
  split.
  - intros s Hs. split; [done|]. reflexivity.
  - intros s1 s2 s3 H12 H23 H1. destruct (H12 H1) as [H2 Hd12].
    destruct (H23 H2) as [H3 Hd23]. split; [done|]. by etrans.
Qed.

Lemma unsent_delivered P {A} (m : M A) :
  preserves unsent m -> preserves (delivered P) m.
Proof.
  apply preserves_weaken. intros s s' Hs. exists [].
  by rewrite app_nil_r.
Qed.

(** What leaves the hub alone and keeps the status and the result of the
    task keeps a task at work at work. *)
Lemma working_intro r s s' :
  sent (proc s') = sent (proc s) ->
  AgentTask.status (task s') = AgentTask.status (task s) ->
  AgentTask.result (task s') = AgentTask.result (task s) ->
  working r s s'.
Proof.
  intros Hsent Hst Hres [Hw Hr]. split.
  - split; congruence.
  - exists []. by rewrite app_nil_r.
Qed.

Lemma modify_proc_unsent f :
  (forall p, sent (f p) = sent p) -> preserves unsent (modify_proc f).
Proof. intros Hf s. apply Hf. Qed.

Lemma logger_unsent l : preserves unsent (logger l).
Proof. by intros s. Qed.

Lemma modify_task_unsent f : preserves unsent (modify_task f).
Proof. by intros s. Qed.

Lemma modify_step_unsent i f : preserves unsent (modify_step i f).
Proof. by intros s. Qed.

Lemma save_task_unsent env : preserves unsent (save_task env).
Proof. intros s. by destruct (save_task_spec env s) as (_&_&_&_&_&_&?&_). Qed.

Lemma logger_working r l : preserves (working r) (logger l).
Proof. intros s. by apply working_intro. Qed.

Lemma sleep_working r d : preserves (working r) (sleep d).
Proof. intros s. by apply working_intro. Qed.

Lemma set_current_step_index_working r i :
  preserves (working r) (set_current_step_index i).
Proof. intros s. by apply working_intro. Qed.

Lemma record_call_working r c :
  preserves (working r) (modify_proc (fun p => with_calls (calls p ++ [c]) p)).
Proof. intros s. by apply working_intro. Qed.

Lemma modify_step_working r i f : preserves (working r) (modify_step i f).
Proof. intros s. by apply working_intro. Qed.

Lemma set_steps_working r steps :
  preserves (working r) (modify_task (AgentTask.with_steps steps)).
Proof. intros s. by apply working_intro. Qed.

Lemma set_progress_working r q :
  preserves (working r) (modify_task (AgentTask.with_progress q)).
Proof. intros s. by apply working_intro. Qed.

Lemma set_error_message_working r v :
  preserves (working r) (modify_task (AgentTask.with_error_message v)).
Proof. intros s. by apply working_intro. Qed.

Lemma fail_task_working r :
  preserves (working r) (modify_task (AgentTask.with_status AgentStatus.FAILED)).
Proof.
  intros s [Hw Hr]. split.
  - split; [by right|done].
  - exists []. by rewrite app_nil_r.
Qed.

Lemma save_task_working r env : preserves (working r) (save_task env).
Proof.
  intros s. destruct (save_task_spec env s) as (Ht&_&_&_&_&_&Hsent&_).
  apply working_intro; [done|by rewrite Ht..].
Qed.

(** [broadcast_update] delivers the task as it is, or nothing. *)
Lemma broadcast_update_working r env :
  preserves (working r) (broadcast_update env).
Proof.
  intros s Hw. unfold broadcast_update.
  destruct (active_connections (proc s) !! _) as [ws|].
  2:{ split; [done|]. reflexivity. }
  unfold try_except, send_text. destruct (ws_fault env _); simpl.
  - split; [done|]. exists []. by rewrite app_nil_r.
  - split; [done|]. exists [(ws, task s)]. split; [done|].
    by apply Forall_singleton.
Qed.

#[local] Hint Resolve logger_working sleep_working
  set_current_step_index_working record_call_working modify_step_working
  set_steps_working set_progress_working set_error_message_working
  fail_task_working save_task_working broadcast_update_working : engine.
#[local] Hint Resolve logger_unsent modify_task_unsent modify_step_unsent
  save_task_unsent : engine.

Lemma run_handler_working r env kind n i :
  preserves (working r) (run_handler env kind n i).
Proof. unfold run_handler. preserve. Qed.

Lemma generate_plan_working r env :
  preserves (working r) (generate_plan FeatureImplementerAgent env).
Proof.
  simpl. unfold FeatureImplementerAgent_generate_plan, get_project_files,
    file_paths, call_ai_service. preserve.
Qed.

Lemma logger_delivered P l : preserves (delivered P) (logger l).
Proof. apply unsent_delivered, logger_unsent. Qed.

Lemma modify_task_delivered P f : preserves (delivered P) (modify_task f).
Proof. apply unsent_delivered, modify_task_unsent. Qed.

Lemma save_task_delivered P env : preserves (delivered P) (save_task env).
Proof. apply unsent_delivered, save_task_unsent. Qed.

Lemma sum_outputs_delivered P key steps :
  preserves (delivered P) (sum_outputs key steps).
Proof. apply unsent_delivered. unfold sum_outputs. preserve. Qed.

#[local] Hint Resolve generate_plan_working logger_delivered
  modify_task_delivered save_task_delivered sum_outputs_delivered : engine.

Lemma execute_step_rec_working r env fuel i :
  preserves (working r)
    (execute_step_rec FeatureImplementerAgent env fuel i).
Proof.
  induction fuel as [|fuel IH]; simpl; preserve; apply run_handler_working.
Qed.

Lemma execute_step_working r env i :
  preserves (working r) (execute_step FeatureImplementerAgent env i).
Proof. intros s. apply execute_step_rec_working. Qed.

#[local] Hint Resolve execute_step_working : engine.

Lemma execute_loop_working r env indices :
  preserves (working r) (execute_loop FeatureImplementerAgent env indices).
Proof. induction indices as [|i rest IH]; simpl; preserve. Qed.

(** X21.  What the hub is sent.  Through an execution of a feature
    implementer, whatever the store, the hub, the planner and the
    handlers do, every update delivered to a WebSocket is of the task
    with status RUNNING or FAILED and with the result it had at the
    start: the COMPLETED task and its result are never delivered, since
    [broadcast_update] is called from [execute_step] only. *)
Theorem completion_is_never_delivered (env : Env) (s : Agent) :
  let s' := snd (execute FeatureImplementerAgent env s) in
  exists new,
    sent (proc s') = sent (proc s) ++ new
    /\ Forall (fun d =>
         (AgentTask.status (snd d) = AgentStatus.RUNNING
          \/ AgentTask.status (snd d) = AgentStatus.FAILED)
         /\ AgentTask.result (snd d) = AgentTask.result (task s)) new.
Proof.
  set (r := AgentTask.result (task s)).
  change (wp (execute FeatureImplementerAgent env)
            (fun _ s' => delivered (unfinished r) s s') s).
  unfold execute. apply wp_try.
  eapply wp_mono with (Q := fun _ s' => delivered (unfinished r) s s').
  2:{ intros [[]|e] s' Hd; [done|].
      apply (wp_preserves (delivered (unfinished r))).
      - preserve.
      - intros _ s'' Hd'. by etrans. }
  wp_step.
  match goal with |- wp _ _ ?s0 => set (s1 := s0) end.
  assert (unfinished r (task s1)) as Hw1 by (split; [by left|done]).
  assert (delivered (unfinished r) s s1) as Hd1.
  { exists []. by rewrite app_nil_r. }
  apply wp_bind.
  apply (wp_preserves (working r)); [apply save_task_working|].
  intros o s2 H2. destruct (H2 Hw1) as [Hw2 Hd2].
  assert (delivered (unfinished r) s s2) as Hd2' by by etrans.
  destruct o as [[]|e]; [|done].
  apply wp_bind.
  apply (wp_preserves (working r)); [apply generate_plan_working|].
  intros o s3 H3. destruct (H3 Hw2) as [Hw3 Hd3].
  assert (delivered (unfinished r) s s3) as Hd3' by by etrans.
  destruct o as [[]|e]; [|done].
  wp_step. apply wp_bind.
  apply (wp_preserves (working r)); [apply execute_loop_working|].
  intros o s4 H4. destruct (H4 Hw3) as [Hw4 Hd4].
  assert (delivered (unfinished r) s s4) as Hd4' by by etrans.
  destruct o as [[]|e]; [|done].
  apply (wp_preserves (delivered (unfinished r))).
  - preserve.
  - intros _ s5 Hd5. by etrans.
Qed.

(* ================================================================== *)
(** ** The notification hub as it is written                           *)
(* ================================================================== *)

Lemma sleep_unsent d : preserves unsent (sleep d).
Proof. by intros s. Qed.

Lemma set_current_step_index_unsent i :
  preserves unsent (set_current_step_index i).
Proof. by intros s. Qed.

Lemma record_call_unsent c :
  preserves unsent (modify_proc (fun p => with_calls (calls p ++ [c]) p)).
Proof. by intros s. Qed.

Lemma run_handler_unsent env kind n i :
  preserves unsent (run_handler env kind n i).
Proof. unfold run_handler. preserve. Qed.

Lemma sum_outputs_unsent key steps : preserves unsent (sum_outputs key steps).
Proof. unfold sum_outputs. preserve. Qed.

Lemma get_project_files_unsent env : preserves unsent (get_project_files env).
Proof. unfold get_project_files. preserve. Qed.

Lemma file_paths_unsent files : preserves unsent (file_paths files).
Proof. unfold file_paths. preserve. Qed.

Lemma call_ai_service_unsent env : preserves unsent (call_ai_service env).
Proof. unfold call_ai_service. preserve. Qed.

(** With a socket registered, [broadcast_update] logs the [TypeError] and
    sends nothing. *)
Lemma broadcast_update_as_written env s ws :
  active_connections (proc s) !! AgentTask.project_id (task s) = Some ws ->
  broadcast_update (hub_as_written env) s
  = (Ok tt,
     with_proc
       (with_log (log (proc s)
                  ++ ["Failed to broadcast update: " +:+ not_serializable])
          (with_ws (S (ws_ops (proc s))) (sent (proc s)) (proc s))) s).
Proof. intros Hws. unfold broadcast_update. by rewrite Hws. Qed.

Lemma broadcast_update_unsent env :
  preserves unsent (broadcast_update (hub_as_written env)).
Proof.
  intros s.
  destruct (active_connections (proc s) !! AgentTask.project_id (task s))
    as [ws|] eqn:Hws.
  - by rewrite (broadcast_update_as_written env s ws Hws).
  - unfold broadcast_update. by rewrite Hws.
Qed.

#[local] Hint Resolve sleep_unsent set_current_step_index_unsent
  record_call_unsent sum_outputs_unsent get_project_files_unsent
  file_paths_unsent call_ai_service_unsent
  broadcast_update_unsent : engine.

Lemma execute_step_rec_unsent env fuel i :
  preserves unsent
    (execute_step_rec FeatureImplementerAgent (hub_as_written env) fuel i).
Proof.
  induction fuel as [|fuel IH]; simpl; preserve; apply run_handler_unsent.
Qed.

Lemma execute_step_unsent env i :
  preserves unsent
    (execute_step FeatureImplementerAgent (hub_as_written env) i).
Proof. intros s. apply execute_step_rec_unsent. Qed.

#[local] Hint Resolve execute_step_unsent : engine.

Lemma execute_loop_unsent env indices :
  preserves unsent
    (execute_loop FeatureImplementerAgent (hub_as_written env) indices).
Proof. induction indices as [|i rest IH]; simpl; preserve. Qed.

#[local] Hint Resolve execute_loop_unsent : engine.


(* ================================================================== *)
(** ** Rules for the handler coroutines                                *)
(* ================================================================== *)

Section HandlerRules.
Import Handlers.
Context {A B : Type}.
Implicit Types (m : W A) (k : A -> W B) (w : World).

Lemma bindw_eq m k w :
  (m ≫= k) w = match m w with
               | (Ok a, w') => k a w'
               | (Raise e, w') => (Raise e, w')
               end.
Proof. reflexivity. Qed.

Lemma wpw_bind m k (Q : outcome B -> World -> Prop) w :
  wpw m (fun o w' => match o with
                     | Ok a => wpw (k a) Q w'
                     | Raise e => Q (Raise e) w'
                     end) w ->
  wpw (m ≫= k) Q w.
Proof. unfold wpw. rewrite bindw_eq. by destruct (m w) as [[a|e] w']. Qed.

Lemma wpw_try (m : W A) (h : string -> W A)
    (Q : outcome A -> World -> Prop) w :
  wpw m (fun o w' => match o with
                     | Ok a => Q (Ok a) w'
                     | Raise e => wpw (h e) Q w'
                     end) w ->
  wpw (Handlers.try_except m h) Q w.
Proof. unfold wpw, Handlers.try_except. by destruct (m w) as [[a|e] w']. Qed.

Lemma wpw_mono m (Q Q' : outcome A -> World -> Prop) w :
  wpw m Q w -> (forall o w', Q o w' -> Q' o w') -> wpw m Q' w.
Proof. unfold wpw. auto. Qed.

Lemma wpw_keeps (R : World -> World -> Prop) m
    (Q : outcome A -> World -> Prop) w :
  keeps R m -> (forall o w', R w w' -> Q o w') -> wpw m Q w.
Proof. intros Hm HQ. apply HQ, Hm. Qed.

End HandlerRules.

Lemma with_log_nil p : with_log (log p ++ []) p = p.
Proof. rewrite app_nil_r. by destruct p. Qed.

#[global] Instance task_untouched_preorder : PreOrder task_untouched.
Proof.
  split.
  - intros w. split; [done|]. split; [done|]. split.
    + exists []. by rewrite with_log_nil.
    + exists []. by rewrite app_nil_r.
  - intros w1 w2 w3 (Ht&Hc&[l1 Hl]&[n1 Hn]) (Ht'&Hc'&[l2 Hl']&[n2 Hn']).
    split; [congruence|]. split; [congruence|]. split.
    + exists (l1 ++ l2). rewrite Hl', Hl. simpl. by rewrite app_assoc.
    + exists (n1 ++ n2). rewrite Hn', Hn. by rewrite app_assoc.
Qed.

Section Untouched.
Import Handlers.

Lemma keeps_ret {A} (a : A) : keeps task_untouched (mret a : W A).
Proof. intros w. simpl. reflexivity. Qed.

Lemma keeps_raise {A} e : keeps task_untouched (Handlers.raise e : W A).
Proof. intros w. simpl. reflexivity. Qed.

Lemma keeps_eval {A} (r : string + A) : keeps task_untouched (eval r).
Proof. destruct r; [apply keeps_raise | apply keeps_ret]. Qed.

Lemma keeps_bind {A B} (m : W A) (k : A -> W B) :
  keeps task_untouched m -> (forall a, keeps task_untouched (k a)) ->
  keeps task_untouched (m ≫= k).
Proof.
  intros Hm Hk w. rewrite bindw_eq. specialize (Hm w).
  destruct (m w) as [[a|e] w']; simpl in *; [|done].
  etrans; [exact Hm | apply Hk].
Qed.

Lemma keeps_try {A} (m : W A) (h : string -> W A) :
  keeps task_untouched m -> (forall e, keeps task_untouched (h e)) ->
  keeps task_untouched (Handlers.try_except m h).
Proof.
  intros Hm Hh w. unfold Handlers.try_except. specialize (Hm w).
  destruct (m w) as [[a|e] w']; simpl in *; [done|].
  etrans; [exact Hm | apply Hh].
Qed.

Lemma keeps_send r : keeps task_untouched (send r).
Proof.
  intros w. split; [done|]. split; [done|]. split.
  - exists []. exact (eq_sym (with_log_nil _)).
  - by eexists.
Qed.

Lemma keeps_gets {A} (f : Agent -> A) : keeps task_untouched (lift (gets f)).
Proof. intros w. unfold lift. simpl. destruct w. reflexivity. Qed.

Lemma keeps_logger l : keeps task_untouched (lift (logger l)).
Proof.
  intros w. unfold lift. simpl. split; [done|]. split; [done|]. split.
  - by eexists.
  - exists []. by rewrite app_nil_r.
Qed.

Lemma keeps_file_paths fs : keeps task_untouched (lift (file_paths fs)).
Proof.
  intros w. unfold lift, file_paths.
  destruct (mapM _ fs); simpl; destruct w; reflexivity.
Qed.

Lemma keeps_for_each {A} (l : list A) (body : A -> W unit) :
  (forall x, keeps task_untouched (body x)) ->
  keeps task_untouched (for_each l body).
Proof.
  intros Hbody. induction l as [|x l IH]; simpl; [apply keeps_ret|].
  apply keeps_bind; [apply Hbody | by intros _].
Qed.

End Untouched.

Create HintDb handlers.
#[local] Hint Resolve keeps_ret keeps_raise keeps_eval keeps_send keeps_gets
  keeps_logger keeps_file_paths : handlers.

Ltac untouched :=
  repeat first
    [ apply keeps_bind; [|intros ?]
    | apply keeps_try; [|intros ?]
    | apply keeps_for_each; intros ?
    | solve [eauto with handlers]
    | match goal with
      | |- keeps _ (match ?x with _ => _ end) => destruct x
      end ].

Lemma keeps_call_ai_service svc prompt model :
  keeps task_untouched (Handlers.call_ai_service svc prompt model).
Proof. unfold Handlers.call_ai_service. untouched. Qed.

Lemma keeps_get_project_files svc project_id :
  keeps task_untouched (Handlers.get_project_files svc project_id).
Proof. unfold Handlers.get_project_files. untouched. Qed.

Lemma keeps_create_file svc project_id path content :
  keeps task_untouched (Handlers.create_file svc project_id path content).
Proof. unfold Handlers.create_file. untouched. Qed.

Lemma keeps_update_file svc project_id path content :
  keeps task_untouched (Handlers.update_file svc project_id path content).
Proof. unfold Handlers.update_file. untouched. Qed.

Lemma keeps_steps_item k : keeps task_untouched (Handlers.steps_item k).
Proof. unfold Handlers.steps_item. untouched. Qed.

Lemma keeps_write_files write data key :
  (forall project_id path content,
     keeps task_untouched (write project_id path content)) ->
  keeps task_untouched (Handlers.write_files write data key).
Proof. intros Hw. unfold Handlers.write_files. untouched. Qed.

Lemma keeps_count_files data key :
  keeps task_untouched (Handlers.count_files data key).
Proof. unfold Handlers.count_files. untouched. Qed.

#[local] Hint Resolve keeps_call_ai_service keeps_get_project_files
  keeps_create_file keeps_update_file keeps_steps_item keeps_count_files
  : handlers.
#[local] Hint Extern 1 (keeps _ (Handlers.write_files _ _ _)) =>
  apply keeps_write_files; intros ? ? ? : handlers.

(** One more action that leaves the task alone, on the way from [w0]. *)
Lemma wpw_untouched {A B} (m : Handlers.W A) (k : A -> Handlers.W B)
    (Q : outcome B -> Handlers.World -> Prop) w0 w :
  keeps task_untouched m ->
  task_untouched w0 w ->
  (forall e w', task_untouched w0 w' -> Q (Raise e) w') ->
  (forall a w', task_untouched w0 w' -> wpw (k a) Q w') ->
  wpw (m ≫= k) Q w.
Proof.
  intros Hm Hw HQ Hk. apply wpw_bind. apply (wpw_keeps task_untouched _ _ _ Hm).
  intros o w' Hw'. assert (task_untouched w0 w') by by etrans.
  destruct o; auto.
Qed.

(** The assignment to [step.output_data] that ends a handler. *)
Lemma wpw_set_output_data i out w0 w :
  countable out -> task_untouched w0 w ->
  wpw (Handlers.set_output_data i out)
      (fun o w' => o = Ok tt /\ handled i w0 w') w.
Proof.
  intros Hout (Ht&Hc&Hl&Hn). unfold wpw, Handlers.set_output_data, Handlers.lift.
  simpl. split; [done|]. split; [done|]. split; [done|]. split; [done|].
  exists out. split; [done|]. by rewrite Ht.
Qed.

(* ================================================================== *)
(** ** What the handlers touch                                         *)
(* ================================================================== *)

Ltac countable_output :=
  let key := fresh "key" in
  let Hk := fresh "Hk" in
  intros key Hk; unfold counted_keys in Hk;
  rewrite !elem_of_cons, elem_of_nil in Hk;
  destruct Hk as [->|[->|[->|[->|[]]]]];
  repeat first [ rewrite lookup_insert_eq
               | rewrite lookup_insert_ne by done
               | rewrite lookup_singleton_eq
               | rewrite lookup_singleton_ne by done
               | rewrite lookup_empty ];
  done.

Ltac handler_ends w0 :=
  eapply wpw_mono;
  [ eapply (wpw_set_output_data _ _ w0);
    [countable_output | first [eassumption | reflexivity]]
  | by intros ? ? [-> ?] ].

(** The handler of the exceptions of a handler: a log line and an
    [output_data] that tells the error. *)
Lemma error_output_frame i w0 line raw e w :
  task_untouched w0 w ->
  wpw (Handlers.lift (logger line);;
       Handlers.set_output_data i
         (<["error" := PyStr e]> (<["raw_response" := PyStr raw]> ∅)))
      (handler_post i w0) w.
Proof.
  intros Hw. eapply (wpw_untouched _ _ _ w0); [apply keeps_logger|done|done|].
  intros _ w' Hw'. handler_ends w0.
Qed.

Ltac handler_step w0 :=
  eapply (wpw_untouched _ _ _ w0);
  [ solve [eauto with handlers]
  | first [eassumption | reflexivity]
  | first [ by intros
          | intros; by apply error_output_frame ]
  | intros ? ? ? ].

Lemma analyze_requirements_frame svc i w :
  wpw (Handlers.analyze_requirements svc i) (handler_post i w) w.
Proof.
  unfold Handlers.analyze_requirements.
  do 5 handler_step w. handler_ends w.
Qed.

Lemma design_implementation_frame svc i w :
  wpw (Handlers.design_implementation svc i) (handler_post i w) w.
Proof.
  unfold Handlers.design_implementation.
  do 3 handler_step w. handler_ends w.
Qed.

Lemma implement_feature_frame svc i w :
  wpw (Handlers.implement_feature svc i) (handler_post i w) w.
Proof.
  unfold Handlers.implement_feature.
  do 6 handler_step w. apply wpw_try.
  do 5 handler_step w. handler_ends w.
Qed.

Lemma generate_tests_frame svc i w :
  wpw (Handlers.generate_tests svc i) (handler_post i w) w.
Proof.
  unfold Handlers.generate_tests.
  do 3 handler_step w. apply wpw_try.
  do 3 handler_step w. handler_ends w.
Qed.

Lemma update_documentation_frame svc i w :
  wpw (Handlers.update_documentation svc i) (handler_post i w) w.
Proof.
  unfold Handlers.update_documentation.
  do 3 handler_step w. apply wpw_try.
  do 3 handler_step w. handler_ends w.
Qed.

Lemma wpw_gets {A B} (f : Agent -> A) (k : A -> Handlers.W B)
    (Q : outcome B -> Handlers.World -> Prop) w :
  wpw (k (f (Handlers.agent w))) Q w ->
  wpw (Handlers.lift (gets f) ≫= k) Q w.
Proof. by destruct w. Qed.

Lemma execute_step_logic_frame svc i w :
  wpw (Handlers.execute_step_logic svc i)
      (fun o w' =>
         match o with
         | Raise _ => task_untouched w w'
         | Ok _ => handled i w w' \/ task_untouched w w'
         end) w.
Proof.
  assert (forall m : Handlers.W unit,
            wpw m (handler_post i w) w ->
            wpw m (fun o w' =>
                     match o with
                     | Raise _ => task_untouched w w'
                     | Ok _ => handled i w w' \/ task_untouched w w'
                     end) w) as Hpost.
  { intros m Hm. eapply wpw_mono; [exact Hm|]. intros [[]|e] w'; simpl; auto. }
  unfold Handlers.execute_step_logic. apply wpw_gets.
  repeat match goal with
         | |- context [if String.eqb ?a ?b then _ else _] =>
             destruct (String.eqb a b)
         end.
  - apply (Hpost _ (analyze_requirements_frame svc i _)).
  - apply (Hpost _ (design_implementation_frame svc i _)).
  - apply (Hpost _ (implement_feature_frame svc i _)).
  - apply (Hpost _ (generate_tests_frame svc i _)).
  - apply (Hpost _ (update_documentation_frame svc i _)).
  - right. apply keeps_logger.
Qed.

(* ================================================================== *)
(** ** Finalization                                                    *)
(* ================================================================== *)

Lemma py_sum_from_countable key steps : forall acc,
  key ∈ counted_keys ->
  Forall (fun st => countable (AgentStep.output_data st)) steps ->
  py_sum_from acc
    (map (fun st => default (PyInt 0) (AgentStep.output_data st !! key)) steps)
  = inr (acc + total key steps)%Z.
Proof.
  intros acc Hkey Hall. revert acc.
  induction Hall as [|st steps Hst Hall IH]; intros acc; simpl.
  { by rewrite Z.add_0_r. }
  specialize (Hst key Hkey). unfold counted.
  destruct (AgentStep.output_data st !! key) as [[]|]; simpl in *;
    try done; rewrite IH; f_equal; lia.
Qed.

Lemma sum_outputs_countable key steps s :
  key ∈ counted_keys ->
  Forall (fun st => countable (AgentStep.output_data st)) steps ->
  sum_outputs key steps s = (Ok (total key steps), s).
Proof.
  intros Hkey Hall. unfold sum_outputs.
  by rewrite (py_sum_from_countable key steps 0 Hkey Hall).
Qed.

Lemma finalize_task_countable s :
  Forall (fun st => countable (AgentStep.output_data st))
         (AgentTask.steps (task s)) ->
  FeatureImplementerAgent_finalize_task s
  = (Ok tt,
     {| task :=
          AgentTask.with_result
            (<["feature_implemented" := PyBool true]>
             (<["files_created" :=
                  PyInt (total "files_created" (AgentTask.steps (task s)))]>
             (<["files_modified" :=
                  PyInt (total "files_modified" (AgentTask.steps (task s)))]>
             (<["test_files_created" :=
                  PyInt (total "test_files_created"
                           (AgentTask.steps (task s)))]>
             (<["doc_files_updated" :=
                  PyInt (total "doc_files_updated"
                           (AgentTask.steps (task s)))]>
             (<["summary" :=
                  PyStr ("Successfully implemented feature: "
                         +:+ AgentTask.description (task s))]>
             (<["next_steps" :=
                  PyList [PyStr "Review generated code";
                          PyStr "Run tests to verify functionality";
                          PyStr "Test the feature manually";
                          PyStr "Deploy to staging environment"]]>
              ∅)))))))
            (task s);
        current_step_index := current_step_index s;
        proc := proc s |}).
Proof.
  intros Hall. unfold FeatureImplementerAgent_finalize_task.
  rewrite bind_eq. cbn [gets].
  rewrite bind_eq, (sum_outputs_countable "files_created" _ s); [|set_solver|done].
  rewrite bind_eq, (sum_outputs_countable "files_modified" _ s); [|set_solver|done].
  rewrite bind_eq, (sum_outputs_countable "test_files_created" _ s);
    [|set_solver|done].
  rewrite bind_eq, (sum_outputs_countable "doc_files_updated" _ s);
    [|set_solver|done].
  reflexivity.
Qed.

(** X13.  What [finalize_task] adds up.  When every [output_data] of the
    plan holds an integer (or a bool), or nothing, under each of
    ["files_created"], ["files_modified"], ["test_files_created"] and
    ["doc_files_updated"], [finalize_task] returns, and the result of the
    task is replaced by a dict of seven keys in which each of these four
    is the sum over the steps of the values under that key (0 for a step
    without it), ["feature_implemented"] is [True] and ["summary"] names
    the description of the task; nothing else of the task and nothing of
    the process changes. *)
Theorem finalize_task_sums_the_outputs (s : Agent) :
  Forall (fun st => countable (AgentStep.output_data st))
         (AgentTask.steps (task s)) ->
  let s' := snd (FeatureImplementerAgent_finalize_task s) in
  let r := AgentTask.result (task s') in
  fst (FeatureImplementerAgent_finalize_task s) = Ok tt
  /\ (forall key, key ∈ counted_keys ->
        r !! key = Some (PyInt (total key (AgentTask.steps (task s)))))
  /\ r !! "feature_implemented" = Some (PyBool true)
  /\ r !! "summary"
     = Some (PyStr ("Successfully implemented feature: "
                    +:+ AgentTask.description (task s)))
  /\ size r = 7
  /\ task s' = AgentTask.with_result r (task s)
  /\ proc s' = proc s.
Proof.
  intros Hall. rewrite (finalize_task_countable s Hall). simpl.
  split; [done|]. split; [|split; [done|split; [done|split; [|done]]]].
  - intros key Hkey. unfold counted_keys in Hkey.
    rewrite !elem_of_cons, elem_of_nil in Hkey.
    destruct Hkey as [->|[->|[->|[->|[]]]]]; reflexivity.
  - repeat (rewrite map_size_insert_None;
            [|repeat (rewrite lookup_insert_ne by done);
              apply lookup_empty || by rewrite lookup_insert_ne]).
    by rewrite map_size_empty.
Qed.

Lemma finalize_task_sums_the_outputs_witness :
  let r :=
    AgentTask.result
      (task (snd (FeatureImplementerAgent_finalize_task Cases.two_outputs))) in
  r !! "files_created" = Some (PyInt 5)
  /\ r !! "files_modified" = Some (PyInt 1)
  /\ r !! "test_files_created" = Some (PyInt 0).
Proof.
  assert (Forall (fun st => countable (AgentStep.output_data st))
            (AgentTask.steps (task Cases.two_outputs))) as Hall.
  { repeat apply Forall_cons_2; [| |apply Forall_nil_2];
      intros key Hkey; unfold counted_keys in Hkey;
      rewrite !elem_of_cons, elem_of_nil in Hkey;
      destruct Hkey as [->|[->|[->|[->|[]]]]]; vm_compute; exact I. }
  destruct (finalize_task_sums_the_outputs Cases.two_outputs Hall)
    as (_&Hsum&_).
  cbv zeta in Hsum |- *.
  rewrite !Hsum by (unfold counted_keys; set_solver).
  repeat split.
Defined.

(** X14.  What a handler touches.  A run of [execute_step_logic] of the
    feature implementer, whatever the services answer, changes nothing
    of the agent but the log, to which it may add lines, and the
    [output_data] of its own step; it only adds requests.  When it
    raises, the task is as it was.  When it returns, either the task is
    as it was (a step of an unknown type), or the step at its index has
    been assigned an [output_data] in which every key that
    [finalize_task] sums is absent or holds an integer, and nothing else
    of the task has changed: no status, no other step, no retry
    counter. *)
Theorem handlers_touch_only_their_output_data (svc : Handlers.Services)
    (i : nat) (w : Handlers.World) :
  let o := fst (Handlers.execute_step_logic svc i w) in
  let w' := snd (Handlers.execute_step_logic svc i w) in
  current_step_index (Handlers.agent w')
  = current_step_index (Handlers.agent w)
  /\ (exists lines,
        proc (Handlers.agent w')
        = with_log (log (proc (Handlers.agent w)) ++ lines)
            (proc (Handlers.agent w)))
  /\ (exists new, Handlers.requests w' = Handlers.requests w ++ new)
  /\ match o with
     | Raise _ => task (Handlers.agent w') = task (Handlers.agent w)
     | Ok _ =>
         task (Handlers.agent w') = task (Handlers.agent w)
         \/ exists out,
              countable out
              /\ task (Handlers.agent w')
                 = AgentTask.with_steps
                     (alter (AgentStep.with_output_data out) i
                        (AgentTask.steps (task (Handlers.agent w))))
                     (task (Handlers.agent w))
     end.
Proof.
  intros o w'. pose proof (execute_step_logic_frame svc i w) as H.
  unfold wpw in H. fold o w' in H.
  destruct o as [[]|e].
  - destruct H as [(Hc&Hl&Hn&Hout)|(Ht&Hc&Hl&Hn)]; auto.
  - destruct H as (Ht&Hc&Hl&Hn). auto.
Qed.

Lemma countable_empty : countable ∅.
Proof. intros key _. by rewrite lookup_empty. Qed.

Lemma handled_countable i w w' :
  handled i w w' ->
  Forall (fun st => countable (AgentStep.output_data st))
         (AgentTask.steps (task (Handlers.agent w))) ->
  Forall (fun st => countable (AgentStep.output_data st))
         (AgentTask.steps (task (Handlers.agent w'))).
Proof.
  intros (_&_&_&out&Hout&->) Hall. simpl.
  apply Forall_alter; [done|]. by intros st _ _.
Qed.

(** X15.  [finalize_task] cannot fail on what the handlers produce.  If
    every [output_data] of the plan can be summed before a run of
    [execute_step_logic] (as in a plan fresh from [generate_plan], where
    they are all empty), then it can after the run, whatever the
    services answered and whether the run returned or raised, and
    [finalize_task] on the task as the run left it returns. *)
Theorem finalize_task_accepts_what_handlers_produce
    (svc : Handlers.Services) (i : nat) (w : Handlers.World) :
  Forall (fun st => countable (AgentStep.output_data st))
         (AgentTask.steps (task (Handlers.agent w))) ->
  let w' := snd (Handlers.execute_step_logic svc i w) in
  Forall (fun st => countable (AgentStep.output_data st))
         (AgentTask.steps (task (Handlers.agent w')))
  /\ fst (FeatureImplementerAgent_finalize_task (Handlers.agent w')) = Ok tt.
Proof.
  intros Hall w'. pose proof (execute_step_logic_frame svc i w) as H.
  unfold wpw in H. fold w' in H.
  assert (Forall (fun st => countable (AgentStep.output_data st))
            (AgentTask.steps (task (Handlers.agent w')))) as Hall'.
  { destruct (fst _) as [[]|e].
    - destruct H as [Hh|(->&_)]; [|done]. by eapply handled_countable.
    - by destruct H as (->&_). }
  split; [done|]. by rewrite (finalize_task_countable _ Hall').
Qed.

(** X16.  The handlers read the plan by position.  [design_implementation]
    reads [steps[0]], [implement_feature] reads [steps[1]], and
    [generate_tests] and [update_documentation] read [steps[2]]: in a
    plan too short to have that step, the handler raises [IndexError]
    (list index out of range) at once, before any request and any log
    line, and leaves the world as it was. *)
Theorem handlers_need_the_steps_they_read (svc : Handlers.Services)
    (i : nat) (w : Handlers.World) :
  let n := length (AgentTask.steps (task (Handlers.agent w))) in
  (n < 1 ->
   Handlers.design_implementation svc i w
   = (Raise "list index out of range", w))
  /\ (n < 2 ->
      Handlers.implement_feature svc i w
      = (Raise "list index out of range", w))
  /\ (n < 3 ->
      Handlers.generate_tests svc i w = (Raise "list index out of range", w)
      /\ Handlers.update_documentation svc i w
         = (Raise "list index out of range", w)).
Proof.
  assert (forall k B (f : AgentStep.t -> Handlers.W B),
            length (AgentTask.steps (task (Handlers.agent w))) < S k ->
            (Handlers.steps_item k ≫= f) w
            = (Raise "list index out of range", w)) as Hshort.
  { intros k B f Hk. destruct w as [s rs]. simpl in Hk.
    rewrite bindw_eq. unfold Handlers.steps_item.
    rewrite bindw_eq. unfold Handlers.lift at 1. cbn [gets].
    cbn [Handlers.agent Handlers.requests].
    rewrite lookup_ge_None_2 by lia. reflexivity. }
  intros n. split; [|split]; intros Hn; [| |split]; by apply Hshort.
Qed.

(* ================================================================== *)
(** ** What the handlers ask of the services                           *)
(* ================================================================== *)

Section HandlerSteps.
Import Handlers.
Context {B : Type}.
Implicit Types (Q : outcome B -> World -> Prop) (w : World).

Lemma wpw_steps_item k (kont : AgentStep.t -> W B) Q w :
  match AgentTask.steps (task (agent w)) !! k with
  | Some st => wpw (kont st) Q w
  | None => Q (Raise "list index out of range") w
  end ->
  wpw (steps_item k ≫= kont) Q w.
Proof.
  destruct w as [s rs]. unfold wpw, steps_item. rewrite !bindw_eq.
  unfold lift. cbn [gets agent requests].
  by destruct (AgentTask.steps (task s) !! k).
Qed.

Lemma wpw_eval {A} (r : string + A) (kont : A -> W B) Q w :
  match r with
  | inr a => wpw (kont a) Q w
  | inl e => Q (Raise e) w
  end ->
  wpw (eval r ≫= kont) Q w.
Proof. by destruct r. Qed.

Lemma wpw_get_project_files svc pid
    (kont : list (gmap string pyval) -> W B) Q w :
  match project svc (length (requests w)) with
  | inr fs =>
      wpw (kont fs) Q
        {| agent := agent w; requests := requests w ++ [GetProject pid] |}
  | inl e =>
      Q (Raise e)
        {| agent := snd (logger ("Failed to get project files: " +:+ e)
                           (agent w));
           requests := requests w ++ [GetProject pid] |}
  end ->
  wpw (get_project_files svc pid ≫= kont) Q w.
Proof.
  destruct w as [s rs]. unfold wpw, get_project_files. rewrite !bindw_eq.
  unfold Handlers.try_except. rewrite !bindw_eq. cbn [send agent requests].
  by destruct (project svc (length rs)).
Qed.

Lemma wpw_call_ai_service svc prompt model (kont : string -> W B) Q w :
  match chat svc (length (requests w)) with
  | inr answer =>
      wpw (kont answer) Q
        {| agent := agent w;
           requests := requests w ++ [PostChat prompt model] |}
  | inl e =>
      Q (Raise e)
        {| agent := snd (logger ("AI service call failed: " +:+ e) (agent w));
           requests := requests w ++ [PostChat prompt model] |}
  end ->
  wpw (call_ai_service svc prompt model ≫= kont) Q w.
Proof.
  destruct w as [s rs]. unfold wpw, call_ai_service. rewrite !bindw_eq.
  unfold Handlers.try_except. rewrite !bindw_eq. cbn [send agent requests].
  by destruct (chat svc (length rs)).
Qed.

Lemma wpw_call_ai_service_cases svc prompt model (kont : string -> W B) Q w :
  (forall answer,
     chat svc (length (requests w)) = inr answer ->
     wpw (kont answer) Q
       {| agent := agent w;
          requests := requests w ++ [PostChat prompt model] |}) ->
  (forall e w', chat svc (length (requests w)) = inl e -> Q (Raise e) w') ->
  wpw (call_ai_service svc prompt model ≫= kont) Q w.
Proof.
  intros Hok Herr. apply wpw_call_ai_service.
  destruct (chat svc (length (requests w))); auto.
Qed.

End HandlerSteps.


Lemma create_file_writes_one svc :
  writes_one (Handlers.create_file svc) Handlers.PostFile.
Proof.
  intros pid path content [s rs]. unfold Handlers.create_file.
  unfold Handlers.try_except. rewrite !bindw_eq.
  cbn [Handlers.send Handlers.agent Handlers.requests].
  by destruct (Handlers.files svc (length rs)).
Qed.

Lemma update_file_writes_one svc :
  writes_one (Handlers.update_file svc) Handlers.PutFile.
Proof.
  intros pid path content [s rs]. unfold Handlers.update_file.
  unfold Handlers.try_except. rewrite !bindw_eq.
  cbn [Handlers.send Handlers.agent Handlers.requests].
  by destruct (Handlers.files svc (length rs)).
Qed.

Section WriteFiles.
Import Handlers.
Context (write : string -> pyval -> pyval -> W pyval)
        (mk : string -> pyval -> pyval -> Request)
        (Hwrite : writes_one write mk).

Let body : pyval -> W unit := fun file_data =>
  project_id ← lift (gets (fun s => AgentTask.project_id (task s)));
  path ← eval (py_item file_data "path");
  content ← eval (py_item file_data "content");
  write project_id path content;;
  mret tt.

(** The loop over the files to write: the requests it adds are writes
    for the project of the task, and when it returns there is one for
    each item, each of which had a path. *)
Lemma for_each_write l : forall w,
  let r := for_each l body w in
  task (agent (snd r)) = task (agent w)
  /\ exists new,
       requests (snd r) = requests w ++ new
       /\ Forall (fun q => exists path content,
                    q = mk (AgentTask.project_id (task (agent w)))
                          path content) new
       /\ (fst r = Ok tt ->
           length new = length l
           /\ Forall (fun x => exists v, py_item x "path" = inr v) l).
Proof using Hwrite.
  induction l as [|x l IH]; intros w; cbn [for_each].
  { simpl. split; [done|]. exists []. rewrite app_nil_r.
    split; [done|]. split; [done|]. done. }
  cbv zeta. rewrite bindw_eq.
  assert (exists o w1,
            body x w = (o, w1)
            /\ task (agent w1) = task (agent w)
            /\ match o with
               | Ok _ =>
                   (exists path content,
                      requests w1
                      = requests w
                        ++ [mk (AgentTask.project_id (task (agent w)))
                              path content])
                   /\ exists v, py_item x "path" = inr v
               | Raise _ =>
                   requests w1 = requests w
                   \/ exists path content,
                        requests w1
                        = requests w
                          ++ [mk (AgentTask.project_id (task (agent w)))
                                path content]
               end) as (o&w1&Hb&Ht1&Ho).
  { unfold body. destruct w as [s rs]. rewrite bindw_eq.
    unfold lift. cbn [gets agent requests].
    destruct (py_item x "path") as [e|path] eqn:Hp.
    { eexists _, _. split; [reflexivity|]. split; [done|]. by left. }
    rewrite bindw_eq. cbn [eval mret W_ret].
    destruct (py_item x "content") as [e|content] eqn:Hc.
    { eexists _, _. split; [reflexivity|]. split; [done|]. by left. }
    rewrite bindw_eq. cbn [eval mret W_ret]. rewrite bindw_eq.
    destruct (Hwrite (AgentTask.project_id (task s)) path content
                {| agent := s; requests := rs |}) as [Hr Ht].
    destruct (write _ path content _) as [[v|e] w1]; simpl in *.
    - eexists _, _. split; [reflexivity|]. split; [done|].
      split; [by eexists _, _|by eexists].
    - eexists _, _. split; [reflexivity|]. split; [done|].
      right. by eexists _, _. }
  rewrite Hb. destruct o as [[]|e].
  - destruct Ho as [(path&content&Hr1) Hpath].
    destruct (IH w1) as (Ht&new&Hr&Hnew&Hok). cbv zeta in *.
    split; [congruence|].
    exists (mk (AgentTask.project_id (task (agent w))) path content :: new).
    split; [by rewrite Hr, Hr1, <- app_assoc|]. split.
    + apply Forall_cons. split; [by eexists _, _|]. by rewrite <- Ht1.
    + intros Hfst. destruct (Hok Hfst) as [Hlen Hall].
      split; [simpl; lia|]. by apply Forall_cons.
  - simpl. split; [done|].
    destruct Ho as [Hr1|(path&content&Hr1)].
    + exists []. rewrite app_nil_r. by repeat split.
    + exists [mk (AgentTask.project_id (task (agent w))) path content].
      split; [done|]. split; [|done].
      apply Forall_singleton. by eexists _, _.
Qed.

(** When the loop over [py_iter listed] returns, [len(listed)] is the
    number of items: the keys of a dict and the characters of a string
    have no path. *)
Lemma py_len_of_written listed l :
  py_iter listed = inr l ->
  Forall (fun x => exists v, py_item x "path" = inr v) l ->
  py_len listed = inr (Z.of_nat (length l)).
Proof.
  destruct listed as [| | |s|l'|d]; simpl; try done.
  - intros [= <-] Hall. destruct s as [|c s]; [done|].
    simpl in Hall. apply Forall_cons in Hall as [[v Hv] _]. done.
  - by intros [= <-] _.
  - intros [= <-] Hall. destruct d as [|[k v] d]; [done|].
    simpl in Hall. apply Forall_cons in Hall as [[v' Hv] _]. done.
Qed.

(** [write_files]: the requests it adds are writes for the project of
    the task; when it returns, their number is what [count_files] then
    gives, in any world. *)
Lemma write_files_requests data key w :
  let r := write_files write data key w in
  task (agent (snd r)) = task (agent w)
  /\ exists new,
       requests (snd r) = requests w ++ new
       /\ Forall (fun q => exists path content,
                    q = mk (AgentTask.project_id (task (agent w)))
                          path content) new
       /\ (fst r = Ok tt ->
           forall w2,
             count_files data key w2 = (Ok (Z.of_nat (length new)), w2)).
Proof using Hwrite.
  unfold write_files, count_files. cbv zeta. rewrite !bindw_eq.
  destruct (py_get data key (PyList [])) as [e|listed]; cbn [eval mret W_ret raise].
  { simpl. split; [done|]. exists []. rewrite app_nil_r. by repeat split. }
  rewrite bindw_eq.
  destruct (py_iter listed) as [e|l] eqn:Hiter; cbn [eval mret W_ret raise].
  { simpl. split; [done|]. exists []. rewrite app_nil_r. by repeat split. }
  destruct (for_each_write l w) as (Ht&new&Hr&Hnew&Hok). cbv zeta in *.
  fold body. split; [done|]. exists new. split; [done|]. split; [done|].
  intros Hfst w2. destruct (Hok Hfst) as [Hlen Hall].
  rewrite bindw_eq. cbn [eval mret W_ret].
  by rewrite (py_len_of_written listed l Hiter Hall), Hlen.
Qed.

End WriteFiles.

Lemma output_data_assigned i out w st :
  AgentTask.steps (task (Handlers.agent w)) !! i = Some st ->
  let r := Handlers.set_output_data i out w in
  fst r = Ok tt
  /\ Handlers.requests (snd r) = Handlers.requests w
  /\ AgentStep.output_data (step_at i (Handlers.agent (snd r))) = out.
Proof.
  intros Hst. destruct w as [s rs]. simpl in *.
  split; [done|]. split; [done|].
  unfold step_at. simpl. by rewrite list_lookup_alter_eq, Hst.
Qed.

Lemma error_output_assigned i line e raw w st :
  AgentTask.steps (task (Handlers.agent w)) !! i = Some st ->
  let r := (Handlers.lift (logger line);;
            Handlers.set_output_data i
              (<["error" := PyStr e]> (<["raw_response" := PyStr raw]> ∅))) w in
  fst r = Ok tt
  /\ Handlers.requests (snd r) = Handlers.requests w
  /\ AgentStep.output_data (step_at i (Handlers.agent (snd r)))
     = <["error" := PyStr e]> (<["raw_response" := PyStr raw]> ∅).
Proof.
  intros Hst. destruct w as [s rs]. simpl in *.
  split; [done|]. split; [done|].
  unfold step_at. simpl. by rewrite list_lookup_alter_eq, Hst.
Qed.

(** X17.  [implement_feature] reports what it wrote.  When it returns,
    for a step of the plan, its requests were, in this order: one for
    the project, one chat with the AI service, then file creations, then
    file updates, all for the project of the task.  Either the answer of
    the AI service was parsed and [output_data] is
    [{"files_created": a, "files_modified": b, "implementation": ...}]
    with [a] the number of creations requested and [b] the number of
    updates requested, or something raised on the way (the parsing, the
    shape of the answer, a file request) and [output_data] is
    [{"error": ..., "raw_response": <the answer>}], which tells nothing
    of the files that were written before. *)
Theorem implement_feature_reports_what_it_wrote (svc : Handlers.Services)
    (i : nat) (w : Handlers.World) (st : AgentStep.t) :
  AgentTask.steps (task (Handlers.agent w)) !! i = Some st ->
  fst (Handlers.implement_feature svc i w) = Ok tt ->
  let w' := snd (Handlers.implement_feature svc i w) in
  let pid := AgentTask.project_id (task (Handlers.agent w)) in
  let out := AgentStep.output_data (step_at i (Handlers.agent w')) in
  exists prompt answer posts puts,
    Handlers.chat svc (S (length (Handlers.requests w))) = inr answer
    /\ Handlers.requests w'
       = Handlers.requests w
         ++ [Handlers.GetProject pid; Handlers.PostChat prompt "gpt-4"]
         ++ posts ++ puts
    /\ Forall (is_post pid) posts
    /\ Forall (is_put pid) puts
    /\ ((exists impl_data,
           Handlers.loads svc answer = inr impl_data
           /\ out = <["files_created" := PyInt (Z.of_nat (length posts))]>
                    (<["files_modified" := PyInt (Z.of_nat (length puts))]>
                    (<["implementation" := impl_data]> ∅)))
        \/ exists e,
             out = <["error" := PyStr e]>
                   (<["raw_response" := PyStr answer]> ∅)).
Proof.
  intros Hst. intros Hok w' pid out. revert Hok. subst out w'.
  set (Q := fun (o : outcome unit) (w' : Handlers.World) =>
         o = Ok tt ->
         exists prompt answer posts puts,
           Handlers.chat svc (S (length (Handlers.requests w))) = inr answer
           /\ Handlers.requests w'
              = Handlers.requests w
                ++ [Handlers.GetProject pid; Handlers.PostChat prompt "gpt-4"]
                ++ posts ++ puts
           /\ Forall (is_post pid) posts
           /\ Forall (is_put pid) puts
           /\ ((exists impl_data,
                  Handlers.loads svc answer = inr impl_data
                  /\ AgentStep.output_data (step_at i (Handlers.agent w'))
                     = <["files_created" := PyInt (Z.of_nat (length posts))]>
                       (<["files_modified" :=
                            PyInt (Z.of_nat (length puts))]>
                       (<["implementation" := impl_data]> ∅)))
               \/ exists e,
                    AgentStep.output_data (step_at i (Handlers.agent w'))
                    = <["error" := PyStr e]>
                      (<["raw_response" := PyStr answer]> ∅))).
  cut (wpw (Handlers.implement_feature svc i) Q w); [intros H; exact H|].
  unfold Handlers.implement_feature.
  apply wpw_steps_item.
  destruct (AgentTask.steps (task (Handlers.agent w)) !! 1) as [st1|];
    [|done].
  cbv zeta. apply wpw_gets. apply wpw_get_project_files.
  destruct (Handlers.project svc _) as [e|pfiles]; [done|].
  apply wpw_eval. destruct (Handlers.collect_contents _ _) as [e|fc]; [done|].
  apply wpw_gets. cbn [Handlers.agent].
  apply wpw_call_ai_service_cases; [|done].
  cbn [Handlers.requests]. rewrite length_app, Nat.add_1_r. cbn [length].
  intros answer Hchat. fold pid.
  match goal with |- wpw _ _ ?w0 => set (w2 := w0) end.
  assert (forall w3 line e posts puts,
            task (Handlers.agent w3) = task (Handlers.agent w) ->
            Handlers.requests w3 = Handlers.requests w2 ++ posts ++ puts ->
            Forall (is_post pid) posts -> Forall (is_put pid) puts ->
            wpw (Handlers.lift (logger line);;
                 Handlers.set_output_data i
                   (<["error" := PyStr e]>
                    (<["raw_response" := PyStr answer]> ∅)))
                Q w3) as Hfail.
  { intros w3 line e posts puts Ht3 Hr3 Hposts Hputs _.
    destruct (error_output_assigned i line e answer w3 st) as (_&Hr&Hout).
    { by rewrite Ht3. }
    cbv zeta in Hr, Hout.
    eexists _, answer, posts, puts. split; [done|].
    split; [rewrite Hr, Hr3; subst w2; simpl; by rewrite <- !app_assoc|].
    split; [done|]. split; [done|]. right. by exists e. }
  apply wpw_try. apply wpw_eval.
  destruct (Handlers.loads svc answer) as [e|impl] eqn:Hloads.
  { apply (Hfail w2 _ e [] []); [done|by rewrite app_nil_r|done..]. }
  apply wpw_bind. unfold wpw at 1.
  destruct (write_files_requests _ _ (create_file_writes_one svc)
              impl "new_files" w2) as (Ht3&posts&Hr3&Hposts&Hcount3).
  cbv zeta in *.
  destruct (Handlers.write_files (Handlers.create_file svc) impl "new_files"
              w2) as [[[]|e] w3]; cbn [fst snd] in *.
  2:{ apply (Hfail w3 _ e posts []); [done| by rewrite app_nil_r|done..]. }
  apply wpw_bind. unfold wpw at 1.
  destruct (write_files_requests _ _ (update_file_writes_one svc)
              impl "modified_files" w3) as (Ht4&puts&Hr4&Hputs&Hcount4).
  cbv zeta in *. rewrite Ht3 in Hputs.
  destruct (Handlers.write_files (Handlers.update_file svc) impl
              "modified_files" w3) as [[[]|e] w4]; cbn [fst snd] in *.
  2:{ apply (Hfail w4 _ e posts puts);
        [by rewrite Ht4, Ht3| by rewrite Hr4, Hr3, <- app_assoc|done..]. }
  apply wpw_bind. unfold wpw at 1.
  rewrite (Hcount3 eq_refl w4). cbn [fst snd].
  apply wpw_bind. unfold wpw at 1.
  rewrite (Hcount4 eq_refl w4). cbn [fst snd].
  intros _.
  destruct (output_data_assigned i
              (<["files_created" := PyInt (Z.of_nat (length posts))]>
               (<["files_modified" := PyInt (Z.of_nat (length puts))]>
               (<["implementation" := impl]> ∅))) w4 st) as (_&Hr&Hout).
  { by rewrite Ht4, Ht3. }
  cbv zeta in Hr, Hout.
  eexists _, answer, posts, puts. split; [done|].
  split; [rewrite Hr, Hr4, Hr3; subst w2; simpl; by rewrite <- !app_assoc|].
  split; [done|]. split; [done|]. left. by exists impl.
Qed.

(** X18.  [generate_tests] and [update_documentation] report what they
    wrote.  When one of them returns, for a step of the plan, its
    requests were one chat with the AI service and then, for
    [generate_tests], file creations and, for [update_documentation],
    file updates, all for the project of the task.  Either the answer
    was parsed and [output_data] is [{"test_files_created": n, "tests":
    ...}] (respectively [{"doc_files_updated": n, "documentation":
    ...}]) with [n] the number of file requests made, or something
    raised on the way and [output_data] is [{"error": ...,
    "raw_response": <the answer>}]. *)
Theorem tests_and_docs_report_what_they_wrote (svc : Handlers.Services)
    (i : nat) (w : Handlers.World) (st : AgentStep.t) :
  AgentTask.steps (task (Handlers.agent w)) !! i = Some st ->
  let pid := AgentTask.project_id (task (Handlers.agent w)) in
  (fst (Handlers.generate_tests svc i w) = Ok tt ->
   let w' := snd (Handlers.generate_tests svc i w) in
   let out := AgentStep.output_data (step_at i (Handlers.agent w')) in
   exists prompt answer posts,
     Handlers.chat svc (length (Handlers.requests w)) = inr answer
     /\ Handlers.requests w'
        = Handlers.requests w ++ [Handlers.PostChat prompt "gpt-4"] ++ posts
     /\ Forall (is_post pid) posts
     /\ ((exists test_data,
            Handlers.loads svc answer = inr test_data
            /\ out = <["test_files_created" :=
                         PyInt (Z.of_nat (length posts))]>
                     (<["tests" := test_data]> ∅))
         \/ exists e,
              out = <["error" := PyStr e]>
                    (<["raw_response" := PyStr answer]> ∅)))
  /\ (fst (Handlers.update_documentation svc i w) = Ok tt ->
      let w' := snd (Handlers.update_documentation svc i w) in
      let out := AgentStep.output_data (step_at i (Handlers.agent w')) in
      exists prompt answer puts,
        Handlers.chat svc (length (Handlers.requests w)) = inr answer
        /\ Handlers.requests w'
           = Handlers.requests w ++ [Handlers.PostChat prompt "gpt-4"] ++ puts
        /\ Forall (is_put pid) puts
        /\ ((exists doc_data,
               Handlers.loads svc answer = inr doc_data
               /\ out = <["doc_files_updated" :=
                            PyInt (Z.of_nat (length puts))]>
                        (<["documentation" := doc_data]> ∅))
            \/ exists e,
                 out = <["error" := PyStr e]>
                       (<["raw_response" := PyStr answer]> ∅))).
Proof.
  intros Hst pid. split.
  - set (Q := fun (o : outcome unit) (w' : Handlers.World) =>
           o = Ok tt ->
           exists prompt answer posts,
             Handlers.chat svc (length (Handlers.requests w)) = inr answer
             /\ Handlers.requests w'
                = Handlers.requests w
                  ++ [Handlers.PostChat prompt "gpt-4"] ++ posts
             /\ Forall (is_post pid) posts
             /\ ((exists test_data,
                    Handlers.loads svc answer = inr test_data
                    /\ AgentStep.output_data (step_at i (Handlers.agent w'))
                       = <["test_files_created" :=
                             PyInt (Z.of_nat (length posts))]>
                         (<["tests" := test_data]> ∅))
                 \/ exists e,
                      AgentStep.output_data (step_at i (Handlers.agent w'))
                      = <["error" := PyStr e]>
                        (<["raw_response" := PyStr answer]> ∅))).
    cut (wpw (Handlers.generate_tests svc i) Q w); [intros H; exact H|].
    unfold Handlers.generate_tests. apply wpw_steps_item.
    destruct (AgentTask.steps (task (Handlers.agent w)) !! 2) as [st2|];
      [|done].
    cbv zeta. apply wpw_gets. apply wpw_call_ai_service_cases; [|done].
    intros answer Hchat.
    match goal with |- wpw _ _ ?w0 => set (w2 := w0) end.
    assert (forall w3 line e posts,
              task (Handlers.agent w3) = task (Handlers.agent w) ->
              Handlers.requests w3 = Handlers.requests w2 ++ posts ->
              Forall (is_post pid) posts ->
              wpw (Handlers.lift (logger line);;
                   Handlers.set_output_data i
                     (<["error" := PyStr e]>
                      (<["raw_response" := PyStr answer]> ∅)))
                  Q w3) as Hfail.
    { intros w3 line e posts Ht3 Hr3 Hposts _.
      destruct (error_output_assigned i line e answer w3 st) as (_&Hr&Hout).
      { by rewrite Ht3. }
      cbv zeta in Hr, Hout.
      eexists _, answer, posts. split; [done|].
      split; [rewrite Hr, Hr3; subst w2; simpl; by rewrite <- !app_assoc|].
      split; [done|]. right. by exists e. }
    apply wpw_try. apply wpw_eval.
    destruct (Handlers.loads svc answer) as [e|data] eqn:Hloads.
    { apply (Hfail w2 _ e []); [done|by rewrite app_nil_r|done]. }
    apply wpw_bind. unfold wpw at 1.
    destruct (write_files_requests _ _ (create_file_writes_one svc)
                data "test_files" w2) as (Ht3&posts&Hr3&Hposts&Hcount3).
    cbv zeta in *.
    destruct (Handlers.write_files (Handlers.create_file svc) data
                "test_files" w2) as [[[]|e] w3]; cbn [fst snd] in *.
    2:{ by apply (Hfail w3 _ e posts). }
    apply wpw_bind. unfold wpw at 1.
    rewrite (Hcount3 eq_refl w3). cbn [fst snd].
    intros _.
    destruct (output_data_assigned i
                (<["test_files_created" := PyInt (Z.of_nat (length posts))]>
                 (<["tests" := data]> ∅)) w3 st) as (_&Hr&Hout).
    { by rewrite Ht3. }
    cbv zeta in Hr, Hout.
    eexists _, answer, posts. split; [done|].
    split; [rewrite Hr, Hr3; subst w2; simpl; by rewrite <- !app_assoc|].
    split; [done|]. left. by exists data.
  - set (Q := fun (o : outcome unit) (w' : Handlers.World) =>
           o = Ok tt ->
           exists prompt answer puts,
             Handlers.chat svc (length (Handlers.requests w)) = inr answer
             /\ Handlers.requests w'
                = Handlers.requests w
                  ++ [Handlers.PostChat prompt "gpt-4"] ++ puts
             /\ Forall (is_put pid) puts
             /\ ((exists doc_data,
                    Handlers.loads svc answer = inr doc_data
                    /\ AgentStep.output_data (step_at i (Handlers.agent w'))
                       = <["doc_files_updated" :=
                             PyInt (Z.of_nat (length puts))]>
                         (<["documentation" := doc_data]> ∅))
                 \/ exists e,
                      AgentStep.output_data (step_at i (Handlers.agent w'))
                      = <["error" := PyStr e]>
                        (<["raw_response" := PyStr answer]> ∅))).
    cut (wpw (Handlers.update_documentation svc i) Q w);
      [intros H; exact H|].
    unfold Handlers.update_documentation. apply wpw_steps_item.
    destruct (AgentTask.steps (task (Handlers.agent w)) !! 2) as [st2|];
      [|done].
    cbv zeta. apply wpw_gets. apply wpw_call_ai_service_cases; [|done].
    intros answer Hchat.
    match goal with |- wpw _ _ ?w0 => set (w2 := w0) end.
    assert (forall w3 line e puts,
              task (Handlers.agent w3) = task (Handlers.agent w) ->
              Handlers.requests w3 = Handlers.requests w2 ++ puts ->
              Forall (is_put pid) puts ->
              wpw (Handlers.lift (logger line);;
                   Handlers.set_output_data i
                     (<["error" := PyStr e]>
                      (<["raw_response" := PyStr answer]> ∅)))
                  Q w3) as Hfail.
    { intros w3 line e puts Ht3 Hr3 Hputs _.
      destruct (error_output_assigned i line e answer w3 st) as (_&Hr&Hout).
      { by rewrite Ht3. }
      cbv zeta in Hr, Hout.
      eexists _, answer, puts. split; [done|].
      split; [rewrite Hr, Hr3; subst w2; simpl; by rewrite <- !app_assoc|].
      split; [done|]. right. by exists e. }
    apply wpw_try. apply wpw_eval.
    destruct (Handlers.loads svc answer) as [e|data] eqn:Hloads.
    { apply (Hfail w2 _ e []); [done|by rewrite app_nil_r|done]. }
    apply wpw_bind. unfold wpw at 1.
    destruct (write_files_requests _ _ (update_file_writes_one svc)
                data "doc_files" w2) as (Ht3&puts&Hr3&Hputs&Hcount3).
    cbv zeta in *.
    destruct (Handlers.write_files (Handlers.update_file svc) data
                "doc_files" w2) as [[[]|e] w3]; cbn [fst snd] in *.
    2:{ by apply (Hfail w3 _ e puts). }
    apply wpw_bind. unfold wpw at 1.
    rewrite (Hcount3 eq_refl w3). cbn [fst snd].
    intros _.
    destruct (output_data_assigned i
                (<["doc_files_updated" := PyInt (Z.of_nat (length puts))]>
                 (<["documentation" := data]> ∅)) w3 st) as (_&Hr&Hout).
    { by rewrite Ht3. }
    cbv zeta in Hr, Hout.
    eexists _, answer, puts. split; [done|].
    split; [rewrite Hr, Hr3; subst w2; simpl; by rewrite <- !app_assoc|].
    split; [done|]. left. by exists data.
Qed.

Lemma default_plan_countable :
  Forall (fun st => countable (AgentStep.output_data st)) default_plan.
Proof.
  unfold default_plan.
  repeat (apply Forall_cons; split; [apply countable_empty|]).
  apply Forall_nil_2.
Qed.

Lemma finalize_task_accepts_what_handlers_produce_witness :
  let w' := snd (Handlers.execute_step_logic Cases.helpful 2 Cases.at_work) in
  fst (FeatureImplementerAgent_finalize_task (Handlers.agent w')) = Ok tt
  /\ AgentStep.output_data (step_at 2 (Handlers.agent w')) !! "files_created"
     = Some (PyInt 2).
Proof.
  split.
  - apply (finalize_task_accepts_what_handlers_produce Cases.helpful 2
             Cases.at_work default_plan_countable).
  - vm_compute. reflexivity.
Defined.

Lemma implement_feature_reports_what_it_wrote_witness :
  let w' := snd (Handlers.implement_feature Cases.refusing 2 Cases.at_work) in
  let out := AgentStep.output_data (step_at 2 (Handlers.agent w')) in
  (exists prompt posts puts,
     Handlers.requests w'
     = [Handlers.GetProject "proj"; Handlers.PostChat prompt "gpt-4"]
       ++ posts ++ puts
     /\ Forall (is_post "proj") posts /\ Forall (is_put "proj") puts)
  /\ length (Handlers.requests w') = 4
  /\ out !! "files_created" = None
  /\ out !! "error" = Some (PyStr "500 Internal Server Error").
Proof.
  split.
  - destruct (implement_feature_reports_what_it_wrote Cases.refusing 2
                Cases.at_work
                (AgentStep.new "step_2" "Implement Feature"
                   "Implement the feature code" "implementation" [])
                eq_refl eq_refl)
      as (prompt&answer&posts&puts&_&Hr&Hposts&Hputs&_).
    by exists prompt, posts, puts.
  - vm_compute. repeat split.
Defined.

Lemma tests_and_docs_report_what_they_wrote_witness :
  let w' := snd (Handlers.generate_tests Cases.helpful 3 Cases.at_work) in
  (exists prompt posts,
     Handlers.requests w' = [Handlers.PostChat prompt "gpt-4"] ++ posts
     /\ Forall (is_post "proj") posts)
  /\ AgentStep.output_data (step_at 3 (Handlers.agent w'))
     !! "test_files_created" = Some (PyInt 1).
Proof.
  split.
  - destruct (tests_and_docs_report_what_they_wrote Cases.helpful 3
                Cases.at_work
                (AgentStep.new "step_3" "Generate Tests"
                   "Generate unit tests for the feature" "testing" [])
                eq_refl) as [Htests _].
    destruct (Htests eq_refl) as (prompt&answer&posts&_&Hr&Hposts&_).
    by exists prompt, posts.
  - vm_compute. reflexivity.
Defined.

Lemma wpw_file_paths {B} fs (kont : list pyval -> Handlers.W B)
    (Q : outcome B -> Handlers.World -> Prop) w :
  match mapM (fun f : gmap string pyval => f !! "path") fs with
  | Some paths => wpw (kont paths) Q w
  | None => Q (Raise "'path'") w
  end ->
  wpw (Handlers.lift (file_paths fs) ≫= kont) Q w.
Proof.
  destruct w as [s rs]. unfold wpw. rewrite !bindw_eq.
  unfold Handlers.lift, file_paths.
  by destruct (mapM _ fs).
Qed.

(** X19.  What the first two handlers ask, and in which order.
    [analyze_requirements] asks the project service for the files of the
    project of the task; if that raises, or if a file has no path
    ([KeyError]), it raises without asking the AI service; otherwise it
    sends one chat, whose prompt carries the description of the task and
    the paths, and, if the AI service answers, assigns
    [{"analysis": <answer>}].  [design_implementation] sends one chat,
    whose prompt carries the ["analysis"] that [steps[0]] holds (the
    empty string if it holds none) and the description, and assigns
    [{"design": <answer>}]; it asks nothing of the project service. *)
Theorem analysis_and_design_ask_in_order (svc : Handlers.Services) (i : nat)
    (w : Handlers.World) (st : AgentStep.t) :
  AgentTask.steps (task (Handlers.agent w)) !! i = Some st ->
  let n := length (Handlers.requests w) in
  let pid := AgentTask.project_id (task (Handlers.agent w)) in
  let description := AgentTask.description (task (Handlers.agent w)) in
  let a := Handlers.analyze_requirements svc i w in
  let d := Handlers.design_implementation svc i w in
  match Handlers.project svc n with
  | inl e =>
      fst a = Raise e
      /\ Handlers.requests (snd a)
         = Handlers.requests w ++ [Handlers.GetProject pid]
  | inr project_files =>
      match mapM (fun f : gmap string pyval => f !! "path") project_files with
      | None =>
          fst a = Raise "'path'"
          /\ Handlers.requests (snd a)
             = Handlers.requests w ++ [Handlers.GetProject pid]
      | Some paths =>
          Handlers.requests (snd a)
          = Handlers.requests w
            ++ [Handlers.GetProject pid;
                Handlers.PostChat (Handlers.AnalysisPrompt description paths)
                  "gpt-4"]
          /\ match Handlers.chat svc (S n) with
             | inl e => fst a = Raise e
             | inr analysis =>
                 fst a = Ok tt
                 /\ AgentStep.output_data (step_at i (Handlers.agent (snd a)))
                    = {["analysis" := PyStr analysis]}
             end
      end
  end
  /\ forall step0,
       AgentTask.steps (task (Handlers.agent w)) !! 0 = Some step0 ->
       Handlers.requests (snd d)
       = Handlers.requests w
         ++ [Handlers.PostChat
               (Handlers.DesignPrompt
                  (default (PyStr "")
                     (AgentStep.output_data step0 !! "analysis"))
                  description)
               "gpt-4"]
       /\ match Handlers.chat svc n with
          | inl e => fst d = Raise e
          | inr design =>
              fst d = Ok tt
              /\ AgentStep.output_data (step_at i (Handlers.agent (snd d)))
                 = {["design" := PyStr design]}
          end.
Proof.
  intros Hst n pid description a d. split.
  - subst a.
    change (wpw (Handlers.analyze_requirements svc i)
              (fun o w' =>
                 match Handlers.project svc n with
                 | inl e =>
                     o = Raise e
                     /\ Handlers.requests w'
                        = Handlers.requests w ++ [Handlers.GetProject pid]
                 | inr project_files =>
                     match mapM (fun f : gmap string pyval => f !! "path")
                                project_files with
                     | None =>
                         o = Raise "'path'"
                         /\ Handlers.requests w'
                            = Handlers.requests w ++ [Handlers.GetProject pid]
                     | Some paths =>
                         Handlers.requests w'
                         = Handlers.requests w
                           ++ [Handlers.GetProject pid;
                               Handlers.PostChat
                                 (Handlers.AnalysisPrompt description paths)
                                 "gpt-4"]
                         /\ match Handlers.chat svc (S n) with
                            | inl e => o = Raise e
                            | inr analysis =>
                                o = Ok tt
                                /\ AgentStep.output_data
                                     (step_at i (Handlers.agent w'))
                                   = {["analysis" := PyStr analysis]}
                            end
                     end
                 end) w).
    unfold Handlers.analyze_requirements.
    apply wpw_gets. apply wpw_get_project_files. fold n pid.
    destruct (Handlers.project svc n) as [e|pfiles]; [done|].
    apply wpw_gets. apply wpw_file_paths.
    destruct (mapM _ pfiles) as [paths|]; [|done].
    apply wpw_call_ai_service. cbn [Handlers.requests Handlers.agent].
    rewrite length_app, Nat.add_1_r. cbn [length]. fold n description.
    destruct (Handlers.chat svc (S n)) as [e|analysis].
    { split; [by rewrite <- app_assoc|done]. }
    match goal with |- wpw _ _ ?w0 =>
      destruct (output_data_assigned i {["analysis" := PyStr analysis]} w0 st
                  Hst) as (Ho&Hr&Hout)
    end.
    cbv zeta in Ho, Hr, Hout. unfold wpw.
    rewrite Ho, Hr, Hout. cbn [Handlers.requests].
    split; [by rewrite <- app_assoc|done].
  - intros step0 H0. subst d.
    change (wpw (Handlers.design_implementation svc i)
              (fun o w' =>
                 Handlers.requests w'
                 = Handlers.requests w
                   ++ [Handlers.PostChat
                         (Handlers.DesignPrompt
                            (default (PyStr "")
                               (AgentStep.output_data step0 !! "analysis"))
                            description)
                         "gpt-4"]
                 /\ match Handlers.chat svc n with
                    | inl e => o = Raise e
                    | inr design =>
                        o = Ok tt
                        /\ AgentStep.output_data
                             (step_at i (Handlers.agent w'))
                           = {["design" := PyStr design]}
                    end) w).
    unfold Handlers.design_implementation.
    apply wpw_steps_item. rewrite H0. cbv zeta.
    apply wpw_gets. apply wpw_call_ai_service. fold n description.
    destruct (Handlers.chat svc n) as [e|design]; [done|].
    match goal with |- wpw _ _ ?w0 =>
      destruct (output_data_assigned i {["design" := PyStr design]} w0 st
                  Hst) as (Ho&Hr&Hout)
    end.
    cbv zeta in Ho, Hr, Hout. unfold wpw.
    by rewrite Ho, Hr, Hout.
Qed.

Lemma analysis_and_design_ask_in_order_witness :
  let a := Handlers.analyze_requirements Cases.helpful 0 Cases.at_work in
  fst a = Ok tt
  /\ AgentStep.output_data (step_at 0 (Handlers.agent (snd a)))
     = {["analysis" := PyStr "{ ... }"]}
  /\ Handlers.requests (snd a)
     = [Handlers.GetProject "proj";
        Handlers.PostChat
          (Handlers.AnalysisPrompt "Add a login page" [PyStr "main.py"])
          "gpt-4"].
Proof.
  destruct (analysis_and_design_ask_in_order Cases.helpful 0 Cases.at_work
              (AgentStep.new "step_0" "Analyze Requirements"
                 "Analyze feature requirements and existing codebase"
                 "analysis" []) eq_refl) as [(Hr&Ho&Hout) _].
  split; [exact Ho|]. split; [exact Hout | exact Hr].
Defined.

Lemma bindw_ext {A B} (m : Handlers.W A) (k1 k2 : A -> Handlers.W B) w :
  (forall a w', k1 a w' = k2 a w') -> (m ≫= k1) w = (m ≫= k2) w.
Proof.
  intros Hk. rewrite !bindw_eq. destruct (m w) as [[a|e] w']; auto.
Qed.

(** X20.  [implement_feature] reads the first ten project files only.
    Two project services whose answers agree on the first ten files (and
    raise alike) give the same run of [implement_feature], whatever the
    files from the eleventh on hold or lack: the same outcome, the same
    requests, the same [output_data]. *)
Theorem implement_feature_reads_ten_project_files (svc : Handlers.Services)
    (project' : nat -> string + list (gmap string pyval)) (i : nat)
    (w : Handlers.World) :
  (forall n,
     match Handlers.project svc n, project' n with
     | inr fs, inr fs' => take 10 fs = take 10 fs'
     | inl e, inl e' => e = e'
     | _, _ => False
     end) ->
  Handlers.implement_feature
    {| Handlers.chat := Handlers.chat svc; Handlers.project := project';
       Handlers.files := Handlers.files svc;
       Handlers.loads := Handlers.loads svc |} i w
  = Handlers.implement_feature svc i w.
Proof.
  intros Hsame. unfold Handlers.implement_feature.
  apply bindw_ext. intros st1 w1. cbv zeta.
  apply bindw_ext. intros pid [s2 rs2].
  unfold Handlers.get_project_files, Handlers.try_except.
  rewrite !bindw_eq.
  cbn [Handlers.send Handlers.agent Handlers.requests Handlers.project].
  specialize (Hsame (length rs2)).
  destruct (Handlers.project svc (length rs2)) as [e|fs],
           (project' (length rs2)) as [e'|fs']; try done.
  - by subst e'.
  - cbn [Handlers.eval mret Handlers.W_ret]. by rewrite Hsame.
Qed.

Lemma implement_feature_reads_ten_project_files_witness :
  let eleven :=
    replicate 10 (<["path" := PyStr "main.py"]> (∅ : gmap string pyval))
    ++ [ <["content" := PyStr "a file without a path"]> ∅ ] in
  let svc' :=
    {| Handlers.chat := Handlers.chat Cases.helpful;
       Handlers.project := fun _ => inr eleven;
       Handlers.files := Handlers.files Cases.helpful;
       Handlers.loads := Handlers.loads Cases.helpful |} in
  let svc :=
    {| Handlers.chat := Handlers.chat Cases.helpful;
       Handlers.project := fun _ => inr (take 10 eleven);
       Handlers.files := Handlers.files Cases.helpful;
       Handlers.loads := Handlers.loads Cases.helpful |} in
  Handlers.implement_feature svc' 2 Cases.at_work
  = Handlers.implement_feature svc 2 Cases.at_work
  /\ fst (Handlers.implement_feature svc' 2 Cases.at_work) = Ok tt.
Proof.
  intros eleven svc' svc. split.
  - apply (implement_feature_reads_ten_project_files svc
             (fun _ => inr eleven) 2 Cases.at_work).
    intros n. reflexivity.
  - vm_compute. reflexivity.
Defined.
